(** * Character group chat: responder selection and autonomous conversations

    A shallow embedding of the decision logic of the chatbot:
    - [Py]: the Python string and list primitives the code relies on;
    - [Re]: a backtracking matcher for the regular expressions of the code;
    - [Selector]: [SmartCharacterSelector] (smart_character_selector.py);
    - [Dynamic]: the selection on the external opinion as [json.loads]
      returns it, any JSON value, with the exceptions Python raises;
    - [Orchestrator]: [ConversationOrchestrator] (conversation_orchestrator.py);
    - [Shared]: the orchestrator's registry with the conversation dicts as
      objects that several groups can hold;
    - [App]: [calculate_enhanced_relevance] (maincode.py).

    Text is modelled as a list of 8-bit characters, read as ASCII: case
    folding touches A-Z only, and whitespace is the ASCII whitespace that
    Python's [str.isspace] accepts.  Python floats are modelled by the
    rationals they denote ([Q]). *)

From Stdlib Require Import ZArith QArith Qminmax Ascii String List Bool Lia.
From stdpp Require Import functions base decidable option list gmap strings.

Import ListNotations.
Local Open Scope list_scope.

(** A Python [str]. *)
Abbreviation str := (list ascii).

(** String literals of the source, as [str]. *)
Definition s2l (s : string) : str := list_ascii_of_string s.
Notation "« s »" := (s2l s%string) (at level 0, format "« s »").

(** ** Python primitives *)
Module Py.

(** [str.isspace] on one ASCII character: TAB, LF, VT, FF, CR, FS, GS, RS,
    US and space. *)
Definition is_space (c : ascii) : bool :=
  let n := nat_of_ascii c in
  ((9 <=? n) && (n <=? 13)) || ((28 <=? n) && (n <=? 32)).

Definition lower_char (c : ascii) : ascii :=
  let n := nat_of_ascii c in
  if (65 <=? n) && (n <=? 90) then ascii_of_nat (n + 32) else c.

(** [s.lower()] *)
Definition lower (s : str) : str := map lower_char s.

(** [s.lstrip()], [s.rstrip()], [s.strip()] *)
Fixpoint lstrip (s : str) : str :=
  match s with
  | c :: s' => if is_space c then lstrip s' else s
  | [] => []
  end.

Definition rstrip (s : str) : str := rev (lstrip (rev s)).

Definition strip (s : str) : str := rstrip (lstrip s).

(** [s.startswith(p)] *)
Fixpoint startswith (s p : str) : bool :=
  match p, s with
  | [], _ => true
  | a :: p', b :: s' => bool_decide (a = b) && startswith s' p'
  | _ :: _, [] => false
  end.

(** [s.endswith(p)] *)
Definition endswith (s p : str) : bool := startswith (rev s) (rev p).

(** [needle in hay] for strings. *)
Fixpoint contains (hay needle : str) : bool :=
  startswith hay needle ||
  match hay with
  | [] => false
  | _ :: hay' => contains hay' needle
  end.

(** [s.split()]: the maximal runs of non-whitespace characters. *)
Fixpoint split_go (cur : str) (s : str) : list str :=
  match s with
  | [] => match cur with [] => [] | _ => [rev cur] end
  | c :: s' =>
      if is_space c
      then match cur with [] => split_go [] s' | _ => rev cur :: split_go [] s' end
      else split_go (c :: cur) s'
  end.

Definition split (s : str) : list str := split_go [] s.

(** [l[:n]] for an integer [n]: a negative bound counts from the end. *)
Definition slice_to {A} (l : list A) (n : Z) : list A :=
  if (0 <=? n)%Z then firstn (Z.to_nat n) l
  else firstn (length l - Z.to_nat (- n)) l.

(** [l[-n:]] for a positive literal [n]. *)
Definition last_n {A} (n : nat) (l : list A) : list A :=
  skipn (length l - n) l.

(** [any(k in s for k in keywords)] *)
Definition any_in (keywords : list str) (s : str) : bool :=
  existsb (fun k => contains s k) keywords.

(** Truthiness of a string and of a list. *)
Definition truthy {A} (l : list A) : bool :=
  match l with [] => false | _ => true end.

End Py.

(** ** Regular expressions

    The patterns of the source use literals, [.], [\s], a character set,
    the anchors [^], [$] and [\b], sequencing, alternation, the greedy
    [?] and [+], and capture groups.  [run] enumerates the ways a pattern
    can match at a position in the order in which Python's backtracking
    matcher tries them, so the first one is the match Python reports. *)
Module Re.

Inductive regex : Type :=
| Eps
| Chr (c : ascii)
| Dot                          (* [.]: any character but a line feed *)
| Space                        (* [\s] *)
| OneOf (cs : list ascii)      (* [[...]] *)
| Bol                          (* [^] *)
| Eol                          (* [$] *)
| WordB                        (* [\b] *)
| Seq (r1 r2 : regex)
| Alt (r1 r2 : regex)
| Opt (r : regex)              (* [r?] *)
| Plus (r : regex)             (* [r+] *)
| Group (n : nat) (r : regex). (* the [n]-th capture group *)

(** A literal, as [re.escape] produces for arbitrary text. *)
Definition Lit (s : str) : regex := fold_right (fun c r => Seq (Chr c) r) Eps s.

Fixpoint Seqs (rs : list regex) : regex :=
  match rs with
  | [] => Eps
  | [r] => r
  | r :: rs' => Seq r (Seqs rs')
  end.

Fixpoint Alts (rs : list regex) : regex :=
  match rs with
  | [] => Eps
  | [r] => r
  | r :: rs' => Alt r (Alts rs')
  end.

(** A position of the matcher: the character before it (none at the start
    of the string), the text ahead, and the groups captured so far. *)
Record pos : Type := mkPos {
  prev : option ascii;
  rest : str;
  caps : list (nat * str)
}.

Definition newline : ascii := ascii_of_nat 10.

(** [\w] on ASCII: letters, digits and the underscore. *)
Definition is_word (c : ascii) : bool :=
  let n := nat_of_ascii c in
  ((48 <=? n) && (n <=? 57)) || ((65 <=? n) && (n <=? 90)) ||
  ((97 <=? n) && (n <=? 122)) || (n =? 95).

Definition is_word_opt (o : option ascii) : bool :=
  match o with Some c => is_word c | None => false end.

(** Consume one character satisfying [f]. *)
Definition eat (f : ascii -> bool) (p : pos) : list pos :=
  match rest p with
  | c :: s => if f c then [mkPos (Some c) s (caps p)] else []
  | [] => []
  end.

(** Greedy repetition: after each iteration try another one first, then
    stop.  Every iteration of the patterns at hand consumes a character, so
    [fuel] above the remaining length never runs out. *)
Fixpoint plus_loop (step : pos -> list pos) (fuel : nat) (p : pos) : list pos :=
  match fuel with
  | 0 => []
  | S fuel' => flat_map (fun q => plus_loop step fuel' q ++ [q]) (step p)
  end.

(** The text consumed between two positions of one scan. *)
Definition consumed (p q : pos) : str :=
  firstn (length (rest p) - length (rest q)) (rest p).

Definition set_cap (n : nat) (p q : pos) : pos :=
  mkPos (prev q) (rest q) ((n, consumed p q) :: caps q).

Fixpoint run (r : regex) (p : pos) : list pos :=
  match r with
  | Eps => [p]
  | Chr c => eat (fun x => bool_decide (x = c)) p
  | Dot => eat (fun x => negb (bool_decide (x = newline))) p
  | Space => eat Py.is_space p
  | OneOf cs => eat (fun x => bool_decide (x ∈ cs)) p
  | Bol => match prev p with None => [p] | Some _ => [] end
  | Eol => match rest p with
           | [] => [p]
           | [c] => if bool_decide (c = newline) then [p] else []
           | _ => []
           end
  | WordB => if xorb (is_word_opt (prev p)) (is_word_opt (head (rest p)))
             then [p] else []
  | Seq r1 r2 => flat_map (run r2) (run r1 p)
  | Alt r1 r2 => run r1 p ++ run r2 p
  | Opt r1 => run r1 p ++ [p]
  | Plus r1 => plus_loop (run r1) (S (length (rest p))) p
  | Group n r1 => map (set_cap n p) (run r1 p)
  end.

(** A match object: only its groups are ever read. *)
Definition match_obj : Type := list (nat * str).

(** [m.group(n)]; the groups read by the source always took part. *)
Definition group (n : nat) (m : match_obj) : str :=
  match find (fun e => Nat.eqb (fst e) n) m with
  | Some e => snd e
  | None => []
  end.

(** Matching at a given position. *)
Definition match_at (r : regex) (before : option ascii) (s : str) : option match_obj :=
  caps <$> head (run r (mkPos before s [])).

(** [re.match(r, s)]: only at the start. *)
Definition re_match (r : regex) (s : str) : option match_obj := match_at r None s.

(** [re.search(r, s)]: the leftmost start that matches. *)
Fixpoint search_from (r : regex) (before : option ascii) (s : str) : option match_obj :=
  match match_at r before s with
  | Some m => Some m
  | None =>
      match s with
      | [] => None
      | c :: s' => search_from r (Some c) s'
      end
  end.

Definition re_search (r : regex) (s : str) : option match_obj := search_from r None s.

End Re.

(** ** Shared data *)

(** A character profile: [name] is always present, the other entries are
    read with [dict.get]. *)
Record character : Type := mkCharacter {
  name : str;
  personality : option str;
  speaking_style : option str;
  powers_abilities : option str
}.

(** The character store: a dict from character id to profile. *)
Abbreviation character_database := (gmap str character).

(** [d.get(key, default)] on an optional entry. *)
Definition get_or {A} (o : option A) (d : A) : A := default d o.

(** ** smart_character_selector.py *)
Module Selector.
Import Py Re.

Definition group_message_indicators : list str :=
  [«"everyone"»; «"all"»; «"guys"»; «"team"»; «"group"»; «"both"»; «"all of you"»;
   «"what do you all"»; «"what does everyone"»; «"tell me about yourselves"»;
   «"introduce yourselves"»; «"how are you all"»; «"what are your thoughts"»].

(** [(?:\s+(?:w1|w2|...))?] *)
Definition opt_group_word (ws : list str) : regex :=
  Opt (Seq (Plus Space) (Alts (map Lit ws))).

(** [[!.]?$] *)
Definition opt_punct_end : regex :=
  Seq (Opt (OneOf [ascii_of_nat 33; ascii_of_nat 46])) Eol.

Definition greeting_patterns : list regex :=
  [ (* ^(hi|hello|hey|greetings?)(?:\s+(?:everyone|all|guys|team))?[!.]?$ *)
    Seqs [Bol;
          Group 1 (Alts [Lit «"hi"»; Lit «"hello"»; Lit «"hey"»;
                         Seq (Lit «"greeting"») (Opt (Lit «"s"»))]);
          opt_group_word [«"everyone"»; «"all"»; «"guys"»; «"team"»];
          opt_punct_end];
    (* ^good\s+(morning|afternoon|evening|day)(?:\s+(?:everyone|all))?[!.]?$ *)
    Seqs [Bol; Lit «"good"»; Plus Space;
          Group 1 (Alts [Lit «"morning"»; Lit «"afternoon"»; Lit «"evening"»; Lit «"day"»]);
          opt_group_word [«"everyone"»; «"all"»];
          opt_punct_end];
    (* ^what'?s\s+up(?:\s+(?:everyone|all|guys))?[!.]?$ *)
    Seqs [Bol; Lit «"what"»; Opt (Lit «"'"»); Lit «"s"»; Plus Space; Lit «"up"»;
          opt_group_word [«"everyone"»; «"all"»; «"guys"»];
          opt_punct_end] ].

Definition is_match (o : option match_obj) : bool :=
  match o with Some _ => true | None => false end.

(** The five mention rules, tried in order for one character name. *)
Definition mention_rules (char_name message_lower : str) : bool :=
  (* direct name mentions *)
  contains message_lower char_name
  (* @mentions *)
  || contains message_lower («"@"» ++ char_name)
  (* \b(hey|hi|hello)\s+NAME\b *)
  || is_match (re_search
       (Seqs [WordB; Group 1 (Alts [Lit «"hey"»; Lit «"hi"»; Lit «"hello"»]);
              Plus Space; Lit char_name; WordB]) message_lower)
  (* \bNAME,?\s+(what|how|why|where|when) *)
  || is_match (re_search
       (Seqs [WordB; Lit char_name; Opt (Lit «","»); Plus Space;
              Group 1 (Alts [Lit «"what"»; Lit «"how"»; Lit «"why"»;
                             Lit «"where"»; Lit «"when"»])]) message_lower)
  (* NAME\s+(what|how|do\s+you|are\s+you|can\s+you) *)
  || is_match (re_search
       (Seqs [Lit char_name; Plus Space;
              Group 1 (Alts [Lit «"what"»; Lit «"how"»;
                             Seqs [Lit «"do"»; Plus Space; Lit «"you"»];
                             Seqs [Lit «"are"»; Plus Space; Lit «"you"»];
                             Seqs [Lit «"can"»; Plus Space; Lit «"you"»]])])
       message_lower).

Fixpoint detect_mentions_loop (message_lower : str) (character_ids : list str)
    (db : character_database) : list str :=
  match character_ids with
  | [] => []
  | char_id :: ids =>
      match db !! char_id with
      | Some ch =>
          if mention_rules (lower (name ch)) message_lower
          then char_id :: detect_mentions_loop message_lower ids db
          else detect_mentions_loop message_lower ids db
      | None => detect_mentions_loop message_lower ids db
      end
  end.

Definition detect_character_mentions (user_message : str) (character_ids : list str)
    (db : character_database) : list str :=
  detect_mentions_loop (lower user_message) character_ids db.

Definition group_question_patterns : list regex :=
  [ Seqs [Lit «"what do you "»; Opt (Group 1 (Lit «"all "»)); Lit «"think"»];
    Seq (Lit «"what are your "») (Group 1 (Alt (Lit «"thoughts"») (Lit «"opinions"»)));
    Seqs [Lit «"how do you "»; Opt (Group 1 (Lit «"all "»)); Lit «"feel"»];
    Lit «"tell me about yourselves"»;
    Lit «"introduce yourselves"»;
    Seqs [Lit «"what can you "»; Opt (Group 1 (Lit «"all "»)); Lit «"do"»] ].

Definition is_group_directed_message (message_lower : str) : bool :=
  if any_in group_message_indicators message_lower then true
  else existsb (fun pattern => is_match (re_search pattern message_lower))
         group_question_patterns.

Definition is_greeting_message (message_lower : str) : bool :=
  existsb (fun pattern => is_match (re_match pattern message_lower)) greeting_patterns.

(** The external opinion, read in the shape the prompt asks for: the names
    it targets and, when present, an integer [response_count].  The code
    does not check that shape; [Dynamic] below takes the answer as any
    JSON value. *)
Record ai_opinion : Type := mkOpinion {
  target_type : str;
  target_characters : list str;
  reasoning : str;
  response_count : option Z
}.

(** [reply] is the parsed answer of the generation service; [None] stands
    for a service error, an answer without choices or one that is not
    JSON, which all lead to the fallback. *)
Definition get_ai_intent_analysis (reply : option ai_opinion) (user_message : str)
    (character_ids : list str) (db : character_database) : ai_opinion :=
  let char_names :=
    flat_map (fun char_id => match db !! char_id with
                             | Some ch => [name ch]
                             | None => []
                             end) character_ids in
  match reply with
  | Some opinion => opinion
  | None =>
      {| target_type := «"general"»;
         target_characters := firstn 2 char_names;
         reasoning := «"Default response selection"»;
         response_count := Some 1%Z |}
  end.

Definition determine_message_type (message_lower : str) : str :=
  if existsb (fun pattern => is_match (re_match pattern message_lower)) greeting_patterns
  then «"greeting"»
  else if any_in [«"?"»; «"what"»; «"how"»; «"why"»; «"where"»; «"when"»; «"who"»] message_lower
  then «"question"»
  else if any_in [«"tell"»; «"explain"»; «"describe"»; «"show"»] message_lower
  then «"request"»
  else if any_in [«"debate"»; «"argue"»; «"discuss"»; «"fight"»] message_lower
  then «"debate_trigger"»
  else «"statement"».

Definition calculate_confidence (mentioned_characters : list str)
    (is_group_message is_greeting : bool) : Q :=
  let confidence := 0.5%Q in
  let confidence := if truthy mentioned_characters then (confidence + 0.4)%Q else confidence in
  let confidence := if is_group_message then (confidence + 0.3)%Q else confidence in
  let confidence := if is_greeting then (confidence + 0.2)%Q else confidence in
  Qmin confidence 1.

Record intent_analysis : Type := mkIntent {
  mentioned_characters : list str;
  is_group_message : bool;
  is_greeting : bool;
  ai_analysis : ai_opinion;
  message_type : str;
  confidence : Q
}.

Definition analyze_message_intent (reply : option ai_opinion) (user_message : str)
    (character_ids : list str) (db : character_database) : intent_analysis :=
  let message_lower := strip (lower user_message) in
  let mentioned_characters := detect_character_mentions user_message character_ids db in
  let is_group_message := is_group_directed_message message_lower in
  let is_greeting := is_greeting_message message_lower in
  let ai_analysis := get_ai_intent_analysis reply user_message character_ids db in
  {| mentioned_characters := mentioned_characters;
     is_group_message := is_group_message;
     is_greeting := is_greeting;
     ai_analysis := ai_analysis;
     message_type := determine_message_type message_lower;
     confidence := calculate_confidence mentioned_characters is_group_message is_greeting |}.

(** The inner loop of priority 4: the first candidate of the store whose
    lower-cased name equals the lower-cased target name. *)
Definition find_target (target_name : str) (character_ids : list str)
    (db : character_database) : option str :=
  find (fun char_id =>
          match db !! char_id with
          | Some ch => bool_decide (lower (name ch) = lower target_name)
          | None => false
          end) character_ids.

Definition ai_targets_of (targets : list str) (character_ids : list str)
    (db : character_database) : list str :=
  flat_map (fun target_name =>
              match find_target target_name character_ids db with
              | Some char_id => [char_id]
              | None => []
              end) targets.

Definition select_responding_characters (ia : intent_analysis)
    (character_ids : list str) (db : character_database) : list str :=
  let mentioned := mentioned_characters ia in
  let ai := ai_analysis ia in
  (* Priority 1: direct mentions *)
  if truthy mentioned then mentioned
  (* Priority 2: greetings *)
  else if is_greeting ia then character_ids
  (* Priority 3: group messages *)
  else if is_group_message ia then character_ids
  else
    (* Priority 4: the external opinion *)
    let ai_targets :=
      if truthy (target_characters ai)
      then ai_targets_of (target_characters ai) character_ids db
      else [] in
    if truthy ai_targets
    then slice_to ai_targets (get_or (response_count ai) 2%Z)
    (* Priority 5: by message type *)
    else if bool_decide (message_type ia = «"debate_trigger"») then firstn 2 character_ids
    else if bool_decide (message_type ia = «"question"») then firstn 2 character_ids
    else if bool_decide (message_type ia = «"request"») then firstn 1 character_ids
    (* Default: the first character *)
    else if truthy character_ids then firstn 1 character_ids else [].

(** The responder selection on a message: intent analysis, then the
    priority rules ([reply] is the external service's parsed answer). *)
Definition select_responders (reply : option ai_opinion) (user_message : str)
    (character_ids : list str) (db : character_database) : list str :=
  select_responding_characters
    (analyze_message_intent reply user_message character_ids db) character_ids db.

End Selector.

(** ** smart_character_selector.py: the external opinion as it arrives

    [get_ai_intent_analysis] hands on whatever [json.loads] returns and
    [select_responding_characters] uses it unchecked.  Here the opinion
    is any JSON value, and an operation the value does not support raises
    as it does in Python. *)
Module Dynamic.
Import Py Re.

(** A float as [json.loads] can return it. *)
Inductive pyfloat : Type :=
| Finite (x : Q)
| Infinite (negative : bool)
| NaN.

(** The value [json.loads] returns.  [JDict] lists the members of the
    object in the order of the text. *)
#[warnings="-register-all"]
Inductive json : Type :=
| JNone
| JBool (b : bool)
| JInt (n : Z)
| JFloat (x : pyfloat)
| JStr (s : str)
| JList (items : list json)
| JDict (members : list (str * json)).

(** The exceptions the selection can raise on an opinion. *)
Inductive error : Type :=
| TypeError
| AttributeError.

Inductive result (A : Type) : Type :=
| Ok (a : A)
| Raise (e : error).
Arguments Ok {A} a.
Arguments Raise {A} e.

#[global] Instance result_ret : MRet result := fun A a => Ok a.

#[global] Instance result_bind : MBind result :=
  fun A B f m => match m with Ok a => f a | Raise e => Raise e end.

(** [bool(v)] *)
Definition truthy_json (v : json) : bool :=
  match v with
  | JNone => false
  | JBool b => b
  | JInt n => negb (n =? 0)%Z
  | JFloat (Finite x) => negb (Qeq_bool x 0)
  | JFloat _ => true
  | JStr s => truthy s
  | JList items => truthy items
  | JDict members => truthy members
  end.

(** [d.get(key)]: of two members with the same name the later one counts. *)
Definition dict_get (members : list (str * json)) (key : str) : option json :=
  snd <$> find (fun member => bool_decide (fst member = key)) (rev members).

(** The keys of a dict, each at its first position. *)
Definition dict_keys (members : list (str * json)) : list str :=
  rev (remove_dups (rev (map fst members))).

(** What [for target_name in v] walks through: the items of a list, the
    characters of a string, the keys of a dict; nothing else is iterable. *)
Definition iterate (v : json) : result (list json) :=
  match v with
  | JList items => Ok items
  | JStr s => Ok (map (fun c => JStr [c]) s)
  | JDict members => Ok (map JStr (dict_keys members))
  | _ => Raise TypeError
  end.

(** The fallback analysis. *)
Definition fallback_analysis (char_names : list str) : json :=
  JDict [ («"target_type"», JStr «"general"»);
          («"target_characters"», JList (map JStr (firstn 2 char_names)));
          («"reasoning"», JStr «"Default response selection"»);
          («"response_count"», JInt 1) ].

(** [reply] is what [json.loads] made of the service's answer; [None]
    stands for a service error, an answer without choices or one that is
    not JSON, which all lead to the fallback. *)
Definition get_ai_intent_analysis (reply : option json) (user_message : str)
    (character_ids : list str) (db : character_database) : json :=
  let char_names :=
    flat_map (fun char_id => match db !! char_id with
                             | Some ch => [name ch]
                             | None => []
                             end) character_ids in
  match reply with
  | Some answer => answer
  | None => fallback_analysis char_names
  end.

Record intent_analysis : Type := mkIntent {
  mentioned_characters : list str;
  is_group_message : bool;
  is_greeting : bool;
  ai_analysis : json;
  message_type : str;
  confidence : Q
}.

Definition analyze_message_intent (reply : option json) (user_message : str)
    (character_ids : list str) (db : character_database) : intent_analysis :=
  let message_lower := strip (lower user_message) in
  let mentioned_characters :=
    Selector.detect_character_mentions user_message character_ids db in
  let is_group_message := Selector.is_group_directed_message message_lower in
  let is_greeting := Selector.is_greeting_message message_lower in
  let ai_analysis := get_ai_intent_analysis reply user_message character_ids db in
  {| mentioned_characters := mentioned_characters;
     is_group_message := is_group_message;
     is_greeting := is_greeting;
     ai_analysis := ai_analysis;
     message_type := Selector.determine_message_type message_lower;
     confidence :=
       Selector.calculate_confidence mentioned_characters is_group_message is_greeting |}.

(** The inner loop of priority 4 for one target: the candidates of the
    store are compared in order, and each comparison calls [lower] on the
    target, which only a string has. *)
Fixpoint find_target (target_name : json) (character_ids : list str)
    (db : character_database) : result (option str) :=
  match character_ids with
  | [] => Ok None
  | char_id :: ids =>
      match db !! char_id with
      | Some ch =>
          match target_name with
          | JStr s =>
              if bool_decide (lower (name ch) = lower s) then Ok (Some char_id)
              else find_target target_name ids db
          | _ => Raise AttributeError
          end
      | None => find_target target_name ids db
      end
  end.

Fixpoint ai_targets_of (targets : list json) (character_ids : list str)
    (db : character_database) : result (list str) :=
  match targets with
  | [] => Ok []
  | target_name :: targets' =>
      found ← find_target target_name character_ids db;
      ai_targets ← ai_targets_of targets' character_ids db;
      Ok (match found with
          | Some char_id => char_id :: ai_targets
          | None => ai_targets
          end)
  end.

(** [ai_targets[:ai_analysis.get('response_count', 2)]]: a slice bound is
    an integer, a bool or [None]. *)
Definition truncate (ai_targets : list str) (response_count : option json)
    : result (list str) :=
  match response_count with
  | None => Ok (slice_to ai_targets 2)
  | Some JNone => Ok ai_targets
  | Some (JInt n) => Ok (slice_to ai_targets n)
  | Some (JBool b) => Ok (slice_to ai_targets (if b then 1 else 0)%Z)
  | Some _ => Raise TypeError
  end.

(** Priority 4: the list to return, if the opinion gives one. *)
Definition by_opinion (ai : json) (character_ids : list str) (db : character_database)
    : result (option (list str)) :=
  if truthy_json ai then
    match ai with
    | JDict members =>
        match dict_get members «"target_characters"» with
        | Some targets =>
            if truthy_json targets then
              names ← iterate targets;
              ai_targets ← ai_targets_of names character_ids db;
              if truthy ai_targets then
                chosen ← truncate ai_targets (dict_get members «"response_count"»);
                Ok (Some chosen)
              else Ok None
            else Ok None
        | None => Ok None
        end
    | _ => Raise AttributeError
    end
  else Ok None.

Definition select_responding_characters (ia : intent_analysis)
    (character_ids : list str) (db : character_database) : result (list str) :=
  let mentioned := mentioned_characters ia in
  (* Priority 1: direct mentions *)
  if truthy mentioned then Ok mentioned
  (* Priority 2: greetings *)
  else if is_greeting ia then Ok character_ids
  (* Priority 3: group messages *)
  else if is_group_message ia then Ok character_ids
  else
    (* Priority 4: the external opinion *)
    chosen ← by_opinion (ai_analysis ia) character_ids db;
    match chosen with
    | Some ai_targets => Ok ai_targets
    | None =>
        (* Priority 5: by message type *)
        if bool_decide (message_type ia = «"debate_trigger"») then Ok (firstn 2 character_ids)
        else if bool_decide (message_type ia = «"question"») then Ok (firstn 2 character_ids)
        else if bool_decide (message_type ia = «"request"») then Ok (firstn 1 character_ids)
        (* Default: the first character *)
        else if truthy character_ids then Ok (firstn 1 character_ids) else Ok []
    end.

(** The responder selection on a message: intent analysis, then the
    priority rules. *)
Definition select_responders (reply : option json) (user_message : str)
    (character_ids : list str) (db : character_database) : result (list str) :=
  select_responding_characters
    (analyze_message_intent reply user_message character_ids db) character_ids db.

(** An opinion of the shape [Selector] reads, as the JSON value it is. *)
Definition of_opinion (o : Selector.ai_opinion) : json :=
  JDict ([ («"target_type"», JStr (Selector.target_type o));
           («"target_characters"», JList (map JStr (Selector.target_characters o)));
           («"reasoning"», JStr (Selector.reasoning o)) ] ++
         match Selector.response_count o with
         | Some n => [(«"response_count"», JInt n)]
         | None => []
         end).

Definition of_analysis (ia : Selector.intent_analysis) : intent_analysis :=
  {| mentioned_characters := Selector.mentioned_characters ia;
     is_group_message := Selector.is_group_message ia;
     is_greeting := Selector.is_greeting ia;
     ai_analysis := of_opinion (Selector.ai_analysis ia);
     message_type := Selector.message_type ia;
     confidence := Selector.confidence ia |}.

End Dynamic.

(** ** conversation_orchestrator.py *)
Module Orchestrator.
Import Py Re.

(** One entry of [conversation_history]. *)
Record entry : Type := mkEntry {
  speaker : str;
  response : str;
  timestamp : str
}.

(** A conversation config.  [max_rounds] is read with [get(..., 6)];
    [last_speaker] and [conversation_history] are absent ([None], empty)
    until [start_autonomous_conversation] sets them. *)
Record config : Type := mkConfig {
  type : str;
  topic : str;
  participants : list str;
  duration : str;
  max_rounds : option Z;
  current_round : Q;
  started_at : option str;
  last_speaker : option str;
  conversation_history : list entry
}.

(** [self.active_autonomous_chats], read as what a lookup shows: the
    content of the dict each group holds.  The dicts themselves are
    objects, stored and updated in place; [Shared] below keeps them as
    such. *)
Abbreviation registry := (gmap str config).

(** What a call can do besides returning: [participants[0]] on an empty
    list raises. *)
Inductive outcome (A : Type) : Type :=
| Return (a : A)
| IndexError.
Arguments Return {A} a.
Arguments IndexError {A}.

(** The text of a returned message: a character's words, or the system's
    notice [f"... {type.title()} concluded after {current_round} rounds!"],
    kept as the two values it interpolates. *)
Inductive message_text : Type :=
| Text (s : str)
| Concluded (conversation_type : str) (rounds : Q).

Record message : Type := mkMessage {
  character_id : str;
  character_name : str;
  msg_response : message_text;
  autonomous : bool
}.

(** The request sent to the generation service, kept as the values the
    prompt template interpolates. *)
Record prompt : Type := mkPrompt {
  prompt_type : str;
  prompt_name : str;
  prompt_topic : str;
  prompt_others : list str;
  prompt_personality : str;
  prompt_style : str;
  prompt_history : str;
  prompt_round : option Z
}.

(** The answer of the generation service: an exception, an answer without
    choices, or the content of the first choice. *)
Inductive completion : Type :=
| Raises
| NoChoices
| Choice (content : str).

Definition debate_triggers : list regex :=
  [ Seq (Lit «"debate about "») (Group 1 (Plus Dot));
    Seq (Lit «"argue about "») (Group 1 (Plus Dot));
    Seq (Lit «"discuss "») (Group 1 (Plus Dot));
    Seq (Lit «"what do you think about "») (Group 1 (Plus Dot));
    Seqs [Group 1 (Plus Dot); Lit «" vs "»; Group 2 (Plus Dot)];
    Seq (Lit «"fight about "») (Group 1 (Plus Dot));
    Seq (Lit «"talk about "») (Group 1 (Plus Dot)) ].

Definition autonomous_patterns : list regex :=
  [ Seq (Lit «"let them "») (Group 1 (Plus Dot));
    Seq (Lit «"start "») (Group 1 (Plus Dot));
    Seq (Lit «"begin "») (Group 1 (Plus Dot));
    Seq (Lit «"continue "») (Group 1 (Plus Dot));
    Seq (Lit «"keep "») (Group 1 (Plus Dot)) ].

(** The [for pattern in ...] loop that returns at the first match. *)
Fixpoint first_match (patterns : list regex) (s : str) : option match_obj :=
  match patterns with
  | [] => None
  | pattern :: patterns' =>
      match re_search pattern s with
      | Some m => Some m
      | None => first_match patterns' s
      end
  end.

Definition discussion_keywords : list str :=
  [«"discuss"»; «"talk"»; «"chat"»; «"conversation"»].

Definition detect_autonomous_trigger (user_message : str) (character_ids : list str)
    : option config :=
  let message_lower := strip (lower user_message) in
  match first_match debate_triggers message_lower with
  | Some m =>
      let topic := strip (group 1 m) in
      Some {| type := «"debate"»;
              topic := topic;
              participants := if 2 <=? length character_ids
                              then firstn 2 character_ids else character_ids;
              duration := «"until_stop"»;
              max_rounds := Some 8%Z;
              current_round := 0;
              started_at := None;
              last_speaker := None;
              conversation_history := [] |}
  | None =>
      if any_in discussion_keywords message_lower
      then Some {| type := «"discussion"»;
                   topic := user_message;
                   participants := character_ids;
                   duration := «"until_stop"»;
                   max_rounds := Some 6%Z;
                   current_round := 0;
                   started_at := None;
                   last_speaker := None;
                   conversation_history := [] |}
      else None
  end.

(** The three assignments of [start_autonomous_conversation] to the
    caller's dict. *)
Definition set_started (c : config) (now : str) : config :=
  {| type := type c; topic := topic c; participants := participants c;
     duration := duration c; max_rounds := max_rounds c;
     current_round := current_round c;
     started_at := Some now; last_speaker := None; conversation_history := [] |}.

(** [len(set(texts))] *)
Definition distinct_count (texts : list str) : nat :=
  size (list_to_set texts : gset str).

Definition should_end_conversation (c : config) : bool :=
  if Qle_bool (inject_Z (get_or (max_rounds c) 6%Z)) (current_round c) then true
  else
    let recent_responses := last_n 4 (conversation_history c) in
    if 4 <=? length recent_responses then
      let response_texts := map (fun r => lower (response r)) recent_responses in
      (* len(unique_responses) < len(response_texts) * 0.7 *)
      negb (Qle_bool (inject_Z (Z.of_nat (length response_texts)) * 0.7)
                     (inject_Z (Z.of_nat (distinct_count response_texts))))
    else false.

Definition end_autonomous_conversation (group_id : str) (chats : registry) : registry :=
  match chats !! group_id with
  | Some _ => delete group_id chats
  | None => chats
  end.

Definition is_autonomous_active (group_id : str) (chats : registry) : bool :=
  bool_decide (is_Some (chats !! group_id)).

Definition get_autonomous_status (group_id : str) (chats : registry) : option config :=
  chats !! group_id.

Definition interruption_keywords : list str :=
  [«"stop"»; «"enough"»; «"pause"»; «"end"»; «"quit"»; «"finish"»].

Definition handle_user_interruption (user_message : str) (group_id : str)
    (chats : registry) : bool * registry :=
  if any_in interruption_keywords (lower user_message)
  then (true, end_autonomous_conversation group_id chats)
  else (false, chats).

(** [l.index(x)]: the first position of [x], if any. *)
Fixpoint index_of (x : str) (l : list str) : option nat :=
  match l with
  | [] => None
  | y :: l' => if bool_decide (y = x) then Some 0 else S <$> index_of x l'
  end.

(** [participants[0]] *)
Definition first_participant (ps : list str) : outcome (option str) :=
  match ps with
  | p :: _ => Return (Some p)
  | [] => IndexError
  end.

(** [random.choice(l)] on a non-empty list, [draw] being the random
    source's draw. *)
Definition random_choice (draw : nat) (l : list str) : option str :=
  l !! (draw mod length l).

(** A [str] or [None] is falsy when it is [None] or empty. *)
Definition truthy_opt (o : option str) : bool :=
  match o with Some s => truthy s | None => false end.

Definition select_next_speaker (draw : nat) (c : config) : outcome (option str) :=
  let participants := participants c in
  match last_speaker c with
  | Some last =>
      if negb (truthy last) then Return (head participants)
      else if bool_decide (type c = «"debate"») then
        match index_of last participants with
        | Some current_index =>
            let next_index := (current_index + 1) mod length participants in
            Return (participants !! next_index)
        | None => first_participant participants
        end
      else if bool_decide (type c = «"discussion"») then
        let available_speakers :=
          filter (fun p => p ≠ last) participants in
        if truthy available_speakers
        then Return (random_choice draw available_speakers)
        else first_participant participants
      else first_participant participants
  | None => Return (head participants)
  end.

(** [character.get('name', '').lower().replace(' ', '_')] *)
Definition own_id (ch : character) : str :=
  map (fun c => if bool_decide (c = " "%char) then "_"%char else c) (lower (name ch)).

(** [int(x)] on a float: truncation towards zero. *)
Definition py_int (x : Q) : Z := Z.quot (Qnum x) (Zpos (Qden x)).

Definition double_quote : ascii := ascii_of_nat 34.

(** [s[1:-1]] *)
Definition drop_ends (s : str) : str := removelast (tail s).

Definition history_text_of (ch : character) (recent_history : list entry) : str :=
  if truthy recent_history
  then fold_left
         (fun text e =>
            let speaker_name :=
              if bool_decide (speaker e = own_id ch) then «"You"» else speaker e in
            text ++ speaker_name ++ «": "» ++ response e ++ [newline])
         recent_history
         ([newline] ++ «"Recent conversation:"» ++ [newline])
  else [].

(** The prompt built for [ch] before the generation call. *)
Definition autonomous_prompt (ch : character) (c : config) (db : character_database)
    : prompt :=
  let other_participants :=
    flat_map (fun char_id =>
                if bool_decide (char_id ≠ own_id ch)
                then match db !! char_id with
                     | Some other => [name other]
                     | None => []
                     end
                else []) (participants c) in
  let recent_history := last_n 4 (conversation_history c) in
  let history_text := history_text_of ch recent_history in
  if bool_decide (type c = «"debate"») then
    {| prompt_type := «"debate"»;
       prompt_name := name ch;
       prompt_topic := topic c;
       prompt_others := other_participants;
       prompt_personality := get_or (personality ch) «"Engaging debater"»;
       prompt_style := get_or (speaking_style ch) «"Confident and clear"»;
       prompt_history := history_text;
       prompt_round := Some (py_int (current_round c + 1)) |}
  else
    {| prompt_type := «"discussion"»;
       prompt_name := name ch;
       prompt_topic := topic c;
       prompt_others := other_participants;
       prompt_personality := get_or (personality ch) «"Thoughtful conversationalist"»;
       prompt_style := get_or (speaking_style ch) «"Natural and engaging"»;
       prompt_history := history_text;
       prompt_round := None |}.

(** The fallback response. *)
Definition thinking_placeholder (ch : character) (c : config) : str :=
  «"*"» ++ name ch ++ «" is thinking about "» ++ topic c ++ «"...*"».

Definition generate_character_autonomous_response (groq : prompt -> completion)
    (ch : character) (c : config) (db : character_database) : str :=
  match groq (autonomous_prompt ch c db) with
  | Choice content =>
      let response_text := strip content in
      if startswith response_text [double_quote] && endswith response_text [double_quote]
      then drop_ends response_text
      else response_text
  | NoChoices | Raises => thinking_placeholder ch c
  end.

(** The in-place update of the config after a response. *)
Definition record_turn (c : config) (next_speaker_id response_text now : str) : config :=
  {| type := type c; topic := topic c; participants := participants c;
     duration := duration c; max_rounds := max_rounds c;
     current_round := current_round c + 0.5;
     started_at := started_at c;
     last_speaker := Some next_speaker_id;
     conversation_history :=
       conversation_history c ++
       [{| speaker := next_speaker_id; response := response_text; timestamp := now |}] |}.

(** One tick.  [groq] is the generation service, [now] the clock's reading
    and [draw] the random source's draw; the registry is returned as the
    call leaves it.  The entry of [group_id] is the content of the dict
    the group holds after the update in place; what other groups show
    when they hold the same dict is the matter of [Shared]. *)
Definition generate_autonomous_response (groq : prompt -> completion) (now : str)
    (draw : nat) (group_id : str) (db : character_database) (chats : registry)
    : outcome (list message) * registry :=
  match chats !! group_id with
  | None => (Return [], chats)
  | Some c =>
      if should_end_conversation c then
        (Return [{| character_id := «"system"»;
                    character_name := «"System"»;
                    msg_response := Concluded (type c) (current_round c);
                    autonomous := false |}],
         end_autonomous_conversation group_id chats)
      else
        match select_next_speaker draw c with
        | IndexError => (IndexError, chats)
        | Return None => (Return [], chats)
        | Return (Some next_speaker_id) =>
            if negb (truthy next_speaker_id) then (Return [], chats)
            else
              match db !! next_speaker_id with
              | None => (Return [], chats)
              | Some ch =>
                  let response_text :=
                    generate_character_autonomous_response groq ch c db in
                  if truthy response_text then
                    (Return [{| character_id := next_speaker_id;
                                character_name := name ch;
                                msg_response := Text response_text;
                                autonomous := true |}],
                     <[group_id := record_turn c next_speaker_id response_text now]> chats)
                  else (Return [], chats)
              end
        end
  end.

End Orchestrator.

(** ** conversation_orchestrator.py: the dicts as shared objects

    [start_autonomous_conversation] assigns to the caller's dict and
    stores that very dict, and a tick updates the stored dict in place.
    A group is therefore bound to a reference, and groups bound to the
    same reference see each other's updates.  The dicts are the only
    objects whose sharing shows in the methods: starting gives the dict a
    history list of its own, and no method changes a participants list. *)
Module Shared.
Import Py Orchestrator.

(** A reference to a dict. *)
Definition ref : Type := nat.

(** [active_autonomous_chats] binds groups to dicts; [dicts] gives the
    content of every dict, registered or not. *)
Record store : Type := mkStore {
  active_autonomous_chats : gmap str ref;
  dicts : ref → config
}.

Definition start_autonomous_conversation (now : str) (conversation_config : ref)
    (group_id : str) (s : store) : store :=
  {| active_autonomous_chats :=
       <[group_id := conversation_config]> (active_autonomous_chats s);
     dicts :=
       <[conversation_config := set_started (dicts s conversation_config) now]> (dicts s) |}.

Definition end_autonomous_conversation (group_id : str) (s : store) : store :=
  match active_autonomous_chats s !! group_id with
  | Some _ => {| active_autonomous_chats := delete group_id (active_autonomous_chats s);
                 dicts := dicts s |}
  | None => s
  end.

Definition is_autonomous_active (group_id : str) (s : store) : bool :=
  bool_decide (is_Some (active_autonomous_chats s !! group_id)).

(** The dict itself is returned. *)
Definition get_autonomous_status (group_id : str) (s : store) : option ref :=
  active_autonomous_chats s !! group_id.

Definition handle_user_interruption (user_message : str) (group_id : str)
    (s : store) : bool * store :=
  if any_in interruption_keywords (lower user_message)
  then (true, end_autonomous_conversation group_id s)
  else (false, s).

Definition generate_autonomous_response (groq : prompt -> completion) (now : str)
    (draw : nat) (group_id : str) (db : character_database) (s : store)
    : outcome (list message) * store :=
  match active_autonomous_chats s !! group_id with
  | None => (Return [], s)
  | Some config_ref =>
      let c := dicts s config_ref in
      if should_end_conversation c then
        (Return [{| character_id := «"system"»;
                    character_name := «"System"»;
                    msg_response := Concluded (type c) (current_round c);
                    autonomous := false |}],
         end_autonomous_conversation group_id s)
      else
        match select_next_speaker draw c with
        | IndexError => (IndexError, s)
        | Return None => (Return [], s)
        | Return (Some next_speaker_id) =>
            if negb (truthy next_speaker_id) then (Return [], s)
            else
              match db !! next_speaker_id with
              | None => (Return [], s)
              | Some ch =>
                  let response_text :=
                    generate_character_autonomous_response groq ch c db in
                  if truthy response_text then
                    (Return [{| character_id := next_speaker_id;
                                character_name := name ch;
                                msg_response := Text response_text;
                                autonomous := true |}],
                     {| active_autonomous_chats := active_autonomous_chats s;
                        dicts :=
                          <[config_ref := record_turn c next_speaker_id response_text now]>
                            (dicts s) |})
                  else (Return [], s)
              end
        end
  end.

End Shared.

(** ** maincode.py: relevance scoring *)
Module App.
Import Py.

(** An entry of the group chat's message list, read with [msg.get]. *)
Record chat_message : Type := mkChatMessage {
  role : option str;
  msg_character_name : option str;
  content : str
}.

(** The [for msg in last_few] loop with its [break]. *)
Fixpoint recent_bonus_loop (last_few : list chat_message) (ch : character)
    (base_score : Q) : Q :=
  match last_few with
  | [] => base_score
  | msg :: msgs =>
      if bool_decide (role msg = Some «"character"») &&
         bool_decide (msg_character_name msg = Some (name ch))
      then (base_score + 0.2)%Q
      else recent_bonus_loop msgs ch base_score
  end.

(** The [for keyword in char_keywords] loop. *)
Fixpoint keyword_loop (char_keywords : list str) (message_lower : str)
    (keyword_matches : Z) : Z :=
  match char_keywords with
  | [] => keyword_matches
  | keyword :: keywords =>
      if (3 <? length keyword) && contains message_lower keyword
      then keyword_loop keywords message_lower (keyword_matches + 1)%Z
      else keyword_loop keywords message_lower keyword_matches
  end.

(** [char_keywords.extend(text.lower().split()[:5])] under [if text:]. *)
Definition keywords_from (field : option str) : list str :=
  match field with
  | Some text => if truthy text then firstn 5 (split (lower text)) else []
  | None => []
  end.

Definition calculate_enhanced_relevance (user_message : str) (ch : character)
    (recent_messages : list chat_message) : Q :=
  let base_score := 0.6%Q in
  let char_name_lower := lower (name ch) in
  let base_score :=
    if contains (lower user_message) char_name_lower then (base_score + 0.4)%Q
    else base_score in
  let base_score :=
    if truthy recent_messages
    then recent_bonus_loop (last_n 3 recent_messages) ch base_score
    else base_score in
  let char_keywords := keywords_from (powers_abilities ch) ++ keywords_from (personality ch) in
  let keyword_matches := keyword_loop char_keywords (lower user_message) 0 in
  let base_score := (base_score + Qmin (inject_Z keyword_matches * 0.1) 0.3)%Q in
  Qmin base_score 1.

End App.

(** ** Further Python primitives *)
Module PyMore.
Import Py.

(** [s.lstrip(chars)], [s.strip(chars)] *)
Fixpoint lstrip_chars (chars : list ascii) (s : str) : str :=
  match s with
  | c :: s' => if bool_decide (c ∈ chars) then lstrip_chars chars s' else s
  | [] => []
  end.

Definition strip_chars (chars : list ascii) (s : str) : str :=
  rev (lstrip_chars chars (rev (lstrip_chars chars s))).

(** [s.lower().replace(' ', '_')]: how ids are derived from names. *)
Definition normalize_id (s : str) : str :=
  map (fun c => if bool_decide (c = " "%char) then "_"%char else c) (lower s).

(** [l[-1]] on a list known to be non-empty, as an option. *)
Definition last_item {A} (l : list A) : option A := last l.

End PyMore.

(** ** smart_character_selector.py: context-based responding *)
Module SelectorContext.
Import Py PyMore.

Definition extract_character_keywords (ch : character) : list str :=
  let keywords :=
    (match powers_abilities ch with
     | Some text => if truthy text then firstn 5 (split (lower text)) else []
     | None => []
     end) ++
    (match personality ch with
     | Some text => if truthy text then firstn 3 (split (lower text)) else []
     | None => []
     end) in
  (* [k.strip('.,!?') for k in keywords if len(k) > 3] *)
  map (strip_chars (s2l ".,!?")) (List.filter (fun k => 3 <? length k) keywords).

(** [message_context]: both entries are read with [get] and a default. *)
Record message_context : Type := mkContext {
  ctx_mentioned_characters : option (list str);
  ctx_original_message : option str
}.

(** The [for keyword in char_keywords] loop. *)
Fixpoint relevance_loop (char_keywords : list str) (message : str)
    (relevance_score : nat) : nat :=
  match char_keywords with
  | [] => relevance_score
  | keyword :: keywords =>
      if contains message keyword
      then relevance_loop keywords message (relevance_score + 1)
      else relevance_loop keywords message relevance_score
  end.

Definition should_respond_based_on_context (char_id : str) (ctx : message_context)
    (db : character_database) : bool :=
  match db !! char_id with
  | None => false
  | Some ch =>
      if bool_decide (char_id ∈ get_or (ctx_mentioned_characters ctx) [])
      then true
      else
        let message := lower (get_or (ctx_original_message ctx) []) in
        let char_keywords := extract_character_keywords ch in
        let relevance_score := relevance_loop char_keywords message 0 in
        0 <? relevance_score
  end.

End SelectorContext.

(** ** maincode.py: the group chat manager *)
Module GroupChat.
Import Py PyMore.

(** A message of [st.session_state.messages]; every entry but the content
    is read with [get]. *)
Record group_message : Type := mkGroupMessage {
  gm_role : option str;
  gm_character_id : option str;
  gm_character_name : option str;
  gm_content : str
}.

(** The entries of a message that the relevance score reads. *)
Definition as_chat_message (m : group_message) : App.chat_message :=
  {| App.role := gm_role m;
     App.msg_character_name := gm_character_name m;
     App.content := gm_content m |}.

(** An entry of [st.session_state.group_chats]. *)
Record group_chat : Type := mkGroupChat {
  gc_name : str;
  gc_characters : list str;
  gc_messages : list group_message;
  gc_conversation_history : list group_message;
  gc_created_at : str;
  gc_last_speakers : list str
}.

Abbreviation group_chats := (gmap str group_chat).

Definition create_group_chat (now : str) (group_name : str) (character_ids : list str)
    (chats : group_chats) : bool * group_chats :=
  if (length character_ids <? 2) || (4 <? length character_ids) then (false, chats)
  else
    let group_id := normalize_id group_name in
    (true,
     <[group_id := {| gc_name := group_name;
                      gc_characters := character_ids;
                      gc_messages := [];
                      gc_conversation_history := [];
                      gc_created_at := now;
                      gc_last_speakers := [] |}]> chats).

Definition delete_group_chat (group_id : str) (chats : group_chats)
    : bool * group_chats :=
  match chats !! group_id with
  | Some _ => (true, delete group_id chats)
  | None => (false, chats)
  end.

Record group_stats : Type := mkStats {
  total_messages : nat;
  character_message_counts : gmap str nat;
  group_size : nat;
  stats_created_at : str
}.

(** [for char_id in characters: counts[char_id] = 0] *)
Definition zero_counts (characters : list str) : gmap str nat :=
  fold_left (fun counts char_id => <[char_id := 0]> counts) characters ∅.

(** [for msg in messages: ... counts[char_id] += 1] *)
Definition count_messages (messages : list group_message) (counts : gmap str nat)
    : gmap str nat :=
  fold_left
    (fun counts msg =>
       if bool_decide (gm_role msg = Some (s2l "character")) then
         let char_id := get_or (gm_character_id msg) [] in
         match counts !! char_id with
         | Some n => <[char_id := n + 1]> counts
         | None => counts
         end
       else counts)
    messages counts.

(** [None] stands for the empty dict returned for an unknown group. *)
Definition get_group_stats (group_id : str) (chats : group_chats) : option group_stats :=
  match chats !! group_id with
  | None => None
  | Some gc =>
      Some {| total_messages := length (gc_messages gc);
              character_message_counts :=
                count_messages (gc_messages gc) (zero_counts (gc_characters gc));
              group_size := length (gc_characters gc);
              stats_created_at := gc_created_at gc |}
  end.

Definition response_triggers : list str :=
  [s2l "why"; s2l "what"; s2l "how"; s2l "really"; s2l "disagree"; s2l "agree";
   s2l "think"; s2l "?"].

Definition group_keywords : list str :=
  [s2l "all"; s2l "everyone"; s2l "introduce"; s2l "tell me about";
   s2l "what do you all"; s2l "how are you"; s2l "who are you";
   s2l "your thoughts"; s2l "opinions"; s2l "discuss"].

(** The candidates of the store whose lower-cased name occurs in the
    lower-cased message. *)
Fixpoint mentioned_chars_loop (user_message_lower : str) (character_ids : list str)
    (db : character_database) : list str :=
  match character_ids with
  | [] => []
  | char_id :: ids =>
      match db !! char_id with
      | Some ch =>
          if contains user_message_lower (lower (name ch))
          then char_id :: mentioned_chars_loop user_message_lower ids db
          else mentioned_chars_loop user_message_lower ids db
      | None => mentioned_chars_loop user_message_lower ids db
      end
  end.

(** The selection of the live group chat.  An element of the result is an
    id, or [None] when the last message carries no [character_id]. *)
Definition select_responding_characters_enhanced (db : character_database)
    (user_message : str) (character_ids : list str)
    (recent_messages : list group_message) : list (option str) :=
  let user_message_lower := lower user_message in
  let mentioned_chars := mentioned_chars_loop user_message_lower character_ids db in
  if truthy mentioned_chars then Some <$> mentioned_chars
  else
    let reply :=
      match last_item recent_messages with
      | Some last_message =>
          if bool_decide (gm_role last_message = Some (s2l "character")) then
            let last_char_id := gm_character_id last_message in
            if any_in response_triggers user_message_lower then
              let other_chars :=
                List.filter (fun c => negb (bool_decide (Some c = last_char_id)))
                            character_ids in
              Some (if 2 <=? length other_chars
                    then Some <$> firstn 2 other_chars
                    else (Some <$> other_chars) ++ [last_char_id])
            else None
          else None
      | None => None
      end in
    match reply with
    | Some responders => responders
    | None =>
        let is_group_message := any_in group_keywords user_message_lower in
        if is_group_message then Some <$> character_ids
        else if length (split user_message) <=? 3 then Some <$> firstn 2 character_ids
        else if contains user_message (s2l "?")
        then Some <$> firstn (Nat.min 3 (length character_ids)) character_ids
        else Some <$> firstn (Nat.min 2 (length character_ids)) character_ids
    end.

(** The instruction line of the prompt. *)
Inductive response_instruction : Type :=
| YouWereMentioned
| RespondTo (last_speaker : str)
| RespondNaturally.

(** The request sent for one character, kept as the values the prompt
    template interpolates. *)
Record enhanced_prompt : Type := mkEnhancedPrompt {
  ep_name : str;
  ep_other_members : list str;
  ep_personality : str;
  ep_speaking_style : str;
  ep_context : str;
  ep_user_message : str;
  ep_instruction : response_instruction
}.

Definition context_of (recent_messages : list group_message) : str :=
  if truthy recent_messages
  then fold_left
         (fun context msg =>
            if bool_decide (gm_role msg = Some (s2l "user"))
            then context ++ s2l "User: " ++ gm_content msg ++ [Re.newline]
            else if bool_decide (gm_role msg = Some (s2l "character"))
            then context ++ get_or (gm_character_name msg) (s2l "Character")
                         ++ s2l ": " ++ gm_content msg ++ [Re.newline]
            else context)
         (last_n 6 recent_messages)
         (s2l "Recent conversation:" ++ [Re.newline])
       ++ [Re.newline]
  else [].

Definition create_enhanced_character_prompt (db : character_database)
    (ch : character) (user_message : str) (gc : group_chat)
    (recent_messages : list group_message) : enhanced_prompt :=
  let context := context_of recent_messages in
  let other_members :=
    flat_map (fun char_id =>
                if bool_decide (char_id ≠ normalize_id (name ch))
                then match db !! char_id with
                     | Some other => [name other]
                     | None => []
                     end
                else []) (gc_characters gc) in
  let char_mentioned := contains (lower user_message) (lower (name ch)) in
  let responding_to_character :=
    match last_item recent_messages with
    | Some last_message =>
        bool_decide (gm_role last_message = Some (s2l "character")) &&
        negb (bool_decide (get_or (gm_character_name last_message) [] = name ch))
    | None => false
    end in
  let instruction :=
    if char_mentioned then YouWereMentioned
    else if responding_to_character then
      RespondTo (get_or (last_item recent_messages ≫= gm_character_name) (s2l "someone"))
    else RespondNaturally in
  {| ep_name := name ch;
     ep_other_members := other_members;
     ep_personality := get_or (personality ch) (s2l "Friendly and engaging");
     ep_speaking_style := get_or (speaking_style ch) (s2l "Natural conversation");
     ep_context := context;
     ep_user_message := user_message;
     ep_instruction := instruction |}.

Record group_response : Type := mkGroupResponse {
  gr_character_id : option str;
  gr_character_name : str;
  gr_response : str;
  gr_relevance_score : Q
}.

(** The fallback of the [except] branch. *)
Definition thinking_response (char_id : option str) (char_name : str) : group_response :=
  {| gr_character_id := char_id;
     gr_character_name := char_name;
     gr_response := s2l "*" ++ char_name ++ s2l " is thinking...*";
     gr_relevance_score := 0.3 |}.

(** The body of the [for char_id in responding_chars] loop: the responses
    it appends.  [Choice] with an empty content stands for a missing or
    empty content. *)
Definition respond_one (groq : enhanced_prompt -> Orchestrator.completion)
    (db : character_database) (user_message : str) (gc : group_chat)
    (recent_messages : list group_message) (char_id : option str)
    : list group_response :=
  match char_id ≫= (fun id => db !! id) with
  | None => [thinking_response char_id (s2l "Character")]
  | Some ch =>
      let prompt := create_enhanced_character_prompt db ch user_message gc recent_messages in
      match groq prompt with
      | Orchestrator.Raises => [thinking_response char_id (name ch)]
      | Orchestrator.NoChoices => []
      | Orchestrator.Choice content =>
          if truthy content then
            let response_text := strip content in
            let response_text :=
              if startswith response_text [Orchestrator.double_quote] &&
                 endswith response_text [Orchestrator.double_quote]
              then Orchestrator.drop_ends response_text
              else response_text in
            if truthy response_text then
              [{| gr_character_id := char_id;
                  gr_character_name := name ch;
                  gr_response := response_text;
                  gr_relevance_score :=
                    App.calculate_enhanced_relevance user_message ch
                      (map as_chat_message recent_messages) |}]
            else []
          else []
      end
  end.

(** [has_client] tells whether the chatbot holds a generation client;
    [messages] is [st.session_state.messages]. *)
Definition generate_group_response (has_client : bool)
    (groq : enhanced_prompt -> Orchestrator.completion)
    (chats : group_chats) (db : character_database) (messages : list group_message)
    (user_message : str) (group_id : str) : list group_response :=
  if negb has_client then []
  else
    match chats !! group_id with
    | None => []
    | Some gc =>
        let valid_chars :=
          List.filter (fun char_id => bool_decide (is_Some (db !! char_id)))
                      (gc_characters gc) in
        if negb (truthy valid_chars) then []
        else
          let recent_messages := if truthy messages then last_n 10 messages else [] in
          let responding_chars :=
            select_responding_characters_enhanced db user_message valid_chars
              recent_messages in
          flat_map (respond_one groq db user_message gc recent_messages) responding_chars
    end.

End GroupChat.

(** ** maincode.py: the character type used for the image search *)
Module Fetcher.
Import Py.

Definition anime_characters : list str :=
  map s2l
    ["naruto"; "sasuke"; "sakura"; "kakashi"; "goku"; "vegeta"; "gohan";
     "luffy"; "zoro"; "nami"; "sanji"; "ichigo"; "rukia"; "light yagami";
     "l"; "edward elric"; "alphonse"; "natsu"; "erza"; "gray"; "lucy";
     "kirito"; "asuna"; "saitama"; "genos"; "tanjiro"; "nezuko"; "zenitsu";
     "inosuke"; "eren"; "mikasa"; "levi"; "armin"; "rimuru"; "ainz";
     "subaru"; "rem"; "emilia"; "senku"; "yusuke"; "hiei"; "kurama"]%string.

Definition marvel_characters : list str :=
  map s2l
    ["iron man"; "captain america"; "thor"; "hulk"; "black widow";
     "hawkeye"; "spider-man"; "spiderman"; "deadpool"; "wolverine";
     "professor x"; "magneto"; "storm"; "cyclops"; "jean grey";
     "doctor strange"; "scarlet witch"; "vision"; "falcon"; "war machine"]%string.

Definition dc_characters : list str :=
  map s2l
    ["superman"; "batman"; "wonder woman"; "flash"; "green lantern";
     "aquaman"; "cyborg"; "green arrow"; "supergirl"; "batgirl";
     "robin"; "nightwing"; "joker"; "harley quinn"; "catwoman"]%string.

Definition detect_character_type (character_name : str) : str :=
  let name_lower := lower character_name in
  if any_in anime_characters name_lower then s2l "anime"
  else if any_in marvel_characters name_lower then s2l "marvel"
  else if any_in dc_characters name_lower then s2l "dc"
  else s2l "general".

End Fetcher.

(** ** Vocabulary of the statements about the engine *)
Module Turns.
Import Py Orchestrator.

(** The lower-cased texts of the last four turns, as the repetition check
    reads them. *)
Definition recent_texts (c : config) : list str :=
  map (fun r => lower (response r)) (last_n 4 (conversation_history c)).

(** The config with [last_speaker] set, as a recorded turn leaves it. *)
Definition with_last_speaker (c : config) (s : str) : config :=
  {| type := type c; topic := topic c; participants := participants c;
     duration := duration c; max_rounds := max_rounds c;
     current_round := current_round c; started_at := started_at c;
     last_speaker := Some s;
     conversation_history := conversation_history c |}.

(** The speakers of [n] successive turns: each selected speaker becomes
    the [last_speaker] of the next selection. *)
Fixpoint speaker_sequence (draw : nat) (n : nat) (c : config) : list str :=
  match n with
  | 0 => []
  | S n' =>
      match select_next_speaker draw c with
      | Return (Some s) => s :: speaker_sequence draw n' (with_last_speaker c s)
      | _ => []
      end
  end.

(** a, b, a, b, ... *)
Fixpoint alternate (n : nat) (a b : str) : list str :=
  match n with
  | 0 => []
  | S n' => a :: alternate n' b a
  end.

(** The generation call failed: it raised, or answered without choices. *)
Definition generation_failed (r : completion) : Prop :=
  match r with
  | Choice _ => False
  | Raises | NoChoices => True
  end.

End Turns.

(** ** Vocabulary of the statements about relevance *)
Module Relevance.
Import Py App.

(** The character spoke one of the last three messages. *)
Definition spoke_recently (ch : character) (recent_messages : list chat_message) : bool :=
  existsb (fun msg => bool_decide (role msg = Some «"character"») &&
                      bool_decide (msg_character_name msg = Some (name ch)))
          (last_n 3 recent_messages).

(** The first words of an optional description, lower-cased. *)
Definition first_words (n : nat) (field : option str) : list str :=
  firstn n (split (lower (get_or field []))).

(** The keywords of a character: the first 5 words of the powers and the
    first [personality_words] words of the personality, longer than 3. *)
Definition keywords_of (personality_words : nat) (ch : character) : list str :=
  List.filter (fun k => 3 <? length k)
    (first_words 5 (powers_abilities ch) ++
     first_words personality_words (personality ch)).

Definition matched_keywords (personality_words : nat) (user_message : str)
    (ch : character) : nat :=
  length (List.filter (fun k => contains (lower user_message) k)
            (keywords_of personality_words ch)).

(** The score in closed form: 0.6, plus 0.4 for the name, plus 0.2 for a
    recent message, plus 0.1 per matched keyword up to 0.3, at most 1. *)
Definition relevance_formula (personality_words : nat) (user_message : str)
    (ch : character) (recent_messages : list chat_message) : Q :=
  Qmin (0.6
        + (if contains (lower user_message) (lower (name ch)) then 0.4 else 0)
        + (if spoke_recently ch recent_messages then 0.2 else 0)
        + Qmin (inject_Z (Z.of_nat (matched_keywords personality_words user_message ch)) * 0.1)
               0.3) 1.

(** The score as the specification words it: the personality contributes
    its first 3 words. *)
Definition spec_relevance_score : str → character → list chat_message → Q :=
  relevance_formula 3.

End Relevance.

(** ** Vocabulary of the statements about triggers *)
Module Lines.
Import Re.

(** The text up to the first line feed, and what follows it. *)
Fixpoint first_line (s : str) : str :=
  match s with
  | [] => []
  | c :: s' => if bool_decide (c = newline) then [] else c :: first_line s'
  end.

Fixpoint after_line (s : str) : str :=
  match s with
  | [] => []
  | c :: s' => if bool_decide (c = newline) then s else after_line s'
  end.

(** [LIT(.+)]: the shape of six of the seven debate triggers. *)
Definition lit_capture (lit : str) : regex := Seq (Lit lit) (Group 1 (Plus Dot)).

(** The spec that a debate trigger yields, and the one a discussion
    keyword yields. *)
Definition debate_spec (topic : str) (character_ids : list str) : Orchestrator.config :=
  {| Orchestrator.type := «"debate"»;
     Orchestrator.topic := topic;
     Orchestrator.participants := firstn 2 character_ids;
     Orchestrator.duration := «"until_stop"»;
     Orchestrator.max_rounds := Some 8%Z;
     Orchestrator.current_round := 0;
     Orchestrator.started_at := None;
     Orchestrator.last_speaker := None;
     Orchestrator.conversation_history := [] |}.

Definition discussion_spec (user_message : str) (character_ids : list str)
    : Orchestrator.config :=
  {| Orchestrator.type := «"discussion"»;
     Orchestrator.topic := user_message;
     Orchestrator.participants := character_ids;
     Orchestrator.duration := «"until_stop"»;
     Orchestrator.max_rounds := Some 6%Z;
     Orchestrator.current_round := 0;
     Orchestrator.started_at := None;
     Orchestrator.last_speaker := None;
     Orchestrator.conversation_history := [] |}.

End Lines.

(** ** Vocabulary of the statements about runs of the engine *)
Module Run.
Import Py Orchestrator.

(** One tick takes the entry of a group from [c] to [c']: some service,
    clock, draw, store and registry holding [c] for the group leave [c']
    there. *)
Definition ticks_to (c c' : config) : Prop :=
  ∃ (groq : prompt → completion) (now : str) (draw : nat) (group_id : str)
    (db : gmap str character) (chats : gmap str config),
    chats !! group_id = Some c ∧
    snd (generate_autonomous_response groq now draw group_id db chats) !! group_id
    = Some c'.

(** The states a started conversation can be in, as long as it is active. *)
Definition reachable (spec : config) (now : str) (c : config) : Prop :=
  rtc ticks_to (set_started spec now) c.

(** The speakers of the recorded turns, oldest first. *)
Definition speakers (c : config) : list str :=
  map speaker (conversation_history c).

(** The lower-cased texts of the four turns from position [i] on. *)
Definition window (i : nat) (c : config) : list str :=
  map (fun r => lower (response r)) (firstn 4 (skipn i (conversation_history c))).

(** The round limit in force. *)
Definition round_limit (c : config) : Z := get_or (max_rounds c) 6%Z.

(** The notice of the system when a conversation is concluded. *)
Definition concluded_message (c : config) : message :=
  {| character_id := s2l "system";
     character_name := s2l "System";
     msg_response := Concluded (type c) (current_round c);
     autonomous := false |}.

Definition turn_message (next_speaker_id : str) (ch : character) (text : str) : message :=
  {| character_id := next_speaker_id;
     character_name := name ch;
     msg_response := Text text;
     autonomous := true |}.

(** What every recorded turn satisfies: its speaker is a participant with
    a non-empty id, and its text is not empty. *)
Definition sound_entry (c : config) (e : entry) : Prop :=
  speaker e ∈ participants c ∧ truthy (speaker e) = true ∧
  truthy (response e) = true.

(** The fields a run never changes, and the link between [last_speaker]
    and the history. *)
Definition well_formed (spec : config) (now0 : str) (c : config) : Prop :=
  type c = type spec ∧ topic c = topic spec ∧ participants c = participants spec ∧
  max_rounds c = max_rounds spec ∧ duration c = duration spec ∧
  started_at c = Some now0 ∧
  last_speaker c = speaker <$> last (conversation_history c) ∧
  Forall (sound_entry c) (conversation_history c).

(** The speaker of the last recorded turn. *)
Definition last_of_speakers (c : config) : option str := last (speakers c).

(** No two neighbours of the list are equal. *)
Definition no_repeat (l : list str) : Prop :=
  ∀ i x y, l !! i = Some x → l !! S i = Some y → x ≠ y.

End Run.

(** ** Vocabulary of the statements about shared dicts *)
Module Sharing.
Import Orchestrator Shared.

(** What a group shows: the content of the dict it holds. *)
Definition status (group_id : str) (s : store) : option config :=
  dicts s <$> get_autonomous_status group_id s.

(** The registry as lookups show it. *)
Definition view (s : store) : gmap str config :=
  dicts s <$> active_autonomous_chats s.

(** Some tick, of any group, takes the store from [s] to [s']. *)
Definition ticks (s s' : store) : Prop :=
  ∃ (groq : prompt → completion) (now : str) (draw : nat) (group_id : str)
    (db : gmap str character),
    s' = snd (generate_autonomous_response groq now draw group_id db s).

End Sharing.

(** ** Vocabulary of the statements about intent and group chats *)
Module Intent.

(** The values [determine_message_type] can return. *)
Definition message_types : list str :=
  [s2l "greeting"; s2l "question"; s2l "request"; s2l "debate_trigger";
   s2l "statement"].

(** The messages of a list that a character spoke. *)
Definition spoken_by (char_id : str) (messages : list GroupChat.group_message)
    : list GroupChat.group_message :=
  List.filter
    (fun msg => bool_decide (GroupChat.gm_role msg = Some (s2l "character")) &&
                bool_decide (get_or (GroupChat.gm_character_id msg) [] = char_id))
    messages.

(** The group as [create_group_chat] registers it. *)
Definition fresh_group (now : str) (group_name : str) (character_ids : list str)
    : GroupChat.group_chat :=
  {| GroupChat.gc_name := group_name;
     GroupChat.gc_characters := character_ids;
     GroupChat.gc_messages := [];
     GroupChat.gc_conversation_history := [];
     GroupChat.gc_created_at := now;
     GroupChat.gc_last_speakers := [] |}.

(** The name a fallback response carries: the character's, or the
    placeholder for an id the store does not know. *)
Definition known_name (db : gmap str character) (char_id : option str) : str :=
  match char_id ≫= (fun id => db !! id) with
  | Some ch => name ch
  | None => s2l "Character"
  end.

(** A service that raises on every request. *)
Definition failing {P} : P → Orchestrator.completion := fun _ => Orchestrator.Raises.

Definition is_str (v : Dynamic.json) : bool :=
  match v with Dynamic.JStr _ => true | _ => false end.

(** An opinion of the shape the prompt asks for, as far as the selection
    reads it: an object whose [target_characters], if present, is a list
    of strings and whose [response_count], if present, is an integer of
    at least 1. *)
Definition as_asked (ai : Dynamic.json) : bool :=
  match ai with
  | Dynamic.JDict members =>
      match Dynamic.dict_get members (s2l "target_characters") with
      | Some (Dynamic.JList items) => forallb is_str items
      | Some _ => false
      | None => true
      end &&
      match Dynamic.dict_get members (s2l "response_count") with
      | Some (Dynamic.JInt n) => (1 <=? n)%Z
      | Some _ => false
      | None => true
      end
  | _ => false
  end.

End Intent.

(** ** Sample data *)
Module Samples.
Import Orchestrator.

Definition naruto : character :=
  {| name := «"Naruto"»; personality := Some «"cheerful stubborn loyal brave ninja"»;
     speaking_style := None; powers_abilities := Some «"shadow clone jutsu"» |}.

Definition sasuke : character :=
  {| name := «"Sasuke"»; personality := Some «"calm proud"»;
     speaking_style := Some «"terse"»; powers_abilities := None |}.

Definition eve : character :=
  {| name := «"Eve"»; personality := None; speaking_style := None;
     powers_abilities := None |}.

Definition ninja_db : gmap str character :=
  {[ «"naruto"» := naruto; «"sasuke"» := sasuke ]}.

Definition eve_db : gmap str character :=
  {[ «"eve"» := eve; «"naruto"» := naruto ]}.

Definition debate_of_two : config :=
  {| type := «"debate"»; topic := «"ramen"»;
     participants := [«"naruto"»; «"sasuke"»];
     duration := «"until_stop"»; max_rounds := Some 8%Z; current_round := 0;
     started_at := None; last_speaker := None; conversation_history := [] |}.

Definition discussion_of_three : config :=
  {| type := «"discussion"»; topic := «"ramen"»;
     participants := [«"naruto"»; «"sasuke"»; «"eve"»];
     duration := «"until_stop"»; max_rounds := Some 6%Z; current_round := 0.5;
     started_at := None; last_speaker := Some «"naruto"»;
     conversation_history := [] |}.

(** An external opinion that names Naruto and asks for no response. *)
Definition silent_opinion : Selector.ai_opinion :=
  {| Selector.target_type := «"specific"»;
     Selector.target_characters := [«"Naruto"»];
     Selector.reasoning := «"nobody needs to answer"»;
     Selector.response_count := Some 0%Z |}.

(** An external opinion of the asked shape, as a JSON value, one with a
    fractional count and one whose target is a number. *)
Definition asked_opinion : Dynamic.json :=
  Dynamic.JDict [ (s2l "target_type", Dynamic.JStr (s2l "specific"));
                  (s2l "target_characters", Dynamic.JList [Dynamic.JStr (s2l "Sasuke")]);
                  (s2l "response_count", Dynamic.JInt 1) ].

Definition fractional_count : Dynamic.json :=
  Dynamic.JDict [ (s2l "target_characters", Dynamic.JList [Dynamic.JStr (s2l "Naruto")]);
                  (s2l "response_count", Dynamic.JFloat (Dynamic.Finite 2)) ].

Definition number_target : Dynamic.json :=
  Dynamic.JDict [ (s2l "target_characters", Dynamic.JList [Dynamic.JInt 7]) ].

(** A character whose fourth personality word occurs in "be brave". *)
Definition knight : character :=
  {| name := «"Lancelot"»; personality := Some «"calm wise patient brave loyal"»;
     speaking_style := None; powers_abilities := None |}.

(** A message whose topic starts on the next line. *)
Definition discuss_next_line : str :=
  «"discuss "» ++ [Re.newline] ++ «"the weather"».

(** A store without conversations, every dict being the debate of two. *)
Definition no_chats : Shared.store :=
  {| Shared.active_autonomous_chats := ∅; Shared.dicts := fun _ => debate_of_two |}.

(** A registry with two groups, and a service that always answers. *)
Definition two_groups : gmap str Orchestrator.config :=
  {[ s2l "g1" := Orchestrator.set_started debate_of_two (s2l "t0");
     s2l "g2" := discussion_of_three ]}.

Definition believe_it : Orchestrator.prompt → Orchestrator.completion :=
  fun _ => Orchestrator.Choice (s2l "  Believe it! ").

(** The debate of two after its first recorded turn. *)
Definition debate_after_one : Orchestrator.config :=
  Orchestrator.record_turn (Orchestrator.set_started debate_of_two (s2l "t0"))
    (s2l "naruto") (s2l "Believe it!") (s2l "t1").

(** The debate of two after its second recorded turn. *)
Definition debate_after_two : Orchestrator.config :=
  Orchestrator.record_turn debate_after_one
    (s2l "sasuke") (s2l "Believe it!") (s2l "t2").

(** A service with a fixed answer, and the debate of two after turns with
    the given texts, the speakers alternating. *)
Definition answering (text : str) : Orchestrator.prompt → Orchestrator.completion :=
  fun _ => Orchestrator.Choice text.

Fixpoint debate_turns (c : Orchestrator.config) (a b : str) (texts : list str)
    : Orchestrator.config :=
  match texts with
  | [] => c
  | text :: texts' =>
      debate_turns (Orchestrator.record_turn c a text (s2l "t")) b a texts'
  end.

Definition debate_after_five : Orchestrator.config :=
  debate_turns (Orchestrator.set_started debate_of_two (s2l "t0"))
    (s2l "naruto") (s2l "sasuke")
    [s2l "one"; s2l "two"; s2l "three"; s2l "four"; s2l "five"].

(** The debate of two at its round limit. *)
Definition debate_at_limit : Orchestrator.config :=
  {| Orchestrator.type := s2l "debate"; Orchestrator.topic := s2l "ramen";
     Orchestrator.participants := [s2l "naruto"; s2l "sasuke"];
     Orchestrator.duration := s2l "until_stop";
     Orchestrator.max_rounds := Some 8%Z; Orchestrator.current_round := 8;
     Orchestrator.started_at := None; Orchestrator.last_speaker := Some (s2l "sasuke");
     Orchestrator.conversation_history := [] |}.

(** An external opinion within the range the prompt asks for. *)
Definition two_targets : Selector.ai_opinion :=
  {| Selector.target_type := s2l "specific";
     Selector.target_characters := [s2l "sasuke"; s2l "NARUTO"];
     Selector.reasoning := s2l "both know ramen";
     Selector.response_count := Some 2%Z |}.

(** A character whose first power word is punctuation only. *)
Definition loud : character :=
  {| name := s2l "Loud"; personality := None; speaking_style := None;
     powers_abilities := Some (s2l "!!!! thunder.") |}.

(** A chat in which Sasuke spoke last, and one in which the user did. *)
Definition sasuke_spoke : list GroupChat.group_message :=
  [ {| GroupChat.gm_role := Some (s2l "user"); GroupChat.gm_character_id := None;
       GroupChat.gm_character_name := None; GroupChat.gm_content := s2l "hi" |};
    {| GroupChat.gm_role := Some (s2l "character");
       GroupChat.gm_character_id := Some (s2l "sasuke");
       GroupChat.gm_character_name := Some (s2l "Sasuke");
       GroupChat.gm_content := s2l "Hn." |} ].

Definition user_spoke : list GroupChat.group_message :=
  sasuke_spoke ++
  [ {| GroupChat.gm_role := Some (s2l "user"); GroupChat.gm_character_id := None;
       GroupChat.gm_character_name := None;
       GroupChat.gm_content := s2l "I really like ramen in winter" |} ].

Definition trio_db : gmap str character :=
  {[ s2l "naruto" := naruto; s2l "sasuke" := sasuke; s2l "eve" := eve ]}.

Definition trio : list str := [s2l "naruto"; s2l "sasuke"; s2l "eve"].

Definition trio_chats : gmap str GroupChat.group_chat :=
  {[ s2l "team_7" := {| GroupChat.gc_name := s2l "Team 7";
                        GroupChat.gc_characters := trio;
                        GroupChat.gc_messages := sasuke_spoke;
                        GroupChat.gc_conversation_history := sasuke_spoke;
                        GroupChat.gc_created_at := s2l "t0";
                        GroupChat.gc_last_speakers := [] |} ]}.

End Samples.

(** * Properties *)

(** ** Sanity checks of the primitives and the matcher *)

Example lower_ex : Py.lower «"Hello World!"» = «"hello world!"».
Proof. reflexivity. Qed.

Example strip_ex : Py.strip «"  hi there
 "» = «"hi there"».
Proof. reflexivity. Qed.

Example split_ex : Py.split «" fire  and ice "» = [«"fire"»; «"and"»; «"ice"»].
Proof. reflexivity. Qed.

Example contains_ex : Py.contains «"hello everyone"» «"eve"» = true.
Proof. reflexivity. Qed.

Example re_ex1 :
  Re.group 1 <$> Re.re_search (Re.Seq (Re.Lit «"debate about "») (Re.Group 1 (Re.Plus Re.Dot)))
    «"let us debate about ramen vs curry"» = Some «"ramen vs curry"».
Proof. vm_compute. reflexivity. Qed.

Example re_ex2 :
  Re.group 1 <$> Re.re_search
    (Re.Seqs [Re.Group 1 (Re.Plus Re.Dot); Re.Lit «" vs "»; Re.Group 2 (Re.Plus Re.Dot)])
    «"cats vs dogs vs birds"» = Some «"cats vs dogs"».
Proof. vm_compute. reflexivity. Qed.

Example greeting_ex1 : Selector.is_greeting_message «"hello everyone"» = true.
Proof. vm_compute. reflexivity. Qed.

Example greeting_ex2 : Selector.is_greeting_message «"hi"» = true.
Proof. vm_compute. reflexivity. Qed.

Example greeting_ex3 : Selector.is_greeting_message «"what's up"» = true.
Proof. vm_compute. reflexivity. Qed.

Example greeting_ex4 : Selector.is_greeting_message «"hello there, how are you"» = false.
Proof. vm_compute. reflexivity. Qed.

Example greeting_ex5 : Selector.is_greeting_message «"good   evening all!"» = true.
Proof. vm_compute. reflexivity. Qed.

(** ** Facts on the primitives *)
Module PyProps.
Import Py.

Lemma startswith_iff (s p : str) : startswith s p = true ↔ ∃ post, s = p ++ post.
Proof.
  revert s. induction p as [|a p IH]; intros s; cbn [startswith].
  - split; [eauto|intros _; by destruct s].
  - destruct s as [|b s]; cbn [startswith].
    + split; [discriminate|intros [post H]; discriminate H].
    + rewrite andb_true_iff, bool_decide_eq_true, IH. split.
      * intros [-> [post ->]]. eauto.
      * intros [post [= -> ->]]. eauto.
Qed.

(** [needle in hay] holds exactly when [needle] occurs in [hay]. *)
Lemma contains_iff (hay needle : str) :
  contains hay needle = true ↔ ∃ pre post, hay = pre ++ needle ++ post.
Proof.
  induction hay as [|c hay IH]; cbn [contains]; rewrite orb_true_iff, startswith_iff.
  - split.
    + intros [[post H]|H]; [|discriminate]. exists [], post. exact H.
    + intros (pre & post & H). left.
      destruct pre; [eauto|discriminate H].
  - rewrite IH. split.
    + intros [[post H]|(pre & post & ->)]; [exists [], post; exact H|].
      exists (c :: pre), post. reflexivity.
    + intros (pre & post & H). destruct pre as [|c' pre].
      * left. eauto.
      * right. injection H as -> ->. eauto.
Qed.

End PyProps.

(** ** Facts on the matcher *)
Module ReSound.
Import Py Re.

Lemma plus_loop_suffix (step : pos → list pos) :
  (∀ p q, q ∈ step p → rest q `suffix_of` rest p) →
  ∀ fuel p q, q ∈ plus_loop step fuel p → rest q `suffix_of` rest p.
Proof.
  intros Hstep. induction fuel as [|fuel IH]; intros p q; cbn [plus_loop].
  - intros H. by apply not_elem_of_nil in H.
  - rewrite list_elem_of_In, in_flat_map. intros (m & Hm & Hq).
    apply list_elem_of_In in Hm. apply list_elem_of_In in Hq.
    apply elem_of_app in Hq as [Hq|Hq].
    + etrans; [by apply IH|by apply Hstep].
    + apply list_elem_of_singleton in Hq as ->. by apply Hstep.
Qed.

Lemma eat_suffix (f : ascii → bool) (p q : pos) :
  q ∈ eat f p → rest q `suffix_of` rest p.
Proof.
  unfold eat. destruct (rest p) as [|c s]; [intros H; by apply not_elem_of_nil in H|].
  destruct (f c); [|intros H; by apply not_elem_of_nil in H].
  intros ->%list_elem_of_singleton. cbn. by apply suffix_cons_r.
Qed.

(** A match only moves forward in the text. *)
Lemma run_suffix (r : regex) :
  ∀ p q, q ∈ run r p → rest q `suffix_of` rest p.
Proof.
  induction r as [|c| | |cs| | | |r1 IH1 r2 IH2|r1 IH1 r2 IH2|r IH|r IH|n r IH];
    intros p q; cbn [run].
  - by intros ->%list_elem_of_singleton.
  - apply eat_suffix.
  - apply eat_suffix.
  - apply eat_suffix.
  - apply eat_suffix.
  - destruct (prev p); [intros H; by apply not_elem_of_nil in H|].
    by intros ->%list_elem_of_singleton.
  - intros H. assert (q = p) as ->; [|done].
    destruct (rest p) as [|c [|]]; try (by apply not_elem_of_nil in H).
    + by apply list_elem_of_singleton in H.
    + case_bool_decide; [|by apply not_elem_of_nil in H].
      by apply list_elem_of_singleton in H.
  - destruct (xorb _ _); [|intros H; by apply not_elem_of_nil in H].
    by intros ->%list_elem_of_singleton.
  - rewrite list_elem_of_In, in_flat_map. intros (m & Hm & Hq).
    apply list_elem_of_In in Hm. apply list_elem_of_In in Hq.
    etrans; [by apply IH2|by apply IH1].
  - intros [H|H]%elem_of_app; [by apply IH1|by apply IH2].
  - intros [H|H]%elem_of_app; [by apply IH|].
    by apply list_elem_of_singleton in H as ->.
  - by apply plus_loop_suffix.
  - intros (q' & -> & Hq')%list_elem_of_fmap. cbn. by apply IH.
Qed.

Lemma run_Seq_inv (r1 r2 : regex) (p q : pos) :
  q ∈ run (Seq r1 r2) p → ∃ m, m ∈ run r1 p ∧ q ∈ run r2 m.
Proof.
  cbn [run]. rewrite list_elem_of_In, in_flat_map. intros (m & Hm & Hq).
  exists m. by rewrite !list_elem_of_In.
Qed.

(** A literal consumes exactly its text. *)
Lemma run_Lit_inv (lit : str) : ∀ p q, q ∈ run (Lit lit) p → rest p = lit ++ rest q.
Proof.
  induction lit as [|a lit IH]; intros p q.
  - by intros ->%list_elem_of_singleton.
  - change (Lit (a :: lit)) with (Seq (Chr a) (Lit lit)).
    intros (m & Hm & Hq)%run_Seq_inv. apply IH in Hq.
    cbn [run] in Hm. unfold eat in Hm.
    destruct (rest p) as [|c s]; [by apply not_elem_of_nil in Hm|].
    case_bool_decide as Hc; [|by apply not_elem_of_nil in Hm].
    apply list_elem_of_singleton in Hm as ->. cbn in Hq. by subst.
Qed.

(** A successful search matched at some suffix of the text. *)
Lemma search_from_Some (r : regex) (s : str) :
  ∀ before m, search_from r before s = Some m →
    ∃ before' p q, rest p `suffix_of` s ∧ p = mkPos before' (rest p) [] ∧ q ∈ run r p.
Proof.
  induction s as [|c s IH]; intros before m; cbn [search_from]; unfold match_at.
  - destruct (run r _) as [|q l] eqn:E; [discriminate|]. intros _.
    exists before, (mkPos before [] []), q. split; [done|]. split; [done|].
    rewrite E. left.
  - destruct (run r _) as [|q l] eqn:E; cbn.
    + intros (b' & p & q & Hsuf & Hp & Hq)%IH.
      exists b', p, q. split; [by apply suffix_cons_r|done].
    + intros _. exists before, (mkPos before (c :: s) []), q.
      split; [done|]. split; [done|]. rewrite E. left.
Qed.

(** If every match of [r] passes through the literal [lit], a successful
    search finds [lit] in the text. *)
Lemma search_finds_literal (r : regex) (lit s : str) :
  (∀ p q, q ∈ run r p → ∃ m1 m2, rest m1 `suffix_of` rest p ∧ m2 ∈ run (Lit lit) m1) →
  is_Some (re_search r s) → contains s lit = true.
Proof.
  intros Hthrough [m Hm]. apply search_from_Some in Hm as (b & p & q & Hsuf & _ & Hq).
  destruct (Hthrough p q Hq) as (m1 & m2 & Hsuf1 & Hlit).
  apply run_Lit_inv in Hlit.
  destruct Hsuf as [k1 ->]. destruct Hsuf1 as [k2 Hk2].
  apply PyProps.contains_iff. exists (k1 ++ k2), (rest m2).
  rewrite Hk2, Hlit. by rewrite <- !app_assoc.
Qed.

End ReSound.

(** ** The autonomous conversation engine *)
Module OrchestratorProps.
Import Py Re Orchestrator Turns Samples.

Lemma end_autonomous_conversation_delete (group_id : str) (chats : gmap str config) :
  end_autonomous_conversation group_id chats = delete group_id chats.
Proof.
  unfold end_autonomous_conversation.
  destruct (chats !! group_id) eqn:E; [reflexivity|].
  symmetry. by apply delete_id.
Qed.

(** C9.  A message containing a stop-word removes the entry of the group,
    and of that group only, and answers [true], after which the group is
    no longer active; any other message answers [false] and leaves the
    registry as it was.  The entries of the other groups never change. *)
Theorem handle_user_interruption_frame
    (user_message group_id : str) (chats : gmap str config) :
  let stop := any_in interruption_keywords (lower user_message) in
  let r := handle_user_interruption user_message group_id chats in
  fst r = stop ∧
  (stop = true →
     snd r = delete group_id chats ∧ is_autonomous_active group_id (snd r) = false) ∧
  (stop = false → snd r = chats) ∧
  (∀ g : str, g ≠ group_id → snd r !! g = chats !! g).
Proof.
  cbv zeta. unfold handle_user_interruption.
  destruct (any_in interruption_keywords (lower user_message)); cbn [fst snd];
    rewrite ?end_autonomous_conversation_delete.
  - split; [reflexivity|]. split; [|split].
    + intros _. split; [reflexivity|].
      unfold is_autonomous_active. apply bool_decide_eq_false.
      rewrite lookup_delete_eq. by intros [? ?].
    + discriminate.
    + intros g Hg. by apply lookup_delete_ne.
  - split; [reflexivity|]. split; [discriminate|]. split; reflexivity || auto.
Qed.

Example interrupt_please_stop (c : config) :
  let r := handle_user_interruption «"please stop"» «"g1"» {[ «"g1"» := c ]} in
  fst r = true ∧ is_autonomous_active «"g1"» (snd r) = false.
Proof.
  cbv zeta. unfold handle_user_interruption.
  replace (any_in interruption_keywords (lower «"please stop"»)) with true
    by (vm_compute; reflexivity).
  cbn [fst snd]. split; [reflexivity|].
  rewrite end_autonomous_conversation_delete.
  apply bool_decide_eq_false. rewrite lookup_delete_eq. by intros [? ?].
Qed.

Lemma length_last_n {A} (n : nat) (l : list A) :
  length (last_n n l) = Nat.min n (length l).
Proof. unfold last_n. rewrite length_skipn. lia. Qed.

Lemma distinct_count_le (texts : list str) : distinct_count texts ≤ length texts.
Proof.
  unfold distinct_count. induction texts as [|t texts IH]; cbn [list_to_set length].
  - by rewrite size_empty.
  - rewrite size_union_alt, size_singleton.
    assert (list_to_set texts ∖ {[t]} ⊆ (list_to_set texts : gset str)) as Hsub
      by (intros x Hx; apply elem_of_difference in Hx; tauto).
    apply subseteq_size in Hsub. lia.
Qed.

Lemma distinct_count_NoDup (texts : list str) :
  NoDup texts → distinct_count texts = length texts.
Proof. apply size_list_to_set. Qed.

Lemma Qle_bool_false (a b : Q) : Qle_bool a b = false ↔ (b < a)%Q.
Proof.
  split.
  - intros H. apply Qnot_le_lt. intros Hle. apply Qle_bool_iff in Hle. congruence.
  - intros H. destruct (Qle_bool a b) eqn:E; [|reflexivity].
    apply Qle_bool_iff in E. exfalso. apply (Qlt_not_le _ _ H E).
Qed.

(** The body of the repetition check once four turns exist. *)
Lemma should_end_conversation_unfold (c : config) :
  should_end_conversation c =
  Qle_bool (inject_Z (get_or (max_rounds c) 6%Z)) (current_round c)
  || ((4 <=? length (conversation_history c)) &&
      negb (Qle_bool (4 * 0.7) (inject_Z (Z.of_nat (distinct_count (recent_texts c)))))).
Proof.
  unfold should_end_conversation, recent_texts.
  destruct (Qle_bool _ (current_round c)); [reflexivity|]. cbn [orb].
  rewrite length_last_n.
  destruct (Nat.leb_spec 4 (length (conversation_history c))) as [Hlen|Hlen].
  - replace (4 <=? Nat.min 4 (length (conversation_history c))) with true
      by (symmetry; apply Nat.leb_le; lia).
    rewrite length_map, length_last_n.
    replace (Nat.min 4 (length (conversation_history c))) with 4 by lia.
    reflexivity.
  - replace (4 <=? Nat.min 4 (length (conversation_history c))) with false
      by (symmetry; apply Nat.leb_gt; lia).
    reflexivity.
Qed.

Lemma few_distinct_below_threshold (n : nat) :
  (inject_Z (Z.of_nat n) < 4 * 0.7)%Q ↔ n ≤ 2.
Proof. unfold Qlt, inject_Z. cbn. lia. Qed.

(** C8.  The conversation ends exactly when the round limit is reached, or
    when at least four turns exist and the last four lower-cased texts
    have fewer than 4 x 0.7 distinct values.  So at most two distinct
    texts among the last four end it, and below the round limit, last
    texts that are pairwise distinct do not. *)
Theorem should_end_conversation_iff (c : config) :
  let texts := recent_texts c in
  let limit := inject_Z (get_or (max_rounds c) 6%Z) in
  (should_end_conversation c = true ↔
     (limit <= current_round c)%Q ∨
     (4 ≤ length (conversation_history c) ∧
      (inject_Z (Z.of_nat (distinct_count texts)) < 4 * 0.7)%Q)) ∧
  (4 ≤ length (conversation_history c) → distinct_count texts ≤ 2 →
     should_end_conversation c = true) ∧
  ((current_round c < limit)%Q → NoDup texts →
     should_end_conversation c = false).
Proof.
  cbv zeta. rewrite should_end_conversation_unfold.
  split; [|split].
  - rewrite orb_true_iff, andb_true_iff, negb_true_iff, Qle_bool_iff,
      Qle_bool_false, Nat.leb_le. reflexivity.
  - intros Hlen Hfew. apply orb_true_iff. right.
    apply andb_true_iff. split; [by apply Nat.leb_le|].
    apply negb_true_iff, Qle_bool_false, few_distinct_below_threshold, Hfew.
  - intros Hround Hnodup. apply orb_false_iff. split.
    + by apply Qle_bool_false.
    + destruct (Nat.leb_spec 4 (length (conversation_history c))) as [Hlen|Hlen];
        [|reflexivity].
      cbn [andb]. apply negb_false_iff, Qle_bool_iff.
      rewrite (distinct_count_NoDup _ Hnodup).
      unfold recent_texts. rewrite length_map, length_last_n.
      replace (Nat.min 4 (length (conversation_history c))) with 4 by lia.
      unfold Qle. cbn. lia.
Qed.

(** The scenario of three "I agree." and one "Sure.": two distinct texts
    out of four end the conversation. *)
Example repetition_scenario (c : config) (e1 e2 e3 e4 : entry) :
  conversation_history c = [e1; e2; e3; e4] →
  response e1 = «"I agree."» → response e2 = «"I agree."» →
  response e3 = «"I agree."» → response e4 = «"Sure."» →
  should_end_conversation c = true.
Proof.
  intros Hh H1 H2 H3 H4. rewrite should_end_conversation_unfold.
  apply orb_true_iff. right. unfold recent_texts.
  rewrite Hh. cbn [length Nat.leb andb last_n skipn Nat.sub map].
  rewrite H1, H2, H3, H4. vm_compute. reflexivity.
Qed.

Lemma index_of_lookup (x : str) (l : list str) (i : nat) :
  index_of x l = Some i → l !! i = Some x.
Proof.
  revert i. induction l as [|y l IH]; intros i; cbn [index_of]; [discriminate|].
  case_bool_decide as Hy.
  - intros [= <-]. by subst.
  - destruct (index_of x l) as [j|]; cbn; [|discriminate].
    intros [= <-]. by apply IH.
Qed.

Lemma index_of_elem (x : str) (l : list str) :
  x ∈ l → is_Some (index_of x l).
Proof.
  induction 1 as [|y z l Hin IH]; cbn [index_of].
  - rewrite bool_decide_eq_true_2 by reflexivity. eauto.
  - case_bool_decide; [eauto|]. destruct IH as [j ->]. cbn. eauto.
Qed.

Lemma debate_neq_discussion : «"debate"» ≠ «"discussion"».
Proof. discriminate. Qed.

(** The debate branch, once [last_speaker] is a non-empty id. *)
Lemma debate_next_after_last (draw : nat) (c : config) (last : str) :
  type c = «"debate"» → last_speaker c = Some last → truthy last = true →
  select_next_speaker draw c =
  match index_of last (participants c) with
  | Some i => Return (participants c !! ((i + 1) mod length (participants c)))
  | None => first_participant (participants c)
  end.
Proof.
  intros Ht Hl Hne. unfold select_next_speaker. rewrite Hl, Hne. cbn [negb].
  by rewrite bool_decide_eq_true_2.
Qed.

Lemma select_next_speaker_unset (draw : nat) (c : config) :
  truthy_opt (last_speaker c) = false →
  select_next_speaker draw c = Return (head (participants c)).
Proof.
  unfold select_next_speaker, truthy_opt.
  destruct (last_speaker c) as [last|]; [|reflexivity].
  by intros ->.
Qed.

Lemma debate_alternation (draw : nat) (A B : str) (n : nat) :
  truthy A = true → truthy B = true → A ≠ B →
  ∀ c, type c = «"debate"» → participants c = [A; B] →
    (truthy_opt (last_speaker c) = false ∨ last_speaker c = Some B →
       speaker_sequence draw n c = alternate n A B) ∧
    (last_speaker c = Some A → speaker_sequence draw n c = alternate n B A).
Proof.
  intros HA HB Hne. induction n as [|n IH]; intros c Ht Hp; [by split|].
  assert (∀ s, type (with_last_speaker c s) = «"debate"») as Ht' by (intros; exact Ht).
  assert (∀ s, participants (with_last_speaker c s) = [A; B]) as Hp' by (intros; exact Hp).
  split.
  - intros Hlast. cbn [speaker_sequence alternate].
    assert (select_next_speaker draw c = Return (Some A)) as ->.
    { destruct Hlast as [Hun|Hl].
      - rewrite (select_next_speaker_unset _ _ Hun), Hp. reflexivity.
      - rewrite (debate_next_after_last _ _ _ Ht Hl HB), Hp.
        cbn [index_of]. rewrite bool_decide_eq_false_2 by done.
        rewrite bool_decide_eq_true_2 by done. reflexivity. }
    f_equal. by apply (IH (with_last_speaker c A)).
  - intros Hl. cbn [speaker_sequence alternate].
    rewrite (debate_next_after_last _ _ _ Ht Hl HA), Hp.
    cbn [index_of]. rewrite bool_decide_eq_true_2 by done.
    cbn. f_equal. apply (IH (with_last_speaker c B)); auto.
Qed.

(** C6.  In a debate the first participant speaks when no last speaker is
    set; otherwise the participant after the last speaker's position
    speaks, wrapping around.  With participants [A; B] the turns go
    A, B, A, B, ... *)
Theorem select_next_speaker_debate (draw : nat) (c : config) :
  type c = «"debate"» →
  (truthy_opt (last_speaker c) = false →
     select_next_speaker draw c = Return (head (participants c))) ∧
  (∀ last, last_speaker c = Some last → truthy last = true → last ∈ participants c →
     ∃ i next,
       index_of last (participants c) = Some i ∧
       participants c !! ((i + 1) mod length (participants c)) = Some next ∧
       select_next_speaker draw c = Return (Some next)) ∧
  (∀ A B n, participants c = [A; B] → truthy A = true → truthy B = true → A ≠ B →
     truthy_opt (last_speaker c) = false →
     speaker_sequence draw n c = alternate n A B).
Proof.
  intros Ht. split; [|split].
  - apply select_next_speaker_unset.
  - intros last Hl Hne Hin.
    destruct (index_of_elem _ _ Hin) as [i Hi].
    assert (i < length (participants c)) as Hlt
      by (apply index_of_lookup, lookup_lt_Some in Hi; exact Hi).
    destruct (lookup_lt_is_Some_2 (participants c)
                ((i + 1) mod length (participants c))) as [next Hnext].
    { apply Nat.mod_upper_bound. lia. }
    exists i, next. split; [exact Hi|]. split; [exact Hnext|].
    by rewrite (debate_next_after_last _ _ _ Ht Hl Hne), Hi, Hnext.
  - intros A B n Hp HA HB Hne Hun.
    apply (debate_alternation draw A B n HA HB Hne c Ht Hp). by left.
Qed.

Lemma select_next_speaker_debate_witness :
  speaker_sequence 0 4 debate_of_two = [«"naruto"»; «"sasuke"»; «"naruto"»; «"sasuke"»].
Proof.
  destruct (select_next_speaker_debate 0 debate_of_two eq_refl) as (_ & _ & Halt).
  apply (Halt «"naruto"» «"sasuke"» 4); [reflexivity..| discriminate | reflexivity].
Defined.

(** The discussion branch, once [last_speaker] is a non-empty id. *)
Lemma discussion_next_after_last (draw : nat) (c : config) (last : str) :
  type c = «"discussion"» → last_speaker c = Some last → truthy last = true →
  select_next_speaker draw c =
  let available_speakers := filter (fun p => p ≠ last) (participants c) in
  if truthy available_speakers
  then Return (random_choice draw available_speakers)
  else first_participant (participants c).
Proof.
  intros Ht Hl Hne. unfold select_next_speaker. rewrite Hl, Hne. cbn [negb].
  rewrite Ht. rewrite bool_decide_eq_false_2 by (intros H; by apply debate_neq_discussion).
  by rewrite bool_decide_eq_true_2.
Qed.

Lemma random_choice_elem (draw : nat) (l : list str) :
  l ≠ [] → ∃ x, random_choice draw l = Some x ∧ x ∈ l.
Proof.
  intros Hl. unfold random_choice.
  destruct (lookup_lt_is_Some_2 l (draw mod length l)) as [x Hx].
  { apply Nat.mod_upper_bound. destruct l; [done|]. cbn. lia. }
  exists x. split; [exact Hx|]. by eapply list_elem_of_lookup_2.
Qed.

(** Every element of the list is the outcome of some draw. *)
Lemma random_choice_any (l : list str) (x : str) :
  x ∈ l → ∃ draw, random_choice draw l = Some x.
Proof.
  intros (i & Hi)%list_elem_of_lookup. exists i. unfold random_choice.
  by rewrite Nat.mod_small by (by eapply lookup_lt_Some).
Qed.

Lemma truthy_true {A} (l : list A) : truthy l = true ↔ l ≠ [].
Proof. destruct l; cbn; split; congruence. Qed.

Lemma truthy_false {A} (l : list A) : truthy l = false ↔ l = [].
Proof. destruct l; cbn; split; congruence. Qed.

(** C7.  In a discussion with a last speaker, whatever the random draw,
    the selected speaker is a participant other than the last speaker as
    soon as such a participant exists; when the last speaker is the only
    participant, the first participant, who is the last speaker, is
    selected. *)
Theorem select_next_speaker_discussion (draw : nat) (c : config) (last : str) :
  type c = «"discussion"» → last_speaker c = Some last → truthy last = true →
  ((∃ p, p ∈ participants c ∧ p ≠ last) →
     ∃ next, select_next_speaker draw c = Return (Some next) ∧
             next ∈ participants c ∧ next ≠ last) ∧
  (participants c ≠ [] → (∀ p, p ∈ participants c → p = last) →
     select_next_speaker draw c = Return (Some last) ∧
     head (participants c) = Some last).
Proof.
  intros Ht Hl Hne.
  rewrite (discussion_next_after_last _ _ _ Ht Hl Hne). cbv zeta.
  split.
  - intros (p & Hp & Hpl).
    assert (filter (λ p, p ≠ last) (participants c) ≠ []) as Hav.
    { intros Hnil. assert (p ∈ filter (λ p, p ≠ last) (participants c)) as Hin
        by (apply list_elem_of_filter; auto).
      rewrite Hnil in Hin. by apply not_elem_of_nil in Hin. }
    rewrite (proj2 (truthy_true _) Hav).
    destruct (random_choice_elem draw _ Hav) as (next & Hnext & Hin).
    apply list_elem_of_filter in Hin as [Hneq Hin].
    exists next. by rewrite Hnext.
  - intros Hps Hall.
    assert (filter (λ p, p ≠ last) (participants c) = []) as Hav.
    { destruct (filter _ _) as [|x l] eqn:E; [reflexivity|].
      assert (x ∈ filter (λ p, p ≠ last) (participants c)) as Hin
        by (rewrite E; left).
      apply list_elem_of_filter in Hin as [Hneq Hin]. by apply Hall in Hin. }
    rewrite Hav. cbn [truthy].
    destruct (participants c) as [|p ps]; [done|].
    cbn. rewrite (Hall p) by left. done.
Qed.

Lemma select_next_speaker_discussion_witness :
  ∃ next, select_next_speaker 7 discussion_of_three = Return (Some next) ∧
          next ∈ participants discussion_of_three ∧ next ≠ «"naruto"».
Proof.
  apply (select_next_speaker_discussion 7 discussion_of_three «"naruto"»
           eq_refl eq_refl eq_refl).
  exists «"sasuke"». split; [|discriminate].
  right. left.
Defined.

Lemma thinking_placeholder_truthy (ch : character) (c : config) :
  truthy (thinking_placeholder ch c) = true.
Proof. reflexivity. Qed.

(** What a tick does when the generation call fails for the selected
    speaker. *)
Lemma generate_autonomous_response_failed
    (groq : prompt → completion) (now : str) (draw : nat) (group_id : str)
    (db : gmap str character) (chats : gmap str config)
    (c : config) (next : str) (ch : character) :
  chats !! group_id = Some c →
  should_end_conversation c = false →
  select_next_speaker draw c = Return (Some next) →
  truthy next = true →
  db !! next = Some ch →
  generation_failed (groq (autonomous_prompt ch c db)) →
  generate_autonomous_response groq now draw group_id db chats =
  (Return [{| character_id := next; character_name := name ch;
              msg_response := Text (thinking_placeholder ch c);
              autonomous := true |}],
   <[group_id := record_turn c next (thinking_placeholder ch c) now]> chats).
Proof.
  intros Hc Hend Hsel Hne Hdb Hfail.
  unfold generate_autonomous_response.
  rewrite Hc, Hend, Hsel, Hne, Hdb. cbn [negb].
  assert (generate_character_autonomous_response groq ch c db =
          thinking_placeholder ch c) as ->.
  { unfold generate_character_autonomous_response.
    destruct (groq (autonomous_prompt ch c db)); [reflexivity..|destruct Hfail]. }
  by rewrite thinking_placeholder_truthy.
Qed.

(** C1, as the code behaves.  When the generation call fails for the
    selected speaker of an active conversation, the tick returns the
    single message carrying the placeholder and records it as a regular
    turn: the speaker becomes [last_speaker], [current_round] grows by
    0.5 and the placeholder is appended to the history.  The six other
    fields of the state keep their values. *)
Theorem failed_generation_records_placeholder
    (groq : prompt → completion) (now : str) (draw : nat) (group_id : str)
    (db : gmap str character) (chats : gmap str config)
    (c : config) (next : str) (ch : character) :
  chats !! group_id = Some c →
  should_end_conversation c = false →
  select_next_speaker draw c = Return (Some next) →
  truthy next = true →
  db !! next = Some ch →
  generation_failed (groq (autonomous_prompt ch c db)) →
  let r := generate_autonomous_response groq now draw group_id db chats in
  let placeholder := «"*"» ++ name ch ++ «" is thinking about "» ++ topic c ++ «"...*"» in
  fst r = Return [{| character_id := next; character_name := name ch;
                     msg_response := Text placeholder; autonomous := true |}] ∧
  (∃ c', snd r !! group_id = Some c' ∧
         last_speaker c' = Some next ∧
         current_round c' = (current_round c + 0.5)%Q ∧
         conversation_history c' =
           conversation_history c ++
           [{| speaker := next; response := placeholder; timestamp := now |}] ∧
         type c' = type c ∧ topic c' = topic c ∧ participants c' = participants c ∧
         duration c' = duration c ∧ max_rounds c' = max_rounds c ∧
         started_at c' = started_at c).
Proof.
  intros Hc Hend Hsel Hne Hdb Hfail. cbv zeta.
  rewrite (generate_autonomous_response_failed _ now _ _ _ _ _ _ _
             Hc Hend Hsel Hne Hdb Hfail).
  cbn [fst snd]. split; [reflexivity|].
  eexists. rewrite lookup_insert_eq. split; [reflexivity|].
  cbn. repeat split; reflexivity.
Qed.

Lemma failed_generation_inputs :
  ({[ «"g1"» := debate_of_two ]} : gmap str config) !! «"g1"» = Some debate_of_two ∧
  should_end_conversation debate_of_two = false ∧
  select_next_speaker 0 debate_of_two = Return (Some «"naruto"») ∧
  ninja_db !! «"naruto"» = Some naruto.
Proof.
  split; [apply lookup_singleton_eq|]. split; [vm_compute; reflexivity|].
  split; [reflexivity|].
  unfold ninja_db. apply lookup_insert_eq.
Qed.

Lemma failed_generation_records_placeholder_witness :
  fst (generate_autonomous_response (λ _, Raises) «"12:00"» 0 «"g1"» ninja_db
         {[ «"g1"» := debate_of_two ]}) =
  Return [{| character_id := «"naruto"»; character_name := «"Naruto"»;
             msg_response := Text «"*Naruto is thinking about ramen...*"»;
             autonomous := true |}].
Proof.
  apply (failed_generation_records_placeholder (λ _, Raises) «"12:00"» 0 «"g1"»
           ninja_db {[ «"g1"» := debate_of_two ]} debate_of_two «"naruto"» naruto).
  - vm_compute. reflexivity.
  - vm_compute. reflexivity.
  - reflexivity.
  - reflexivity.
  - vm_compute. reflexivity.
  - exact I.
Defined.

(** C1, as stated, fails: after a failed generation call the state of the
    group has a new last speaker, a larger round counter and a longer
    history. *)
Lemma failed_generation_mutates_state :
  let chats : gmap str config := {[ «"g1"» := debate_of_two ]} in
  let r := generate_autonomous_response (λ _, Raises) «"12:00"» 0 «"g1"» ninja_db chats in
  chats !! «"g1"» = Some debate_of_two ∧
  should_end_conversation debate_of_two = false ∧
  select_next_speaker 0 debate_of_two = Return (Some «"naruto"») ∧
  ninja_db !! «"naruto"» = Some naruto ∧
  ∃ c', snd r !! «"g1"» = Some c' ∧
        last_speaker c' ≠ last_speaker debate_of_two ∧
        ¬ (current_round c' == current_round debate_of_two)%Q ∧
        conversation_history c' ≠ conversation_history debate_of_two.
Proof.
  cbv zeta. destruct failed_generation_inputs as (H1 & H2 & H3 & H4).
  repeat (split; [assumption|]).
  rewrite (generate_autonomous_response_failed (λ _, Raises) «"12:00"» 0 «"g1"»
             ninja_db _ debate_of_two «"naruto"» naruto H1 H2 H3 eq_refl H4 I).
  cbn [snd]. eexists. rewrite lookup_insert_eq. split; [reflexivity|].
  cbn. split; [discriminate|]. split; [|discriminate].
  unfold Qeq. cbn. lia.
Qed.

End OrchestratorProps.

(** ** Responder selection *)
Module SelectorProps.
Import Py Re Selector Samples.

Lemma truthy_nonempty {A} (l : list A) : truthy l = true → l ≠ [].
Proof. destruct l; cbn; congruence. Qed.

Lemma firstn_nonempty {A} (n : nat) (l : list A) :
  0 < n → l ≠ [] → firstn n l ≠ [].
Proof. destruct n; [lia|]. destruct l; cbn; congruence. Qed.

Lemma slice_to_nonempty {A} (l : list A) (n : Z) :
  (1 ≤ n)%Z → l ≠ [] → slice_to l n ≠ [].
Proof.
  intros Hn Hl. unfold slice_to.
  replace (0 <=? n)%Z with true by (symmetry; apply Z.leb_le; lia).
  apply firstn_nonempty; [lia|exact Hl].
Qed.

(** Membership in the detected mentions. *)
Lemma elem_of_detect_mentions_loop (message_lower : str) (ids : list str)
    (db : gmap str character) (x : str) :
  x ∈ detect_mentions_loop message_lower ids db ↔
  x ∈ ids ∧ ∃ ch, db !! x = Some ch ∧ mention_rules (lower (name ch)) message_lower = true.
Proof.
  induction ids as [|i ids IH]; cbn [detect_mentions_loop].
  - split; [intros H; by apply not_elem_of_nil in H|intros [H _]; by apply not_elem_of_nil in H].
  - destruct (db !! i) as [ch|] eqn:Hi.
    + destruct (mention_rules (lower (name ch)) message_lower) eqn:Hm.
      * rewrite !elem_of_cons, IH. split.
        -- intros [->|[Hin Hx]]; [split; [by left|eauto]|split; [by right|exact Hx]].
        -- intros [[->|Hin] Hx]; [by left|right; by split].
      * rewrite elem_of_cons, IH. split.
        -- intros [Hin Hx]; split; [by right|exact Hx].
        -- intros [[->|Hin] (chx & Hx & Hr)]; [congruence|split; eauto].
    + rewrite elem_of_cons, IH. split.
      * intros [Hin Hx]; split; [by right|exact Hx].
      * intros [[->|Hin] (chx & Hx & Hr)]; [congruence|split; eauto].
Qed.

Lemma mention_rules_direct (char_name message_lower : str) :
  contains message_lower char_name = true → mention_rules char_name message_lower = true.
Proof. unfold mention_rules. by intros ->. Qed.

Lemma is_match_is_Some (o : option match_obj) : is_match o = true → is_Some o.
Proof. destruct o; [eauto|discriminate]. Qed.

(** Every rule looks for the name itself, so the first one decides. *)
Lemma mention_rules_contains (char_name message_lower : str) :
  mention_rules char_name message_lower = contains message_lower char_name.
Proof.
  unfold mention_rules.
  destruct (contains message_lower char_name) eqn:Hdirect; [reflexivity|].
  cbn [orb].
  repeat match goal with
  | |- ?a || ?b = false => apply orb_false_iff; split
  end; apply not_true_is_false; intros H; apply not_true_iff_false in Hdirect;
    apply Hdirect; clear Hdirect.
  - apply PyProps.contains_iff in H as (pre & post & ->).
    apply PyProps.contains_iff. exists (pre ++ «"@"»), post.
    by rewrite <- !app_assoc.
  - apply is_match_is_Some in H. revert H. apply ReSound.search_finds_literal.
    intros p q Hq. unfold Seqs in Hq.
    apply ReSound.run_Seq_inv in Hq as (m1 & H1 & Hq).
    apply ReSound.run_Seq_inv in Hq as (m2 & H2 & Hq).
    apply ReSound.run_Seq_inv in Hq as (m3 & H3 & Hq).
    apply ReSound.run_Seq_inv in Hq as (m4 & H4 & Hq).
    exists m3, m4. split; [|exact H4].
    apply ReSound.run_suffix in H1, H2, H3. by repeat (etrans; [eassumption|]).
  - apply is_match_is_Some in H. revert H. apply ReSound.search_finds_literal.
    intros p q Hq. unfold Seqs in Hq.
    apply ReSound.run_Seq_inv in Hq as (m1 & H1 & Hq).
    apply ReSound.run_Seq_inv in Hq as (m2 & H2 & Hq).
    exists m1, m2. split; [|exact H2].
    by apply ReSound.run_suffix in H1.
  - apply is_match_is_Some in H. revert H. apply ReSound.search_finds_literal.
    intros p q Hq. unfold Seqs in Hq.
    apply ReSound.run_Seq_inv in Hq as (m1 & H1 & Hq).
    exists p, m1. split; [done|exact H1].
Qed.

(** The detected mentions are the candidates of the store whose
    lower-cased name occurs in the lower-cased message. *)
Lemma elem_of_detect_character_mentions (msg : str) (ids : list str)
    (db : gmap str character) (x : str) :
  x ∈ detect_character_mentions msg ids db ↔
  x ∈ ids ∧ ∃ ch, db !! x = Some ch ∧ contains (lower msg) (lower (name ch)) = true.
Proof.
  unfold detect_character_mentions. rewrite elem_of_detect_mentions_loop.
  split; intros [Hin (ch & Hdb & Hm)]; (split; [exact Hin|]); exists ch;
    (split; [exact Hdb|]); by rewrite mention_rules_contains in *.
Qed.

(** With a detected mention, the mentions are the answer. *)
Lemma select_responders_mentioned (reply : option ai_opinion) (msg : str)
    (ids : list str) (db : gmap str character) :
  detect_character_mentions msg ids db ≠ [] →
  select_responders reply msg ids db = detect_character_mentions msg ids db.
Proof.
  intros Hm. unfold select_responders, select_responding_characters,
    analyze_message_intent.
  cbn [mentioned_characters is_greeting is_group_message ai_analysis message_type].
  destruct (detect_character_mentions msg ids db); [done|reflexivity].
Qed.

(** C5.  When the message contains the display name of a candidate of the
    store, whatever else it says and whatever the external opinion, the
    responders are exactly the candidates detected as mentioned, in
    candidate order, and that candidate is one of them.  The candidates
    detected by the five mention rules are those of the store whose
    lower-cased name occurs in the lower-cased message. *)
Theorem mention_priority (reply : option ai_opinion) (msg : str)
    (ids : list str) (db : gmap str character) (c : str) (ch : character) :
  c ∈ ids → db !! c = Some ch →
  contains (lower msg) (lower (name ch)) = true →
  select_responders reply msg ids db = detect_character_mentions msg ids db ∧
  c ∈ select_responders reply msg ids db ∧
  (∀ x, x ∈ select_responders reply msg ids db ↔
        x ∈ ids ∧ ∃ chx, db !! x = Some chx ∧
                         mention_rules (lower (name chx)) (lower msg) = true) ∧
  (∀ x, x ∈ select_responders reply msg ids db ↔
        x ∈ ids ∧ ∃ chx, db !! x = Some chx ∧
                         contains (lower msg) (lower (name chx)) = true).
Proof.
  intros Hc Hdb Hname.
  assert (c ∈ detect_character_mentions msg ids db) as Hin.
  { apply elem_of_detect_character_mentions. eauto. }
  assert (select_responders reply msg ids db = detect_character_mentions msg ids db) as ->.
  { apply select_responders_mentioned. intros Hnil. rewrite Hnil in Hin.
    by apply not_elem_of_nil in Hin. }
  split; [reflexivity|]. split; [exact Hin|]. split.
  - intros x. apply elem_of_detect_mentions_loop.
  - intros x. apply elem_of_detect_character_mentions.
Qed.

Lemma mention_priority_witness :
  «"eve"» ∈ select_responders None «"Hello everyone"» [«"eve"»; «"naruto"»] eve_db.
Proof.
  refine (proj1 (proj2 (mention_priority None «"Hello everyone"»
                          [«"eve"»; «"naruto"»] eve_db «"eve"» eve _ _ _))).
  - left.
  - vm_compute. reflexivity.
  - vm_compute. reflexivity.
Defined.

(** C4, as the code behaves.  A message that matches the greeting grammar
    and in which no candidate is detected as mentioned is answered by all
    candidates, in candidate order. *)
Theorem greeting_selects_all (reply : option ai_opinion) (msg : str)
    (ids : list str) (db : gmap str character) :
  is_greeting_message (strip (lower msg)) = true →
  detect_character_mentions msg ids db = [] →
  select_responders reply msg ids db = ids.
Proof.
  intros Hg Hm. unfold select_responders, select_responding_characters,
    analyze_message_intent.
  cbn [mentioned_characters is_greeting is_group_message ai_analysis message_type].
  rewrite Hm, Hg. reflexivity.
Qed.

Lemma greeting_selects_all_witness :
  select_responders None «"  What's up guys!"» [«"naruto"»; «"sasuke"»] ninja_db
  = [«"naruto"»; «"sasuke"»].
Proof.
  apply greeting_selects_all; vm_compute; reflexivity.
Defined.

(** C4, as stated, fails: "hello everyone" matches the greeting grammar,
    yet it contains the display name Eve, and mentions come first. *)
Lemma greeting_with_mention_selects_mentioned :
  is_greeting_message (strip (lower «"hello everyone"»)) = true ∧
  select_responders None «"hello everyone"» [«"eve"»; «"naruto"»] eve_db = [«"eve"»] ∧
  select_responders None «"hello everyone"» [«"eve"»; «"naruto"»] eve_db
    ≠ [«"eve"»; «"naruto"»].
Proof.
  split; [vm_compute; reflexivity|].
  assert (select_responders None «"hello everyone"» [«"eve"»; «"naruto"»] eve_db
          = [«"eve"»]) as -> by (vm_compute; reflexivity).
  split; [reflexivity|discriminate].
Qed.

(** The priority rules never return an empty list for a non-empty
    candidate list, unless the external opinion asks for fewer than one
    response. *)
Lemma select_responding_characters_nonempty (ia : intent_analysis)
    (ids : list str) (db : gmap str character) :
  ids ≠ [] →
  (∀ n, response_count (ai_analysis ia) = Some n → (1 ≤ n)%Z) →
  select_responding_characters ia ids db ≠ [].
Proof.
  intros Hids Hcount. unfold select_responding_characters.
  destruct (truthy (mentioned_characters ia)) eqn:Hm; [by apply truthy_nonempty|].
  destruct (is_greeting ia); [exact Hids|].
  destruct (is_group_message ia); [exact Hids|].
  match goal with |- context [truthy ?l] =>
    destruct (truthy l) eqn:Hai end.
  - apply slice_to_nonempty; [|by apply truthy_nonempty].
    destruct (response_count (ai_analysis ia)) as [n|] eqn:Hn; cbn; [by apply Hcount|lia].
  - repeat case_bool_decide; try (apply firstn_nonempty; [lia|exact Hids]).
    destruct ids; [done|]. cbn. discriminate.
Qed.

(** On target names that are strings the loops of priority 4 do not
    raise, and find what [Selector] finds. *)
Lemma find_target_str (s : str) (ids : list str) (db : gmap str character) :
  Dynamic.find_target (Dynamic.JStr s) ids db = Dynamic.Ok (find_target s ids db).
Proof.
  unfold find_target. induction ids as [|char_id ids IH]; [reflexivity|].
  cbn [Dynamic.find_target find]. destruct (db !! char_id) as [ch|]; [|exact IH].
  case_bool_decide; [reflexivity|exact IH].
Qed.

Lemma ai_targets_of_strs (names ids : list str) (db : gmap str character) :
  Dynamic.ai_targets_of (map Dynamic.JStr names) ids db
  = Dynamic.Ok (ai_targets_of names ids db).
Proof.
  induction names as [|target names IH]; [reflexivity|].
  cbn [map Dynamic.ai_targets_of]. rewrite find_target_str, IH.
  cbn. unfold ai_targets_of at 2. cbn [flat_map].
  by destruct (find_target target ids db).
Qed.

Lemma forallb_is_str (items : list Dynamic.json) :
  forallb Intent.is_str items = true → ∃ names, items = map Dynamic.JStr names.
Proof.
  induction items as [|v items IH]; [by exists []|].
  cbn [forallb]. intros [Hv Hitems]%andb_prop.
  destruct (IH Hitems) as [names ->].
  destruct v; try discriminate Hv. by exists (s :: names).
Qed.

Lemma forallb_is_str_map (names : list str) :
  forallb Intent.is_str (map Dynamic.JStr names) = true.
Proof. induction names as [|target names IH]; [reflexivity|exact IH]. Qed.

(** On an opinion of the asked shape priority 4 does not raise, and the
    list it gives, if any, is not empty. *)
Lemma by_opinion_as_asked (ai : Dynamic.json) (ids : list str) (db : gmap str character) :
  Intent.as_asked ai = true →
  ∃ chosen, Dynamic.by_opinion ai ids db = Dynamic.Ok chosen ∧
            ∀ ai_targets, chosen = Some ai_targets → ai_targets ≠ [].
Proof.
  intros Hshape. unfold Dynamic.by_opinion.
  destruct (Dynamic.truthy_json ai); [|by exists None].
  destruct ai as [| | | | | |members]; try discriminate Hshape.
  cbn [Intent.as_asked] in Hshape. apply andb_prop in Hshape as [Htargets Hcount].
  destruct (Dynamic.dict_get members «"target_characters"») as [targets|];
    [|by exists None].
  destruct targets as [| | | | |items|]; try discriminate Htargets.
  destruct (forallb_is_str items Htargets) as [names ->].
  destruct (Dynamic.truthy_json _); [|by exists None].
  cbn [Dynamic.iterate mbind Dynamic.result_bind]. rewrite ai_targets_of_strs.
  cbn [mbind Dynamic.result_bind].
  destruct (truthy (ai_targets_of names ids db)) eqn:Hfound; [|by exists None].
  apply truthy_nonempty in Hfound.
  destruct (Dynamic.dict_get members «"response_count"») as [count|].
  - destruct count as [| |n| | | |]; try discriminate Hcount.
    apply Z.leb_le in Hcount. eexists. split; [reflexivity|].
    intros ai_targets [= <-]. by apply slice_to_nonempty.
  - eexists. split; [reflexivity|].
    intros ai_targets [= <-]. apply slice_to_nonempty; [lia|exact Hfound].
Qed.

Lemma select_responding_characters_as_asked (ia : Dynamic.intent_analysis)
    (ids : list str) (db : gmap str character) :
  ids ≠ [] →
  Intent.as_asked (Dynamic.ai_analysis ia) = true →
  ∃ chosen, Dynamic.select_responding_characters ia ids db = Dynamic.Ok chosen ∧
            chosen ≠ [].
Proof.
  intros Hids Hshape. unfold Dynamic.select_responding_characters.
  destruct (truthy (Dynamic.mentioned_characters ia)) eqn:Hm;
    [eexists; split; [reflexivity|by apply truthy_nonempty]|].
  destruct (Dynamic.is_greeting ia); [by exists ids|].
  destruct (Dynamic.is_group_message ia); [by exists ids|].
  destruct (by_opinion_as_asked _ ids db Hshape) as (chosen & -> & Hchosen).
  cbn [mbind Dynamic.result_bind].
  destruct chosen as [ai_targets|]; [exists ai_targets; split; [reflexivity|by apply Hchosen]|].
  repeat case_bool_decide;
    try (eexists; split; [reflexivity|apply firstn_nonempty; [lia|exact Hids]]).
  destruct ids; [done|]. cbn. eexists. split; [reflexivity|discriminate].
Qed.

(** On an opinion of the shape [Selector] reads, the selection does not
    raise and returns what [Selector] computes. *)
Lemma select_responding_characters_typed (ia : intent_analysis)
    (ids : list str) (db : gmap str character) :
  Dynamic.select_responding_characters (Dynamic.of_analysis ia) ids db
  = Dynamic.Ok (select_responding_characters ia ids db).
Proof.
  unfold Dynamic.select_responding_characters, select_responding_characters.
  cbn [Dynamic.of_analysis Dynamic.mentioned_characters Dynamic.is_greeting
       Dynamic.is_group_message Dynamic.ai_analysis Dynamic.message_type].
  destruct (truthy (mentioned_characters ia)); [reflexivity|].
  destruct (is_greeting ia); [reflexivity|].
  destruct (is_group_message ia); [reflexivity|].
  assert (Dynamic.by_opinion (Dynamic.of_opinion (ai_analysis ia)) ids db
          = Dynamic.Ok
              (let ai_targets :=
                 if truthy (target_characters (ai_analysis ia))
                 then ai_targets_of (target_characters (ai_analysis ia)) ids db
                 else [] in
               if truthy ai_targets
               then Some (slice_to ai_targets (get_or (response_count (ai_analysis ia)) 2%Z))
               else None)) as ->.
  { unfold Dynamic.by_opinion, Dynamic.of_opinion.
    destruct (ai_analysis ia) as [ty targets why count]. cbn [target_characters response_count].
    assert (truthy (map Dynamic.JStr targets) = truthy targets)
      as Htruthy by (by destruct targets).
    destruct count as [n|]; cbn [app Dynamic.truthy_json truthy].
    - change (Dynamic.dict_get _ «"target_characters"»)
        with (Some (Dynamic.JList (map Dynamic.JStr targets))).
      cbn [Dynamic.truthy_json]. rewrite Htruthy. destruct (truthy targets); [|reflexivity].
      cbn [Dynamic.iterate mbind Dynamic.result_bind]. rewrite ai_targets_of_strs.
      cbn [mbind Dynamic.result_bind].
      destruct (truthy (ai_targets_of targets ids db)); reflexivity.
    - change (Dynamic.dict_get _ «"target_characters"»)
        with (Some (Dynamic.JList (map Dynamic.JStr targets))).
      cbn [Dynamic.truthy_json]. rewrite Htruthy. destruct (truthy targets); [|reflexivity].
      cbn [Dynamic.iterate mbind Dynamic.result_bind]. rewrite ai_targets_of_strs.
      cbn [mbind Dynamic.result_bind].
      destruct (truthy (ai_targets_of targets ids db)); reflexivity. }
  cbn [mbind Dynamic.result_bind]. cbv zeta.
  destruct (truthy (if truthy (target_characters (ai_analysis ia))
                    then ai_targets_of (target_characters (ai_analysis ia)) ids db
                    else [])); [reflexivity|].
  repeat case_bool_decide; try reflexivity. by destruct (truthy ids).
Qed.

Lemma select_responders_typed (reply : option ai_opinion) (msg : str)
    (ids : list str) (db : gmap str character) :
  Dynamic.select_responders (Dynamic.of_opinion <$> reply) msg ids db
  = Dynamic.Ok (select_responders reply msg ids db).
Proof.
  unfold select_responders. rewrite <- select_responding_characters_typed.
  unfold Dynamic.select_responders. f_equal.
  unfold Dynamic.analyze_message_intent, analyze_message_intent, Dynamic.of_analysis.
  cbn [mentioned_characters is_group_message is_greeting ai_analysis message_type confidence].
  f_equal. by destruct reply.
Qed.

(** C2, as the code behaves.  The opinion is used as [json.loads] returns
    it.  When it is an object whose [target_characters], if present, is a
    list of strings and whose [response_count], if present, is an integer
    of at least 1, the selection for a non-empty candidate list does not
    raise and is not empty; this holds for the priority rules on any
    intent analysis and for the selection on any message, the fallback of
    a failed service included. *)
Theorem select_responders_nonempty (ids : list str) (db : gmap str character) :
  ids ≠ [] →
  (∀ ia : Dynamic.intent_analysis,
     Intent.as_asked (Dynamic.ai_analysis ia) = true →
     ∃ chosen, Dynamic.select_responding_characters ia ids db = Dynamic.Ok chosen ∧
               chosen ≠ []) ∧
  (∀ (reply : option Dynamic.json) (msg : str),
     (∀ answer, reply = Some answer → Intent.as_asked answer = true) →
     ∃ chosen, Dynamic.select_responders reply msg ids db = Dynamic.Ok chosen ∧
               chosen ≠ []).
Proof.
  intros Hids. split.
  - intros ia Hshape. by apply select_responding_characters_as_asked.
  - intros reply msg Hshape.
    apply select_responding_characters_as_asked; [exact Hids|].
    unfold Dynamic.analyze_message_intent, Dynamic.get_ai_intent_analysis.
    cbn [Dynamic.ai_analysis].
    destruct reply as [answer|]; [by apply Hshape|].
    unfold Dynamic.fallback_analysis, Intent.as_asked.
    apply andb_true_intro. split; [|reflexivity].
    change (forallb Intent.is_str
              (map Dynamic.JStr
                 (firstn 2 (flat_map (λ char_id, match db !! char_id with
                                                 | Some ch => [name ch]
                                                 | None => []
                                                 end) ids))) = true).
    apply forallb_is_str_map.
Qed.

Lemma select_responders_nonempty_witness :
  ∃ chosen,
    Dynamic.select_responders (Some asked_opinion) «"ok"» [«"naruto"»; «"sasuke"»] ninja_db
    = Dynamic.Ok chosen ∧ chosen ≠ [].
Proof.
  apply (select_responders_nonempty [«"naruto"»; «"sasuke"»] ninja_db);
    [discriminate|]. intros answer [= <-]. vm_compute. reflexivity.
Defined.

(** Outside that shape the selection can raise: on a fractional count, on
    an answer that is a list, and on a target that is a number. *)
Lemma ill_typed_opinion_raises :
  Intent.as_asked fractional_count = false ∧
  Dynamic.select_responders (Some fractional_count) «"ok"» [«"naruto"»; «"sasuke"»] ninja_db
  = Dynamic.Raise Dynamic.TypeError ∧
  Dynamic.select_responders (Some (Dynamic.JList [Dynamic.JStr «"Naruto"»])) «"ok"»
    [«"naruto"»; «"sasuke"»] ninja_db
  = Dynamic.Raise Dynamic.AttributeError ∧
  Dynamic.select_responders (Some number_target) «"ok"» [«"naruto"»; «"sasuke"»] ninja_db
  = Dynamic.Raise Dynamic.AttributeError.
Proof. repeat split; vm_compute; reflexivity. Qed.

(** C2, as stated, fails: an external opinion that names a candidate and
    carries [response_count] 0 empties the selection. *)
Lemma zero_response_count_selects_nobody :
  [«"naruto"»; «"sasuke"»] ≠ [] ∧
  select_responders (Some silent_opinion) «"ok"» [«"naruto"»; «"sasuke"»] ninja_db = [].
Proof. split; [discriminate|]. vm_compute. reflexivity. Qed.

End SelectorProps.

(** ** Relevance scoring *)
Module AppProps.
Import Py App Relevance Samples.

Lemma recent_bonus_loop_spec (last_few : list chat_message) (ch : character) (b : Q) :
  recent_bonus_loop last_few ch b =
  if existsb (fun msg => bool_decide (role msg = Some «"character"») &&
                         bool_decide (msg_character_name msg = Some (name ch))) last_few
  then (b + 0.2)%Q else b.
Proof.
  induction last_few as [|msg msgs IH]; cbn [recent_bonus_loop existsb]; [reflexivity|].
  destruct (bool_decide (role msg = _) && bool_decide (msg_character_name msg = _));
    [reflexivity|exact IH].
Qed.

Lemma keyword_loop_spec (keywords : list str) (message_lower : str) (acc : Z) :
  keyword_loop keywords message_lower acc =
  (acc + Z.of_nat (length (List.filter (fun k => contains message_lower k)
                             (List.filter (fun k => (3 <? length k)%nat) keywords))))%Z.
Proof.
  revert acc. induction keywords as [|k ks IH]; intros acc; cbn [keyword_loop List.filter].
  - cbn. lia.
  - destruct (3 <? length k); cbn [andb List.filter].
    + destruct (contains message_lower k); rewrite IH; cbn [length]; lia.
    + apply IH.
Qed.

Lemma keywords_from_first_words (field : option str) :
  keywords_from field = first_words 5 field.
Proof.
  unfold keywords_from, first_words. destruct field as [text|]; [|reflexivity].
  destruct text; reflexivity.
Qed.

Lemma min_tenths_nonneg (n : nat) : (0 <= Qmin (inject_Z (Z.of_nat n) * 0.1) 0.3)%Q.
Proof.
  apply Q.min_glb; [|discriminate].
  unfold Qle, Qmult, inject_Z. cbn. lia.
Qed.

(** The score in closed form, with the keywords the code draws: five
    words of each description. *)
Lemma calculate_enhanced_relevance_closed (user_message : str) (ch : character)
    (recent_messages : list chat_message) :
  (calculate_enhanced_relevance user_message ch recent_messages
   == relevance_formula 5 user_message ch recent_messages)%Q.
Proof.
  unfold calculate_enhanced_relevance, relevance_formula, matched_keywords,
    keywords_of, spoke_recently.
  rewrite keyword_loop_spec, !keywords_from_first_words, recent_bonus_loop_spec.
  cbn [Z.add].
  assert (∀ b : Q,
    (if truthy recent_messages
     then if existsb (fun msg => bool_decide (role msg = Some «"character"») &&
                                 bool_decide (msg_character_name msg = Some (name ch)))
                     (last_n 3 recent_messages)
          then (b + 0.2)%Q else b
     else b) =
    (if existsb (fun msg => bool_decide (role msg = Some «"character"») &&
                            bool_decide (msg_character_name msg = Some (name ch)))
                (last_n 3 recent_messages)
     then (b + 0.2)%Q else b)) as Hguard.
  { intros b. destruct recent_messages; reflexivity. }
  rewrite Hguard.
  destruct (contains (lower user_message) (lower (name ch)));
    destruct (existsb _ (last_n 3 recent_messages));
    rewrite ?Qplus_0_r; reflexivity.
Qed.

Lemma relevance_formula_bounds (n : nat) (user_message : str) (ch : character)
    (recent_messages : list chat_message) :
  (0 <= relevance_formula n user_message ch recent_messages <= 1)%Q.
Proof.
  unfold relevance_formula. split; [|apply Q.le_min_r].
  apply Q.min_glb; [|discriminate].
  pose proof (min_tenths_nonneg (matched_keywords n user_message ch)) as Hk.
  set (k := Qmin _ 0.3) in *.
  assert (0 <= 0.6 + (if contains (lower user_message) (lower (name ch)) then 0.4 else 0)
               + (if spoke_recently ch recent_messages then 0.2 else 0))%Q as Hb.
  { destruct (contains _ _); destruct (spoke_recently _ _); discriminate. }
  apply (Qle_trans _ (0 + 0)); [discriminate|by apply Qplus_le_compat].
Qed.

(** C3, as the code behaves.  The score is 0.6, plus 0.4 when the
    lower-cased display name occurs in the lower-cased message, plus 0.2
    when the character spoke one of the last three messages, plus 0.1 per
    matched keyword up to 0.3, capped at 1; the keywords are the first 5
    words of the powers and the first 5 words of the personality that are
    longer than 3 characters.  The score lies between 0 and 1. *)
Theorem calculate_enhanced_relevance_formula (user_message : str) (ch : character)
    (recent_messages : list chat_message) :
  (calculate_enhanced_relevance user_message ch recent_messages
   == relevance_formula 5 user_message ch recent_messages)%Q ∧
  (0 <= calculate_enhanced_relevance user_message ch recent_messages <= 1)%Q.
Proof.
  split; [apply calculate_enhanced_relevance_closed|].
  rewrite calculate_enhanced_relevance_closed. apply relevance_formula_bounds.
Qed.

(** C3, as stated, fails: the fourth word of the personality counts as a
    keyword for the code, while the specification stops at the third. *)
Lemma fourth_personality_word_counts :
  (calculate_enhanced_relevance «"be brave"» knight [] == 0.7)%Q ∧
  (spec_relevance_score «"be brave"» knight [] == 0.6)%Q ∧
  ¬ (calculate_enhanced_relevance «"be brave"» knight []
     == spec_relevance_score «"be brave"» knight [])%Q.
Proof.
  assert (calculate_enhanced_relevance «"be brave"» knight [] == 0.7)%Q as Hc
    by (vm_compute; reflexivity).
  assert (spec_relevance_score «"be brave"» knight [] == 0.6)%Q as Hs
    by (vm_compute; reflexivity).
  split; [exact Hc|]. split; [exact Hs|].
  rewrite Hc, Hs. discriminate.
Qed.

End AppProps.

(** ** The matcher on the trigger patterns *)
Module ReProps.
Import Py Re Lines.

Lemma first_after_line (s : str) : s = first_line s ++ after_line s.
Proof.
  induction s as [|c s IH]; cbn; [reflexivity|].
  case_bool_decide; cbn; [reflexivity|]. by f_equal.
Qed.

Lemma consumed_first_line (s : str) :
  firstn (length s - length (after_line s)) s = first_line s.
Proof.
  rewrite (first_after_line s) at 1 3. rewrite length_app.
  replace (length (first_line s) + length (after_line s) - length (after_line s))
    with (length (first_line s)) by lia.
  by rewrite take_app_length.
Qed.

(** A literal matches where the text starts with it, in one way. *)
Lemma run_Lit (lit : str) :
  ∀ (before : option ascii) (s : str) (cs : list (nat * str)),
    ∃ before', run (Lit lit) (mkPos before (lit ++ s) cs) = [mkPos before' s cs].
Proof.
  induction lit as [|a lit IH]; intros before s cs; cbn.
  - eauto.
  - unfold eat. cbn. rewrite bool_decide_eq_true_2 by reflexivity. cbn.
    rewrite app_nil_r. apply IH.
Qed.

Lemma run_Dot (p : pos) :
  run Dot p = eat (λ x, negb (bool_decide (x = newline))) p.
Proof. reflexivity. Qed.

Lemma run_Seq (r1 r2 : regex) (p : pos) :
  run (Seq r1 r2) p = flat_map (run r2) (run r1 p).
Proof. reflexivity. Qed.

Lemma run_Group (n : nat) (r : regex) (p : pos) :
  run (Group n r) p = map (set_cap n p) (run r p).
Proof. reflexivity. Qed.

Lemma run_Plus (r : regex) (p : pos) :
  run (Plus r) p = plus_loop (run r) (S (length (rest p))) p.
Proof. reflexivity. Qed.

Lemma plus_loop_stuck (step : pos → list pos) (fuel : nat) (p : pos) :
  step p = [] → plus_loop step fuel p = [].
Proof. intros H. destruct fuel; cbn; [reflexivity|]. by rewrite H. Qed.

(** [.+] first tries the whole rest of the line. *)
Lemma plus_dot_greedy (fuel : nat) :
  ∀ (t : str) (c : ascii) (before : option ascii) (cs : list (nat * str)),
    c ≠ newline → length t < fuel →
    ∃ before' others,
      plus_loop (run Dot) fuel (mkPos before (c :: t) cs)
      = mkPos before' (after_line t) cs :: others.
Proof.
  induction fuel as [|fuel IH]; intros t c before cs Hc Hlen; [lia|].
  cbn [plus_loop]. rewrite run_Dot. unfold eat. cbn [rest caps].
  rewrite bool_decide_eq_false_2 by exact Hc. cbn [negb flat_map].
  rewrite app_nil_r.
  destruct t as [|c' t'].
  - rewrite plus_loop_stuck by reflexivity. cbn. eauto.
  - cbn [after_line]. case_bool_decide as Hc'.
    + rewrite plus_loop_stuck.
      * cbn. eauto.
      * rewrite run_Dot. unfold eat. cbn [rest].
        by rewrite bool_decide_eq_true_2.
    + destruct (IH t' c' (Some c) cs Hc') as (before' & others & ->);
        [cbn in Hlen; lia|].
      cbn. eauto.
Qed.

(** [LIT(.+)] at a place where [LIT] and one more character of the line
    stand: the group takes the rest of the line. *)
Lemma match_at_lit_capture (lit : str) (before : option ascii) (c : ascii) (t : str) :
  c ≠ newline →
  match_at (lit_capture lit) before (lit ++ c :: t) = Some [(1, first_line (c :: t))].
Proof.
  intros Hc. unfold match_at, lit_capture. rewrite run_Seq.
  destruct (run_Lit lit before (c :: t) []) as (before1 & ->).
  cbn [flat_map]. rewrite app_nil_r, run_Group, run_Plus. cbn [rest].
  destruct (plus_dot_greedy (S (length (c :: t))) t c before1 [] Hc) as
    (before2 & others & ->); [cbn; lia|].
  cbn [map head fmap option_fmap option_map set_cap caps rest].
  unfold consumed. cbn [rest].
  f_equal. f_equal. f_equal.
  assert (after_line (c :: t) = after_line t) as <-
    by (cbn [after_line]; by rewrite bool_decide_eq_false_2).
  apply consumed_first_line.
Qed.

Lemma re_search_lit_capture (lit : str) (c : ascii) (t : str) :
  c ≠ newline →
  re_search (lit_capture lit) (lit ++ c :: t) = Some [(1, first_line (c :: t))].
Proof.
  intros Hc. unfold re_search.
  destruct (lit ++ c :: t) eqn:E; cbn [search_from]; rewrite <- E;
    by rewrite match_at_lit_capture.
Qed.

End ReProps.

(** ** Trigger detection *)
Module TriggerProps.
Import Py Re Orchestrator Lines Samples ReProps.

Lemma first_match_skip (pre ps : list regex) (s : str) :
  (∀ r, r ∈ pre → re_search r s = None) →
  first_match (pre ++ ps) s = first_match ps s.
Proof.
  induction pre as [|r pre IH]; intros Hpre; cbn [app first_match]; [reflexivity|].
  rewrite (Hpre r) by left. apply IH. intros r' Hr'. apply Hpre. by right.
Qed.

Lemma first_match_is_Some (ps : list regex) (s : str) (r : regex) :
  r ∈ ps → is_Some (re_search r s) → is_Some (first_match ps s).
Proof.
  induction 1 as [r ps|r r' ps Hin IH]; intros Hr; cbn [first_match].
  - destruct Hr as [m ->]. eauto.
  - destruct (re_search r' s); eauto.
Qed.

Lemma first_match_None (ps : list regex) (s : str) :
  first_match ps s = None → ∀ r, r ∈ ps → re_search r s = None.
Proof.
  induction ps as [|r' ps IH]; cbn [first_match]; intros Hnone r Hr.
  - by apply not_elem_of_nil in Hr.
  - destruct (re_search r' s) eqn:E; [discriminate|].
    apply elem_of_cons in Hr as [->|Hr]; [exact E|by apply IH].
Qed.

Lemma debate_participants (character_ids : list str) :
  (if 2 <=? length character_ids then firstn 2 character_ids else character_ids)
  = firstn 2 character_ids.
Proof.
  destruct (Nat.leb_spec 2 (length character_ids)); [reflexivity|].
  symmetry. apply firstn_all2. lia.
Qed.

(** The two outcomes of the detection, by the first matching trigger. *)
Lemma detect_autonomous_trigger_cases (user_message : str) (character_ids : list str) :
  detect_autonomous_trigger user_message character_ids =
  match first_match debate_triggers (strip (lower user_message)) with
  | Some m => Some (debate_spec (strip (group 1 m)) character_ids)
  | None =>
      if any_in discussion_keywords (strip (lower user_message))
      then Some (discussion_spec user_message character_ids)
      else None
  end.
Proof.
  unfold detect_autonomous_trigger, debate_spec, discussion_spec.
  destruct (first_match _ _); [|reflexivity].
  by rewrite debate_participants.
Qed.

Lemma lit_trigger_fires (lit : str) (c : ascii) (t : str) :
  lit_capture lit ∈ debate_triggers → c ≠ newline →
  is_Some (first_match debate_triggers (lit ++ c :: t)).
Proof.
  intros Hin Hc. apply (first_match_is_Some _ _ _ Hin).
  rewrite re_search_lit_capture by exact Hc. eauto.
Qed.

Lemma discuss_is_trigger : lit_capture «"discuss "» ∈ debate_triggers.
Proof. unfold debate_triggers. do 2 right. left. Qed.

Lemma talk_about_is_trigger : lit_capture «"talk about "» ∈ debate_triggers.
Proof. unfold debate_triggers. do 6 right. left. Qed.

(** C10, as the code behaves.  When the trimmed lower-cased message is
    "discuss " or "talk about " followed by a topic that does not start
    with a line feed, a debate trigger matches and the detection yields
    the debate spec: topic the trimmed first group of the first matching
    trigger, participants the first two candidates, 8 rounds.  When no
    earlier trigger matches, that group is the rest of the line.  A
    discussion spec comes only from a message that contains a discussion
    keyword and matches no debate trigger; it carries the whole message
    and all candidates, with 6 rounds. *)
Theorem detect_autonomous_trigger_kinds (user_message : str) (character_ids : list str) :
  let message_lower := strip (lower user_message) in
  (∀ (c : ascii) (t : str),
     c ≠ newline →
     message_lower = «"discuss "» ++ c :: t ∨ message_lower = «"talk about "» ++ c :: t →
     ∃ m, first_match debate_triggers message_lower = Some m ∧
          detect_autonomous_trigger user_message character_ids
          = Some (debate_spec (strip (group 1 m)) character_ids)) ∧
  (∀ (c : ascii) (t : str),
     c ≠ newline →
     (message_lower = «"discuss "» ++ c :: t ∧
      (∀ r, r ∈ take 2 debate_triggers → re_search r message_lower = None)) ∨
     (message_lower = «"talk about "» ++ c :: t ∧
      (∀ r, r ∈ take 6 debate_triggers → re_search r message_lower = None)) →
     detect_autonomous_trigger user_message character_ids
     = Some (debate_spec (strip (first_line (c :: t))) character_ids)) ∧
  (∀ cfg, detect_autonomous_trigger user_message character_ids = Some cfg →
     type cfg = «"discussion"» →
     any_in discussion_keywords message_lower = true ∧
     (∀ r, r ∈ debate_triggers → re_search r message_lower = None) ∧
     cfg = discussion_spec user_message character_ids).
Proof.
  cbv zeta. rewrite detect_autonomous_trigger_cases.
  split; [|split].
  - intros c t Hc Hform.
    assert (is_Some (first_match debate_triggers (strip (lower user_message)))) as [m Hm].
    { destruct Hform as [-> | ->].
      - by apply lit_trigger_fires; [apply discuss_is_trigger|].
      - by apply lit_trigger_fires; [apply talk_about_is_trigger|]. }
    exists m. by rewrite Hm.
  - intros c t Hc [[Hform Hpre] | [Hform Hpre]].
    + rewrite <- (take_drop 2 debate_triggers), (first_match_skip _ _ _ Hpre).
      cbn [drop debate_triggers first_match].
      rewrite Hform.
      change (Seq (Lit «"discuss "») (Group 1 (Plus Dot))) with (lit_capture «"discuss "»).
      rewrite (re_search_lit_capture «"discuss "» c t Hc). reflexivity.
    + rewrite <- (take_drop 6 debate_triggers), (first_match_skip _ _ _ Hpre).
      cbn [drop debate_triggers first_match].
      rewrite Hform.
      change (Seq (Lit «"talk about "») (Group 1 (Plus Dot)))
        with (lit_capture «"talk about "»).
      rewrite (re_search_lit_capture «"talk about "» c t Hc). reflexivity.
  - intros cfg. destruct (first_match _ _) as [m|] eqn:Hm.
    + intros [= <-] Ht. discriminate Ht.
    + destruct (any_in discussion_keywords _); [|discriminate].
      intros [= <-] _. split; [reflexivity|]. split; [|reflexivity].
      by apply first_match_None.
Qed.

(** C10, as stated, fails: with the topic on the next line, no debate
    trigger matches "discuss ...", and the keyword makes it a
    discussion. *)
Lemma discuss_next_line_is_discussion :
  strip (lower discuss_next_line) = «"discuss "» ++ newline :: «"the weather"» ∧
  detect_autonomous_trigger discuss_next_line [«"naruto"»; «"sasuke"»]
  = Some (discussion_spec discuss_next_line [«"naruto"»; «"sasuke"»]) ∧
  type (discussion_spec discuss_next_line [«"naruto"»; «"sasuke"»]) ≠ «"debate"».
Proof.
  split; [vm_compute; reflexivity|]. split; [vm_compute; reflexivity|discriminate].
Qed.

Example debate_scenario :
  detect_autonomous_trigger «"debate about ramen vs curry"» [«"naruto"»; «"sasuke"»]
  = Some (debate_spec «"ramen vs curry"» [«"naruto"»; «"sasuke"»]).
Proof. vm_compute. reflexivity. Qed.

Example discuss_scenario :
  detect_autonomous_trigger «"Discuss the best ramen"» [«"naruto"»; «"sasuke"»; «"eve"»]
  = Some (debate_spec «"the best ramen"» [«"naruto"»; «"sasuke"»; «"eve"»]).
Proof. vm_compute. reflexivity. Qed.

Example talk_about_vs_scenario :
  detect_autonomous_trigger «"talk about cats vs dogs"» [«"naruto"»; «"sasuke"»]
  = Some (debate_spec «"talk about cats"» [«"naruto"»; «"sasuke"»]).
Proof. vm_compute. reflexivity. Qed.

Example chat_scenario :
  detect_autonomous_trigger «"have a chat"» [«"naruto"»; «"sasuke"»; «"eve"»]
  = Some (discussion_spec «"have a chat"» [«"naruto"»; «"sasuke"»; «"eve"»]).
Proof. vm_compute. reflexivity. Qed.

End TriggerProps.

(** ** Runs of the autonomous conversation engine *)
Module RunProps.
Import Py Re Orchestrator Turns Run Samples OrchestratorProps.

(** What one tick does, case by case. *)
Lemma tick_cases (groq : prompt → completion) (now : str) (draw : nat)
    (group_id : str) (db : gmap str character) (chats : gmap str config) (c : config) :
  chats !! group_id = Some c →
  let r := generate_autonomous_response groq now draw group_id db chats in
  (should_end_conversation c = true ∧
   r = (Return [concluded_message c], delete group_id chats)) ∨
  (should_end_conversation c = false ∧
   ((select_next_speaker draw c = IndexError ∧ r = (IndexError, chats)) ∨
    r = (Return [], chats) ∨
    ∃ next ch text,
      select_next_speaker draw c = Return (Some next) ∧
      truthy next = true ∧ db !! next = Some ch ∧
      text = generate_character_autonomous_response groq ch c db ∧
      truthy text = true ∧
      r = (Return [turn_message next ch text],
           <[group_id := record_turn c next text now]> chats))).
Proof.
  intros Hc. cbv zeta. unfold generate_autonomous_response. rewrite Hc.
  destruct (should_end_conversation c) eqn:Hend.
  - left. split; [reflexivity|]. by rewrite end_autonomous_conversation_delete.
  - right. split; [reflexivity|].
    destruct (select_next_speaker draw c) as [[next|]|] eqn:Hsel; [|by right; left|by left].
    destruct (truthy next) eqn:Hnext; cbn [negb]; [|by right; left].
    destruct (db !! next) as [ch|] eqn:Hdb; [|by right; left].
    destruct (truthy (generate_character_autonomous_response groq ch c db)) eqn:Htext;
      [|by right; left].
    right. right.
    exists next, ch, (generate_character_autonomous_response groq ch c db). eauto 10.
Qed.

(** A tick either leaves the entry alone or records one turn. *)
Lemma ticks_to_cases (c c' : config) :
  ticks_to c c' →
  c' = c ∨
  (should_end_conversation c = false ∧
   ∃ draw next text now,
     select_next_speaker draw c = Return (Some next) ∧
     truthy next = true ∧ truthy text = true ∧
     c' = record_turn c next text now).
Proof.
  intros (groq & now & draw & g & db & chats & Hc & Hc').
  destruct (tick_cases groq now draw g db chats c Hc) as
    [[_ Hr]|[Hend [[_ Hr]|[Hr|(next & ch & text & Hsel & Hn & Hdb & _ & Ht & Hr)]]]];
    cbv zeta in Hr; rewrite Hr in Hc'; cbn [snd] in Hc'.
  - by rewrite lookup_delete_eq in Hc'.
  - left. congruence.
  - left. congruence.
  - right. split; [exact Hend|]. rewrite lookup_insert_eq in Hc'.
    exists draw, next, text, now. injection Hc' as <-. eauto 10.
Qed.

(** An invariant of the recorded turns holds in every reachable state
    once it holds at the start and is kept by a recorded turn. *)
Lemma reachable_ind (spec : config) (now0 : str) (P : config → Prop) :
  P (set_started spec now0) →
  (∀ c draw next text now,
     P c → should_end_conversation c = false →
     select_next_speaker draw c = Return (Some next) →
     truthy next = true → truthy text = true →
     P (record_turn c next text now)) →
  ∀ c, reachable spec now0 c → P c.
Proof.
  intros H0 Hstep c Hreach. unfold reachable in Hreach.
  revert c Hreach. apply rtc_ind_r; [exact H0|].
  intros c1 c2 Hrtc Htick IH.
  apply ticks_to_cases in Htick
    as [->|(Hend & draw & next & text & now & Hsel & Hne & Ht & ->)];
    [exact IH|].
  by apply (Hstep c1 draw).
Qed.

(** Whoever is selected is a participant. *)
Lemma select_next_speaker_elem (draw : nat) (c : config) (x : str) :
  select_next_speaker draw c = Return (Some x) → x ∈ participants c.
Proof.
  assert (∀ ps : list str, head ps = Some x → x ∈ ps) as Hhead.
  { intros [|p ps]; [discriminate|]. intros [= ->]. left. }
  assert (∀ ps : list str, first_participant ps = Return (Some x) → x ∈ ps) as Hfirst.
  { intros [|p ps]; [discriminate|]. intros [= ->]. left. }
  unfold select_next_speaker.
  destruct (last_speaker c) as [last|]; [|intros [= Hx]; by apply Hhead].
  destruct (truthy last); cbn [negb]; [|intros [= Hx]; by apply Hhead].
  case_bool_decide as Hdebate.
  - destruct (index_of last (participants c)); [|by apply Hfirst].
    intros [= Hx]. by eapply list_elem_of_lookup_2.
  - case_bool_decide as Hdisc; [|by apply Hfirst].
    destruct (truthy _) eqn:Hav; [|by apply Hfirst].
    intros [= Hx]. unfold random_choice in Hx.
    apply list_elem_of_lookup_2 in Hx. by apply list_elem_of_filter in Hx as [_ Hx].
Qed.

(** A tick for a group without an entry answers nothing and changes
    nothing. *)
Lemma tick_absent (groq : prompt → completion) (now : str) (draw : nat)
    (group_id : str) (db : gmap str character) (chats : gmap str config) :
  chats !! group_id = None →
  generate_autonomous_response groq now draw group_id db chats = (Return [], chats).
Proof. intros Hc. unfold generate_autonomous_response. by rewrite Hc. Qed.

(** X2.  A tick returns at most one message.  If it is a character's
    message, the character is a participant with a non-empty id known to
    the store, the text is not empty, and exactly this turn is recorded
    for the group; otherwise it is the system's notice and the group is no
    longer active. *)
Theorem tick_message_sound (groq : prompt → completion) (now : str) (draw : nat)
    (group_id : str) (db : gmap str character) (chats : gmap str config)
    (c : config) (msgs : list message) :
  chats !! group_id = Some c →
  fst (generate_autonomous_response groq now draw group_id db chats) = Return msgs →
  let chats' := snd (generate_autonomous_response groq now draw group_id db chats) in
  msgs = [] ∨
  (msgs = [concluded_message c] ∧ is_autonomous_active group_id chats' = false) ∨
  (∃ next ch text,
     msgs = [turn_message next ch text] ∧
     next ∈ participants c ∧ truthy next = true ∧ db !! next = Some ch ∧
     truthy text = true ∧
     chats' !! group_id = Some (record_turn c next text now)).
Proof.
  intros Hc. cbv zeta.
  destruct (tick_cases groq now draw group_id db chats c Hc) as
    [[_ Hr]|[_ [[_ Hr]|[Hr|(next & ch & text & Hsel & Hn & Hdb & _ & Ht & Hr)]]]];
    cbv zeta in Hr; rewrite Hr; cbn [fst snd].
  - intros [= <-]. right. left. split; [reflexivity|].
    apply bool_decide_eq_false. rewrite lookup_delete_eq. by intros [? ?].
  - discriminate.
  - intros [= <-]. by left.
  - intros [= <-]. right. right. exists next, ch, text.
    split; [reflexivity|]. split; [by eapply select_next_speaker_elem|].
    by rewrite lookup_insert_eq.
Qed.

Lemma tick_message_sound_witness :
  let r := generate_autonomous_response believe_it «"t1"» 0 «"g1"» ninja_db two_groups in
  fst r = Return [turn_message «"naruto"» naruto «"Believe it!"»] ∧
  snd r !! «"g1"» = Some debate_after_one.
Proof.
  cbv zeta.
  assert (two_groups !! «"g1"» = Some (set_started debate_of_two «"t0"»)) as Hc
    by (vm_compute; reflexivity).
  assert (fst (generate_autonomous_response believe_it «"t1"» 0 «"g1"» ninja_db two_groups)
          = Return [turn_message «"naruto"» naruto «"Believe it!"»]) as Hm
    by (vm_compute; reflexivity).
  split; [exact Hm|].
  destruct (tick_message_sound believe_it «"t1"» 0 «"g1"» ninja_db two_groups _ _ Hc Hm)
    as [Hnil|[[Hsys _]|(next & ch & text & Hmsg & _ & _ & _ & _ & Hrec)]].
  - discriminate Hnil.
  - discriminate Hsys.
  - injection Hmsg as <- _ <-. exact Hrec.
Defined.

Lemma sound_entry_record (c : config) (e : entry) (next text now : str) :
  sound_entry c e → sound_entry (record_turn c next text now) e.
Proof. by intros H. Qed.

Lemma well_formed_start (spec : config) (now0 : str) :
  well_formed spec now0 (set_started spec now0).
Proof. unfold well_formed. cbn. repeat split; constructor. Qed.

Lemma well_formed_record (spec : config) (now0 : str)
    (c : config) (draw : nat) (next text now : str) :
  well_formed spec now0 c →
  select_next_speaker draw c = Return (Some next) →
  truthy next = true → truthy text = true →
  well_formed spec now0 (record_turn c next text now).
Proof.
  intros (Hty & Hto & Hp & Hm & Hd & Hs & Hl & Hall) Hsel Hn Ht.
  unfold well_formed. cbn [record_turn type topic participants max_rounds duration
    started_at last_speaker conversation_history].
  repeat (split; [assumption|]). split.
  - by rewrite last_snoc.
  - apply Forall_app. split.
    + eapply Forall_impl; [exact Hall|]. intros e He. exact He.
    + constructor; [|constructor]. split; [|by repeat split].
      cbn. by eapply select_next_speaker_elem.
Qed.

(** Every reachable state is well formed. *)
Lemma reachable_well_formed (spec : config) (now0 : str) (c : config) :
  reachable spec now0 c → well_formed spec now0 c.
Proof.
  apply reachable_ind; [apply well_formed_start|].
  intros c1 draw next text now Hwf _ Hsel Hn Ht.
  by eapply well_formed_record.
Qed.

Lemma should_end_false_below_limit (c : config) :
  should_end_conversation c = false →
  (current_round c < inject_Z (round_limit c))%Q.
Proof.
  rewrite should_end_conversation_unfold. intros [H _]%orb_false_iff.
  by apply Qle_bool_false.
Qed.

Lemma half_of_succ (n : nat) (q : Q) :
  (q + inject_Z (Z.of_nat n) * 0.5 + 0.5 == q + inject_Z (Z.of_nat (S n)) * 0.5)%Q.
Proof. rewrite Nat2Z.inj_succ, <- Z.add_1_r, inject_Z_plus. ring. Qed.

(** The round counter and the round limit along a run. *)
Lemma reachable_rounds (spec : config) (now0 : str)
    (c : config) :
  reachable spec now0 c →
  max_rounds c = max_rounds spec ∧
  (current_round c
   == current_round spec + inject_Z (Z.of_nat (length (conversation_history c))) * 0.5)%Q ∧
  (conversation_history c = [] ∨
   (current_round c - 0.5 < inject_Z (round_limit spec))%Q).
Proof.
  intros Hreach. pattern c. revert c Hreach. apply reachable_ind.
  - cbn. split; [reflexivity|]. split; [ring|by left].
  - intros c1 draw next text now (Hm & Hr & _) Hend _ _ _.
    cbn [record_turn max_rounds current_round conversation_history].
    split; [exact Hm|]. split.
    + rewrite length_app. cbn [length]. rewrite Nat.add_1_r, Hr. apply half_of_succ.
    + right. apply should_end_false_below_limit in Hend.
      unfold round_limit in *. rewrite Hm in Hend.
      assert (current_round c1 + 0.5 - 0.5 == current_round c1)%Q as -> by ring.
      exact Hend.
Qed.

(** X3.  Along a run the type, topic, participants, round limit and start
    time of a started conversation never change, and the round counter is
    its initial value plus half the number of recorded turns. *)
Theorem reachable_round_counts_turns (spec : config)
    (now0 : str) (c : config) :
  reachable spec now0 c →
  (current_round c
   == current_round spec + inject_Z (Z.of_nat (length (conversation_history c))) * 0.5)%Q ∧
  type c = type spec ∧ topic c = topic spec ∧ participants c = participants spec ∧
  max_rounds c = max_rounds spec ∧ started_at c = Some now0.
Proof.
  intros Hreach.
  destruct (reachable_rounds _ _ _ Hreach) as (_ & Hr & _).
  destruct (reachable_well_formed _ _ _ Hreach) as (Hty & Hto & Hp & Hm & _ & Hs & _).
  auto 10.
Qed.

(** The debate of two is reachable after its first turn. *)
Lemma debate_after_one_reachable : reachable debate_of_two «"t0"» debate_after_one.
Proof.
  apply rtc_once. exists believe_it, «"t1"», 0, «"g1"», ninja_db, two_groups.
  split; vm_compute; reflexivity.
Qed.

Lemma reachable_round_counts_turns_witness :
  (current_round debate_after_one == 0 + inject_Z 1 * 0.5)%Q.
Proof.
  exact (proj1 (reachable_round_counts_turns debate_of_two «"t0"»
                  debate_after_one debate_after_one_reachable)).
Defined.

(** X4.  A conversation started at round 0 never records more than twice
    its round limit of turns (none if the limit is negative): at most 16
    for a detected debate and 12 for a detected discussion. *)
Theorem reachable_turn_bound (spec : config)
    (now0 : str) (c : config) :
  reachable spec now0 c →
  (current_round spec == 0)%Q →
  (Z.of_nat (length (conversation_history c)) ≤ Z.max 0 (2 * round_limit spec))%Z ∧
  (∀ msg ids, detect_autonomous_trigger msg ids = Some spec →
     length (conversation_history c) ≤ 16 ∧
     (type spec = «"discussion"» → length (conversation_history c) ≤ 12)).
Proof.
  intros Hreach H0.
  destruct (reachable_rounds _ _ _ Hreach) as (_ & Hr & Hlast).
  assert (Z.of_nat (length (conversation_history c)) ≤ Z.max 0 (2 * round_limit spec))%Z
    as Hbound.
  { destruct Hlast as [->|Hlt]; [cbn; lia|].
    rewrite Hr, H0 in Hlt. revert Hlt.
    generalize (Z.of_nat (length (conversation_history c))) (round_limit spec).
    intros n m. unfold Qlt, Qminus, Qplus, Qmult, Qopp, inject_Z. cbn. lia. }
  split; [exact Hbound|].
  intros msg ids Hdet. unfold detect_autonomous_trigger in Hdet.
  destruct (first_match _ _).
  - injection Hdet as <-. unfold round_limit in Hbound. cbn in Hbound.
    split; [lia|]. intros Ht. discriminate Ht.
  - destruct (any_in _ _); [|discriminate]. injection Hdet as <-.
    unfold round_limit in Hbound. cbn in Hbound. split; [lia|]. intros _. lia.
Qed.

Lemma reachable_turn_bound_witness :
  (Z.of_nat (length (conversation_history debate_after_one)) ≤ Z.max 0 (2 * 8))%Z.
Proof.
  exact (proj1 (reachable_turn_bound debate_of_two «"t0"» debate_after_one
                  debate_after_one_reachable (Qeq_refl 0))).
Defined.

Lemma last_map {A B} (f : A → B) (l : list A) : last (map f l) = f <$> last l.
Proof.
  induction l as [|a [|b l] IH]; [reflexivity..|].
  change (last (f a :: map f (b :: l)) = f <$> last (a :: b :: l)).
  cbn [last] in *. exact IH.
Qed.

Lemma no_repeat_snoc (l : list str) (x : str) :
  no_repeat l → last l ≠ Some x → no_repeat (l ++ [x]).
Proof.
  intros Hl Hlast i a b Ha Hb.
  destruct (decide (S i < length l)) as [Hlt|Hge].
  - rewrite lookup_app_l in Ha by lia. rewrite lookup_app_l in Hb by lia.
    by apply (Hl i).
  - assert (S i = length l) as Hi.
    { apply lookup_lt_Some in Hb. rewrite length_app in Hb. cbn in Hb. lia. }
    rewrite lookup_app_l in Ha by lia.
    rewrite lookup_app_r in Hb by lia.
    replace (S i - length l) with 0 in Hb by lia. cbn in Hb. injection Hb as <-.
    intros ->. apply Hlast. rewrite last_lookup.
    by replace (pred (length l)) with i by lia.
Qed.

(** With at least two different participants, the speaker after [last]
    is someone else, in a debate as in a discussion. *)
Lemma next_speaker_differs (draw : nat) (c : config) (last next : str) :
  type c = «"debate"» ∨ type c = «"discussion"» →
  NoDup (participants c) → 2 ≤ length (participants c) →
  last_speaker c = Some last → truthy last = true → last ∈ participants c →
  select_next_speaker draw c = Return (Some next) →
  next ≠ last.
Proof.
  intros [Ht|Ht] Hnd Hlen Hl Hne Hin.
  - rewrite (debate_next_after_last _ _ _ Ht Hl Hne).
    destruct (index_of_elem _ _ Hin) as [i Hi]. rewrite Hi.
    apply index_of_lookup in Hi. intros [= Hnext] ->.
    pose proof (lookup_lt_Some _ _ _ Hi) as Hlt.
    pose proof (NoDup_lookup _ _ _ _ Hnd Hi Hnext) as Heq.
    destruct (decide (i + 1 < length (participants c))) as [Hs|Hs].
    + rewrite Nat.mod_small in Heq by lia. lia.
    + replace (i + 1) with (length (participants c)) in Heq by lia.
      rewrite Nat.Div0.mod_same in Heq. lia.
  - rewrite (discussion_next_after_last _ _ _ Ht Hl Hne). cbv zeta.
    destruct (filter (λ p, p ≠ last) (participants c)) as [|a av] eqn:Hav.
    + exfalso. destruct (participants c) as [|p1 [|p2 ps]] eqn:Hp; cbn in Hlen; try lia.
      apply NoDup_cons in Hnd as [Hp1 _].
      assert (p1 ∈ filter (λ p, p ≠ last) (p1 :: p2 :: ps) ∨
              p2 ∈ filter (λ p, p ≠ last) (p1 :: p2 :: ps)) as Hsome.
      { destruct (decide (p1 = last)) as [->|Hp1l].
        - right. apply list_elem_of_filter. split; [|right; left].
          intros ->. apply Hp1. left.
        - left. apply list_elem_of_filter. split; [exact Hp1l|left]. }
      rewrite Hav in Hsome. destruct Hsome as [H|H]; by apply not_elem_of_nil in H.
    + cbn [truthy]. intros [= Hnext]. unfold random_choice in Hnext.
      apply list_elem_of_lookup_2 in Hnext. rewrite <- Hav in Hnext.
      by apply list_elem_of_filter in Hnext as [Hneq _].
Qed.

(** The last speaker of a well-formed state is a sound participant. *)
Lemma well_formed_last_speaker (spec : config) (now0 : str)
    (c : config) (who : str) :
  well_formed spec now0 c → last_speaker c = Some who →
  Some who = last_of_speakers c ∧ truthy who = true ∧ who ∈ participants c.
Proof.
  intros (_ & _ & _ & _ & _ & _ & Hl & Hall) Hlast.
  unfold last_of_speakers, speakers. rewrite last_map, <- Hl, Hlast.
  split; [reflexivity|].
  rewrite Hlast in Hl. destruct (last (conversation_history c)) as [e|] eqn:He;
    [|discriminate]. injection Hl as ->.
  apply last_Some in He as [h Hh]. rewrite Hh in Hall.
  apply Forall_app in Hall as [_ Hall].
  apply Forall_singleton in Hall as (Hin & Hne & _). by split.
Qed.

(** X5.  In a debate or a discussion whose participants are at least two
    and pairwise different, no character ever takes two recorded turns in
    a row, whatever the random draws and the answers of the service. *)
Theorem reachable_no_speaker_twice (spec : config)
    (now0 : str) (c : config) :
  reachable spec now0 c →
  type spec = «"debate"» ∨ type spec = «"discussion"» →
  NoDup (participants spec) → 2 ≤ length (participants spec) →
  no_repeat (speakers c).
Proof.
  intros Hreach Ht Hnd Hlen.
  enough (well_formed spec now0 c ∧ no_repeat (speakers c)) as [_ H] by exact H.
  pattern c. revert c Hreach. apply reachable_ind.
  - split; [apply well_formed_start|]. intros i x y Hx. discriminate Hx.
  - intros c draw next text now [Hwf Hnr] _ Hsel Hn Htext.
    split; [by eapply well_formed_record|].
    unfold speakers. cbn [record_turn conversation_history].
    rewrite map_app. cbn [map speaker]. apply no_repeat_snoc; [exact Hnr|].
    intros Hlast.
    assert (last_speaker c = Some next) as Hl.
    { destruct Hwf as (_ & _ & _ & _ & _ & _ & Hl & _).
      by rewrite Hl, <- last_map. }
    destruct (well_formed_last_speaker _ _ _ _ Hwf Hl) as (_ & Hne & Hin).
    destruct Hwf as (Hty & _ & Hp & _).
    assert (next ≠ next) as Hcontra; [|by apply Hcontra].
    apply (next_speaker_differs draw c next next); rewrite ?Hty, ?Hp; auto.
    by rewrite <- Hp.
Qed.

Lemma debate_after_two_reachable : reachable debate_of_two «"t0"» debate_after_two.
Proof.
  eapply rtc_r; [apply debate_after_one_reachable|].
  exists believe_it, «"t2"», 0, «"g1"», ninja_db, {[ «"g1"» := debate_after_one ]}.
  split; vm_compute; reflexivity.
Qed.

Lemma reachable_no_speaker_twice_witness : no_repeat (speakers debate_after_two).
Proof.
  apply (reachable_no_speaker_twice debate_of_two «"t0"» debate_after_two
           debate_after_two_reachable).
  - left. reflexivity.
  - apply NoDup_cons. split; [|apply NoDup_singleton].
    intros H%list_elem_of_singleton. discriminate H.
  - cbn. lia.
Defined.

(** X6.  In a debate between two different participants A and B, the
    recorded turns are taken by A, B, A, B, ... in this order, however
    many ticks were silent in between. *)
Theorem reachable_debate_alternates (spec : config)
    (now0 : str) (c : config) (A B : str) :
  reachable spec now0 c →
  type spec = «"debate"» → participants spec = [A; B] → A ≠ B →
  ∀ i e, conversation_history c !! i = Some e →
         speaker e = if Nat.even i then A else B.
Proof.
  intros Hreach Ht Hps Hne.
  enough (well_formed spec now0 c ∧
          ∀ i e, conversation_history c !! i = Some e →
                 speaker e = if Nat.even i then A else B) as [_ H] by exact H.
  pattern c. revert c Hreach. apply reachable_ind.
  - split; [apply well_formed_start|]. intros i e He. discriminate He.
  - intros c draw next text now [Hwf Halt] _ Hsel Hn Htext.
    split; [by eapply well_formed_record|].
    cbn [record_turn conversation_history]. intros i e He.
    destruct (decide (i < length (conversation_history c))) as [Hlt|Hge].
    { rewrite lookup_app_l in He by exact Hlt. by apply Halt. }
    assert (i = length (conversation_history c)) as ->.
    { apply lookup_lt_Some in He. rewrite length_app in He. cbn in He. lia. }
    rewrite lookup_app_r, Nat.sub_diag in He by lia. injection He as <-. cbn [speaker].
    pose proof Hwf as (Hty & _ & Hp & _ & _ & _ & Hl & _).
    destruct (last (conversation_history c)) as [e|] eqn:Hlast_e.
    + pose proof Hlast_e as Hlook. rewrite last_lookup in Hlook.
      apply Halt in Hlook. cbn in Hl.
      destruct (well_formed_last_speaker _ _ _ _ Hwf Hl) as (_ & Hes & _).
      rewrite Ht in Hty. rewrite (debate_next_after_last _ _ _ Hty Hl Hes) in Hsel.
      rewrite Hp, Hps in Hsel.
      apply last_Some in Hlast_e as [h Hh]. rewrite Hh, length_app in *.
      cbn [length] in *. replace (pred (length h + 1)) with (length h) in Hlook by lia.
      rewrite Nat.add_1_r, Nat.even_succ, <- Nat.negb_even.
      destruct (Nat.even (length h)); cbn [negb]; rewrite Hlook in Hsel;
        cbn [index_of] in Hsel.
      * rewrite bool_decide_eq_true_2 in Hsel by reflexivity. by injection Hsel as <-.
      * rewrite bool_decide_eq_false_2 in Hsel by exact Hne.
        rewrite bool_decide_eq_true_2 in Hsel by reflexivity. by injection Hsel as <-.
    + apply last_None in Hlast_e. rewrite Hlast_e in *. cbn in Hl.
      rewrite select_next_speaker_unset in Hsel by (by rewrite Hl).
      rewrite Hp, Hps in Hsel. by injection Hsel as <-.
Qed.

Lemma reachable_debate_alternates_witness :
  speakers debate_after_two = [«"naruto"»; «"sasuke"»] ∧
  ∀ i e, conversation_history debate_after_two !! i = Some e →
         speaker e = if Nat.even i then «"naruto"» else «"sasuke"».
Proof.
  split; [reflexivity|].
  apply (reachable_debate_alternates debate_of_two «"t0"» debate_after_two
           «"naruto"» «"sasuke"» debate_after_two_reachable);
    [reflexivity|reflexivity|discriminate].
Defined.

(** Below the repetition threshold means at least three distinct texts. *)
Lemma should_end_false_distinct (c : config) :
  should_end_conversation c = false → 4 ≤ length (conversation_history c) →
  3 ≤ distinct_count (recent_texts c).
Proof.
  rewrite should_end_conversation_unfold. intros [_ H]%orb_false_iff Hlen.
  rewrite (proj2 (Nat.leb_le _ _) Hlen) in H. cbn [andb] in H.
  apply negb_false_iff, Qle_bool_iff in H.
  destruct (decide (distinct_count (recent_texts c) ≤ 2)) as [Hfew|]; [|lia].
  apply few_distinct_below_threshold in Hfew. exfalso. by apply (Qlt_not_le _ _ Hfew).
Qed.

Lemma window_last_four (c : config) :
  4 ≤ length (conversation_history c) →
  window (length (conversation_history c) - 4) c = recent_texts c.
Proof.
  intros Hlen. unfold window, recent_texts, last_n. f_equal.
  apply firstn_all2. rewrite length_skipn. lia.
Qed.

Lemma window_record (c : config) (next text now : str) (i : nat) :
  i + 4 ≤ length (conversation_history c) →
  window i (record_turn c next text now) = window i c.
Proof.
  intros Hi. unfold window. cbn [record_turn conversation_history]. f_equal.
  rewrite skipn_app. replace (i - length (conversation_history c)) with 0 by lia.
  cbn [skipn]. apply take_app_le. rewrite length_skipn. lia.
Qed.

(** X7.  Along a run, every four consecutive recorded turns that are
    followed by a further recorded turn carry at least three distinct
    lower-cased texts: a conversation is never continued past a
    repetitive window. *)
Theorem reachable_windows_distinct (spec : config)
    (now0 : str) (c : config) (i : nat) :
  reachable spec now0 c →
  i + 4 < length (conversation_history c) →
  3 ≤ distinct_count (window i c).
Proof.
  intros Hreach. revert i. pattern c. revert c Hreach. apply reachable_ind.
  - intros i Hi. cbn in Hi. lia.
  - intros c draw next text now IH Hend _ _ _ i Hi.
    cbn [record_turn conversation_history] in Hi. rewrite length_app in Hi.
    cbn [length] in Hi. rewrite window_record by lia.
    destruct (decide (i + 4 < length (conversation_history c))) as [Hlt|Hge];
      [by apply IH|].
    replace i with (length (conversation_history c) - 4) by lia.
    rewrite window_last_four by lia. apply should_end_false_distinct; [exact Hend|lia].
Qed.

(** One more tick with a fixed answer, from a one-group registry. *)
Lemma reachable_answer (db : gmap str character) (spec : config) (now0 : str)
    (c c' : config) (text : str) :
  reachable spec now0 c →
  snd (generate_autonomous_response (answering text) «"t"» 0 «"g1"» db {[ «"g1"» := c ]})
    !! «"g1"» = Some c' →
  reachable spec now0 c'.
Proof.
  intros Hreach Htick. eapply rtc_r; [exact Hreach|].
  exists (answering text), «"t"», 0, «"g1"», db, {[ «"g1"» := c ]}.
  split; [apply lookup_singleton_eq|exact Htick].
Qed.

Lemma debate_after_five_reachable :
  reachable debate_of_two «"t0"» debate_after_five.
Proof.
  pose (start := set_started debate_of_two «"t0"»).
  pose (after := debate_turns start «"naruto"» «"sasuke"»).
  assert (reachable debate_of_two «"t0"» (after [])) as H0 by apply rtc_refl.
  assert (reachable debate_of_two «"t0"» (after [«"one"»])) as H1
    by (apply (reachable_answer ninja_db _ _ _ _ «"one"» H0); vm_compute; reflexivity).
  assert (reachable debate_of_two «"t0"» (after [«"one"»; «"two"»])) as H2
    by (apply (reachable_answer ninja_db _ _ _ _ «"two"» H1); vm_compute; reflexivity).
  assert (reachable debate_of_two «"t0"»
            (after [«"one"»; «"two"»; «"three"»])) as H3
    by (apply (reachable_answer ninja_db _ _ _ _ «"three"» H2); vm_compute; reflexivity).
  assert (reachable debate_of_two «"t0"»
            (after [«"one"»; «"two"»; «"three"»; «"four"»])) as H4
    by (apply (reachable_answer ninja_db _ _ _ _ «"four"» H3); vm_compute; reflexivity).
  apply (reachable_answer ninja_db _ _ _ _ «"five"» H4). vm_compute. reflexivity.
Qed.

Lemma reachable_windows_distinct_witness :
  3 ≤ distinct_count (window 0 debate_after_five).
Proof.
  apply (reachable_windows_distinct debate_of_two «"t0"» debate_after_five 0
           debate_after_five_reachable).
  vm_compute. lia.
Defined.

(** X8.  When the round limit or the repetition guard is hit, the tick
    answers the system's notice with the type and the round counter,
    removes the group, and every later tick for the group answers nothing
    and changes nothing. *)
Theorem tick_concludes (groq groq' : prompt → completion) (now now' : str)
    (draw draw' : nat) (group_id : str) (db : gmap str character)
    (chats : gmap str config) (c : config) :
  chats !! group_id = Some c →
  should_end_conversation c = true →
  let r := generate_autonomous_response groq now draw group_id db chats in
  r = (Return [concluded_message c], delete group_id chats) ∧
  is_autonomous_active group_id (snd r) = false ∧
  generate_autonomous_response groq' now' draw' group_id db (snd r) = (Return [], snd r).
Proof.
  intros Hc Hend. cbv zeta.
  destruct (tick_cases groq now draw group_id db chats c Hc) as [[_ Hr]|[Hf _]];
    [|congruence].
  cbv zeta in Hr. rewrite Hr. cbn [snd]. split; [reflexivity|]. split.
  - apply bool_decide_eq_false. rewrite lookup_delete_eq. by intros [? ?].
  - apply tick_absent, lookup_delete_eq.
Qed.

Lemma tick_concludes_witness :
  generate_autonomous_response believe_it «"t1"» 0 «"g1"» ninja_db
    {[ «"g1"» := debate_at_limit ]}
  = (Return [concluded_message debate_at_limit], delete «"g1"» {[ «"g1"» := debate_at_limit ]}).
Proof.
  refine (proj1 (tick_concludes believe_it believe_it «"t1"» «"t2"» 0 0 «"g1"» ninja_db
                   {[ «"g1"» := debate_at_limit ]} debate_at_limit _ _)).
  - apply lookup_singleton_eq.
  - vm_compute. reflexivity.
Defined.

Lemma strip_blank (s : str) : Forall (λ c, is_space c = true) s → strip s = [].
Proof.
  intros Hs. unfold strip, rstrip.
  assert (lstrip s = []) as ->.
  { induction Hs as [|c s Hc _ IH]; [reflexivity|]. cbn. by rewrite Hc. }
  reflexivity.
Qed.

(** X10.  When the service answers with whitespace only, a tick of an
    active conversation records nothing: the registry is unchanged and no
    message is returned (the call can still raise on an empty participant
    list). *)
Theorem tick_blank_answer (groq : prompt → completion) (now : str) (draw : nat)
    (group_id : str) (db : gmap str character) (chats : gmap str config) (c : config) :
  chats !! group_id = Some c →
  should_end_conversation c = false →
  (∀ p, ∃ content, groq p = Choice content ∧ Forall (λ x, is_space x = true) content) →
  let r := generate_autonomous_response groq now draw group_id db chats in
  snd r = chats ∧ (fst r = Return [] ∨ fst r = IndexError).
Proof.
  intros Hc Hend Hblank. cbv zeta.
  destruct (tick_cases groq now draw group_id db chats c Hc) as
    [[Ht _]|[_ [[_ Hr]|[Hr|(next & ch & text & _ & _ & _ & Htext & Ht & _)]]]];
    [congruence|cbv zeta in Hr; rewrite Hr; cbn; auto..|].
  exfalso. unfold generate_character_autonomous_response in Htext.
  destruct (Hblank (autonomous_prompt ch c db)) as (content & Hg & Hs).
  rewrite Hg, (strip_blank _ Hs) in Htext. cbn in Htext. by subst.
Qed.

Lemma tick_blank_answer_witness :
  snd (generate_autonomous_response (answering «"   "») «"t1"» 0 «"g1"» ninja_db two_groups)
  = two_groups.
Proof.
  refine (proj1 (tick_blank_answer (answering «"   "») «"t1"» 0 «"g1"» ninja_db two_groups
                   (set_started debate_of_two «"t0"») _ _ _)).
  - vm_compute. reflexivity.
  - vm_compute. reflexivity.
  - intros p. exists «"   "». split; [reflexivity|]. by repeat constructor.
Defined.

(** X11.  With a non-empty participant list the selection always returns
    a participant: it never returns nothing and never raises, whatever the
    type, the last speaker and the draw.  With an empty list it returns
    nothing or raises. *)
Theorem select_next_speaker_participant (draw : nat) (c : config) :
  (participants c ≠ [] →
     ∃ x, select_next_speaker draw c = Return (Some x) ∧ x ∈ participants c) ∧
  (participants c = [] →
     select_next_speaker draw c = Return None ∨ select_next_speaker draw c = IndexError).
Proof.
  split.
  - intros Hps.
    enough (∃ x, select_next_speaker draw c = Return (Some x)) as [x Hx].
    { exists x. split; [exact Hx|]. by eapply select_next_speaker_elem. }
    unfold select_next_speaker.
    destruct (participants c) as [|p ps] eqn:Hp; [done|].
    destruct (last_speaker c) as [who|]; [|cbn; eauto].
    destruct (truthy who); cbn [negb]; [|cbn; eauto].
    case_bool_decide as Hdebate.
    + destruct (index_of who (p :: ps)) as [i|]; [|cbn; eauto].
      destruct (lookup_lt_is_Some_2 (p :: ps) ((i + 1) mod length (p :: ps)))
        as [x Hx]; [apply Nat.mod_upper_bound; cbn; lia|].
      rewrite Hx. eauto.
    + case_bool_decide as Hdisc; [|cbn; eauto].
      destruct (filter (λ q, q ≠ who) (p :: ps)) as [|a av] eqn:Hav; [cbn; eauto|].
      cbn [truthy]. destruct (random_choice_elem draw (a :: av)) as (x & Hx & _); [done|].
      rewrite Hx. eauto.
  - intros Hps. unfold select_next_speaker. rewrite Hps.
    destruct (last_speaker c) as [who|]; [|by left].
    destruct (truthy who); cbn [negb]; [|by left].
    repeat case_bool_decide; cbn; auto.
Qed.

End RunProps.

(** ** Shared dicts *)
Module SharingProps.
Import Py Orchestrator Turns Run Shared Sharing Samples OrchestratorProps RunProps.

Lemma view_lookup (group_id : str) (s : store) :
  view s !! group_id = status group_id s.
Proof. unfold view, status, get_autonomous_status. apply lookup_fmap. Qed.

(** What one tick does to the store, case by case. *)
Lemma store_tick_cases (groq : prompt → completion) (now : str) (draw : nat)
    (group_id : str) (db : gmap str character) (s : store) (r : ref) :
  active_autonomous_chats s !! group_id = Some r →
  let res := generate_autonomous_response groq now draw group_id db s in
  (should_end_conversation (dicts s r) = true ∧
   res = (Return [concluded_message (dicts s r)],
          {| active_autonomous_chats := delete group_id (active_autonomous_chats s);
             dicts := dicts s |})) ∨
  (should_end_conversation (dicts s r) = false ∧
   ((select_next_speaker draw (dicts s r) = IndexError ∧ res = (IndexError, s)) ∨
    res = (Return [], s) ∨
    ∃ next ch text,
      select_next_speaker draw (dicts s r) = Return (Some next) ∧
      truthy next = true ∧ db !! next = Some ch ∧
      text = generate_character_autonomous_response groq ch (dicts s r) db ∧
      truthy text = true ∧
      res = (Return [turn_message next ch text],
             {| active_autonomous_chats := active_autonomous_chats s;
                dicts := <[r := record_turn (dicts s r) next text now]> (dicts s) |}))).
Proof.
  intros Hr. cbv zeta. unfold generate_autonomous_response. rewrite Hr.
  destruct (should_end_conversation (dicts s r)) eqn:Hend.
  - left. split; [reflexivity|]. unfold end_autonomous_conversation. by rewrite Hr.
  - right. split; [reflexivity|].
    destruct (select_next_speaker draw (dicts s r)) as [[next|]|] eqn:Hsel;
      [|by right; left|by left].
    destruct (truthy next) eqn:Hnext; cbn [negb]; [|by right; left].
    destruct (db !! next) as [ch|] eqn:Hdb; [|by right; left].
    destruct (truthy (generate_character_autonomous_response groq ch (dicts s r) db))
      eqn:Htext; [|by right; left].
    right. right.
    exists next, ch, (generate_character_autonomous_response groq ch (dicts s r) db).
    eauto 10.
Qed.

Lemma store_tick_absent (groq : prompt → completion) (now : str) (draw : nat)
    (group_id : str) (db : gmap str character) (s : store) :
  active_autonomous_chats s !! group_id = None →
  generate_autonomous_response groq now draw group_id db s = (Return [], s).
Proof. intros Hr. unfold generate_autonomous_response. by rewrite Hr. Qed.

(** A tick on the store answers what the tick on the registry as lookups
    show it answers, and leaves the group showing the same entry. *)
Lemma tick_view (groq : prompt → completion) (now : str) (draw : nat)
    (group_id : str) (db : gmap str character) (s : store) :
  let res := generate_autonomous_response groq now draw group_id db s in
  let res' := Orchestrator.generate_autonomous_response groq now draw group_id db (view s) in
  fst res = fst res' ∧ status group_id (snd res) = snd res' !! group_id.
Proof.
  cbv zeta. unfold generate_autonomous_response, Orchestrator.generate_autonomous_response.
  assert (view s !! group_id = dicts s <$> active_autonomous_chats s !! group_id) as Hv
    by apply view_lookup.
  destruct (active_autonomous_chats s !! group_id) as [r|] eqn:Hr;
    cbn [fmap option_fmap option_map] in Hv; rewrite Hv.
  2: { cbn [fst snd]. split; [reflexivity|]. rewrite Hv.
       unfold status, get_autonomous_status. by rewrite Hr. }
  assert (∀ out : outcome (list message),
            fst (out, s) = fst (out, view s) ∧
            status group_id (snd (out, s)) = snd (out, view s) !! group_id) as Hsame.
  { intros out. cbn [fst snd]. split; [reflexivity|]. by rewrite view_lookup. }
  destruct (should_end_conversation (dicts s r)).
  - cbn [fst snd]. split; [reflexivity|].
    unfold end_autonomous_conversation, Orchestrator.end_autonomous_conversation.
    rewrite Hr, Hv, lookup_delete_eq.
    unfold status, get_autonomous_status. cbn. by rewrite lookup_delete_eq.
  - destruct (select_next_speaker draw (dicts s r)) as [[next|]|]; [|apply Hsame..].
    destruct (negb (truthy next)); [apply Hsame|].
    destruct (db !! next) as [ch|]; [|apply Hsame].
    destruct (truthy _); [|apply Hsame].
    cbn [fst snd]. split; [reflexivity|].
    unfold status, get_autonomous_status. cbn. rewrite Hr. cbn.
    by rewrite fn_lookup_insert, lookup_insert_eq.
Qed.

(** A tick changes the binding of no other group and deletes at most
    the binding of its own. *)
Lemma tick_bindings (groq : prompt → completion) (now : str) (draw : nat)
    (group_id : str) (db : gmap str character) (s : store) :
  let s' := snd (generate_autonomous_response groq now draw group_id db s) in
  (∀ other, other ≠ group_id →
     active_autonomous_chats s' !! other = active_autonomous_chats s !! other) ∧
  (∀ g r, active_autonomous_chats s' !! g = Some r →
     active_autonomous_chats s !! g = Some r).
Proof.
  cbv zeta. destruct (active_autonomous_chats s !! group_id) as [r|] eqn:Hr.
  - destruct (store_tick_cases groq now draw group_id db s r Hr) as
      [[_ Hres]|[_ [[_ Hres]|[Hres|(next & ch & text & _ & _ & _ & _ & _ & Hres)]]]];
      cbv zeta in Hres; rewrite Hres; cbn [snd active_autonomous_chats]; try done.
    split.
    + intros other Hne. by apply lookup_delete_ne.
    + intros g r' Hg. by apply lookup_delete_Some in Hg as [_ Hg].
  - by rewrite store_tick_absent.
Qed.

(** A tick changes no dict but the one its group holds. *)
Lemma tick_other_dicts (groq : prompt → completion) (now : str) (draw : nat)
    (group_id : str) (db : gmap str character) (s : store) (r : ref) :
  active_autonomous_chats s !! group_id ≠ Some r →
  dicts (snd (generate_autonomous_response groq now draw group_id db s)) r = dicts s r.
Proof.
  intros Hne. destruct (active_autonomous_chats s !! group_id) as [r'|] eqn:Hr.
  - destruct (store_tick_cases groq now draw group_id db s r' Hr) as
      [[_ Hres]|[_ [[_ Hres]|[Hres|(next & ch & text & _ & _ & _ & _ & _ & Hres)]]]];
      cbv zeta in Hres; rewrite Hres; cbn [snd dicts]; try done.
    apply fn_lookup_insert_ne. congruence.
  - by rewrite store_tick_absent.
Qed.

(** The dict the group holds stays as it is or takes one recorded turn. *)
Lemma tick_dict_step (groq : prompt → completion) (now : str) (draw : nat)
    (group_id : str) (db : gmap str character) (s : store) (r : ref) :
  active_autonomous_chats s !! group_id = Some r →
  let s' := snd (generate_autonomous_response groq now draw group_id db s) in
  dicts s' r = dicts s r ∨ ticks_to (dicts s r) (dicts s' r).
Proof.
  intros Hr. cbv zeta.
  destruct (store_tick_cases groq now draw group_id db s r Hr) as
    [[_ Hres]|[Hend [[_ Hres]|[Hres|(next & ch & text & Hsel & Hn & Hdb & Ht & Htr & Hres)]]]];
    cbv zeta in Hres; rewrite Hres; cbn [snd dicts]; [by left..|].
  right. rewrite fn_lookup_insert.
  exists groq, now, draw, group_id, db, {[ group_id := dicts s r ]}.
  split; [apply lookup_singleton_eq|].
  unfold Orchestrator.generate_autonomous_response.
  rewrite lookup_singleton_eq, Hend, Hsel, Hn. cbn [negb].
  rewrite Hdb, <- Ht, Htr. cbn [snd]. apply lookup_insert_eq.
Qed.

(** Over any number of ticks of any groups, bindings are only removed and
    every dict moves by recorded turns. *)
Lemma ticks_bindings (s s' : store) :
  rtc ticks s s' →
  ∀ g r, active_autonomous_chats s' !! g = Some r →
         active_autonomous_chats s !! g = Some r.
Proof.
  induction 1 as [s|s s1 s2 (groq & now & draw & group_id & db & ->) _ IH]; [done|].
  intros g r Hg. apply IH in Hg.
  by apply (proj2 (tick_bindings groq now draw group_id db s)) in Hg.
Qed.

Lemma ticks_dicts (s s' : store) (r : ref) :
  rtc ticks s s' → rtc ticks_to (dicts s r) (dicts s' r).
Proof.
  induction 1 as [s|s s1 s2 (groq & now & draw & group_id & db & ->) _ IH]; [done|].
  destruct (decide (active_autonomous_chats s !! group_id = Some r)) as [Hr|Hr].
  - destruct (tick_dict_step groq now draw group_id db s r Hr) as [Hsame|Hstep];
      cbv zeta in *.
    + by rewrite <- Hsame.
    + by eapply rtc_l.
  - by rewrite <- (tick_other_dicts groq now draw group_id db s r Hr).
Qed.

Lemma is_autonomous_active_Some (group_id : str) (s : store) :
  is_autonomous_active group_id s = true →
  ∃ r, active_autonomous_chats s !! group_id = Some r.
Proof. intros H. apply bool_decide_eq_true in H as [r Hr]. by exists r. Qed.

(** When the generation call fails, the placeholder turn is recorded in
    the dict the group holds. *)
Lemma failed_generation_in_place
    (groq : prompt → completion) (now : str) (draw : nat) (group_id : str)
    (db : gmap str character) (s : store) (r : ref) (next : str) (ch : character) :
  active_autonomous_chats s !! group_id = Some r →
  should_end_conversation (dicts s r) = false →
  select_next_speaker draw (dicts s r) = Return (Some next) →
  truthy next = true →
  db !! next = Some ch →
  generation_failed (groq (autonomous_prompt ch (dicts s r) db)) →
  let s' := snd (generate_autonomous_response groq now draw group_id db s) in
  active_autonomous_chats s' = active_autonomous_chats s ∧
  dicts s' r = record_turn (dicts s r) next (thinking_placeholder ch (dicts s r)) now.
Proof.
  intros Hr Hend Hsel Hn Hdb Hfail. cbv zeta.
  unfold generate_autonomous_response. rewrite Hr, Hend, Hsel, Hn, Hdb. cbn [negb].
  assert (generate_character_autonomous_response groq ch (dicts s r) db =
          thinking_placeholder ch (dicts s r)) as ->.
  { unfold generate_character_autonomous_response.
    destruct (groq (autonomous_prompt ch (dicts s r) db)); [reflexivity..|destruct Hfail]. }
  rewrite thinking_placeholder_truthy. cbn [snd active_autonomous_chats dicts].
  split; [reflexivity|apply fn_lookup_insert].
Qed.

(** X1.  A tick for one group leaves the binding of every other group and
    every dict but the one the group holds as they are, and that dict
    stays as it is or takes one recorded turn.  So another group keeps
    what it shows unless it holds the same dict, and then it shows what
    the ticked group shows. *)
Theorem tick_other_groups (groq : prompt → completion) (now : str) (draw : nat)
    (group_id : str) (db : gmap str character) (s : store) :
  let s' := snd (generate_autonomous_response groq now draw group_id db s) in
  (∀ other, other ≠ group_id →
     get_autonomous_status other s' = get_autonomous_status other s) ∧
  (∀ r, get_autonomous_status group_id s ≠ Some r → dicts s' r = dicts s r) ∧
  (∀ r, get_autonomous_status group_id s = Some r →
     dicts s' r = dicts s r ∨ ticks_to (dicts s r) (dicts s' r)) ∧
  (∀ other, other ≠ group_id →
     get_autonomous_status other s ≠ get_autonomous_status group_id s →
     status other s' = status other s) ∧
  (∀ other, get_autonomous_status other s = get_autonomous_status group_id s →
     is_autonomous_active group_id s' = true →
     status other s' = status group_id s').
Proof.
  cbv zeta. unfold status, get_autonomous_status.
  destruct (tick_bindings groq now draw group_id db s) as [Hframe Hsub]. cbv zeta in *.
  split; [exact Hframe|]. split; [by apply tick_other_dicts|].
  split; [by apply tick_dict_step|]. split.
  - intros other Hne Hdiff. rewrite (Hframe other Hne).
    destruct (active_autonomous_chats s !! other) as [r|] eqn:Hr; [|reflexivity].
    cbn. f_equal. apply tick_other_dicts. congruence.
  - intros other Hsame Hactive.
    apply is_autonomous_active_Some in Hactive as [r Hr]. rewrite Hr.
    destruct (decide (other = group_id)) as [->|Hne]; [by rewrite Hr|].
    rewrite (Hframe other Hne), Hsame. by rewrite (Hsub _ _ Hr).
Qed.

(** Two groups started from one dict: the turn recorded by a tick of the
    first shows in the second. *)
Lemma shared_dict_tick :
  let s := start_autonomous_conversation «"t0"» 0 «"g2"»
             (start_autonomous_conversation «"t0"» 0 «"g1"» no_chats) in
  let s' := snd (generate_autonomous_response believe_it «"t1"» 0 «"g1"» ninja_db s) in
  status «"g2"» s = Some (set_started debate_of_two «"t0"») ∧
  status «"g2"» s' = Some debate_after_one.
Proof. split; vm_compute; reflexivity. Qed.

(** X9.  Starting a conversation binds the group to the caller's dict and
    resets that dict in place.  The group shows the dict with no last
    speaker, an empty history and the start time; a group that already
    held the dict shows the same, so its turns are gone; the other groups
    keep their bindings, and those holding another dict keep what they
    show.  Over any later ticks of any groups the dict stays within the
    states a conversation started from it can reach, and the groups that
    hold it show the same state as long as they are active. *)
Theorem start_autonomous_conversation_registers (now : str) (conversation_config : ref)
    (group_id : str) (s : store) :
  let s' := start_autonomous_conversation now conversation_config group_id s in
  let started := set_started (dicts s conversation_config) now in
  status group_id s' = Some started ∧
  (∀ g, g ≠ group_id → get_autonomous_status g s' = get_autonomous_status g s) ∧
  (∀ g, get_autonomous_status g s = Some conversation_config →
     status g s' = Some started) ∧
  (∀ g r, g ≠ group_id → get_autonomous_status g s = Some r → r ≠ conversation_config →
     status g s' = status g s) ∧
  (∀ s'', rtc ticks s' s'' →
     reachable (dicts s conversation_config) now (dicts s'' conversation_config) ∧
     ∀ g, get_autonomous_status g s' = Some conversation_config →
          is_autonomous_active g s'' = true →
          is_autonomous_active group_id s'' = true →
          status g s'' = status group_id s'').
Proof.
  cbv zeta. unfold status, get_autonomous_status, start_autonomous_conversation.
  cbn [active_autonomous_chats dicts].
  split; [by rewrite lookup_insert_eq; cbn; rewrite fn_lookup_insert|].
  split; [by intros g Hne; apply lookup_insert_ne|].
  split; [|split].
  - intros g Hg. destruct (decide (g = group_id)) as [->|Hne].
    + rewrite lookup_insert_eq. cbn. by rewrite fn_lookup_insert.
    + rewrite lookup_insert_ne, Hg by done. cbn. by rewrite fn_lookup_insert.
  - intros g r Hne Hg Hr. rewrite lookup_insert_ne, Hg by done. cbn.
    by rewrite fn_lookup_insert_ne.
  - intros s'' Hticks. split.
    + unfold reachable. apply (ticks_dicts _ _ conversation_config) in Hticks.
      cbn [dicts] in Hticks. by rewrite fn_lookup_insert in Hticks.
    + intros g Hg [r Hr]%is_autonomous_active_Some [r' Hr']%is_autonomous_active_Some.
      rewrite Hr, Hr'.
      apply (ticks_bindings _ _ Hticks) in Hr, Hr'. cbn [active_autonomous_chats] in Hr, Hr'.
      rewrite lookup_insert_eq in Hr'. congruence.
Qed.

(** Starting a second group from the dict a running group holds wipes the
    turns of the running group; the round counter stays. *)
Lemma shared_dict_restart :
  let s := snd (generate_autonomous_response believe_it «"t1"» 0 «"g1"» ninja_db
                  (start_autonomous_conversation «"t0"» 0 «"g1"» no_chats)) in
  let s' := start_autonomous_conversation «"t2"» 0 «"g2"» s in
  status «"g1"» s = Some debate_after_one ∧
  status «"g1"» s' = Some (set_started debate_after_one «"t2"») ∧
  conversation_history (set_started debate_after_one «"t2"») = [] ∧
  current_round (set_started debate_after_one «"t2"») = 0.5%Q.
Proof. repeat split; vm_compute; reflexivity. Qed.

End SharingProps.

(** ** Further properties of the selector *)
Module SelectorMore.
Import Py PyMore Re Selector SelectorContext Intent Samples SelectorProps.

Lemma elem_of_firstn {A} (n : nat) (l : list A) (x : A) : x ∈ firstn n l → x ∈ l.
Proof. intros H. by eapply elem_of_sublist; [|apply sublist_take]. Qed.

Lemma elem_of_slice_to {A} (l : list A) (n : Z) (x : A) : x ∈ slice_to l n → x ∈ l.
Proof. unfold slice_to. destruct (0 <=? n)%Z; apply elem_of_firstn. Qed.

Lemma find_target_elem (target : str) (ids : list str) (db : gmap str character)
    (x : str) :
  find_target target ids db = Some x → x ∈ ids ∧ is_Some (db !! x).
Proof.
  unfold find_target. intros H. apply find_some in H as [Hin Hf].
  split; [by apply list_elem_of_In|]. destruct (db !! x); [eauto|discriminate].
Qed.

Lemma elem_of_ai_targets_of (targets ids : list str) (db : gmap str character) (x : str) :
  x ∈ ai_targets_of targets ids db → x ∈ ids ∧ is_Some (db !! x).
Proof.
  unfold ai_targets_of. rewrite list_elem_of_In, in_flat_map.
  intros (t & _ & Hx). destruct (find_target t ids db) as [y|] eqn:Hy; [|destruct Hx].
  destruct Hx as [<-|[]]. by eapply find_target_elem.
Qed.

(** X12.  Every selected responder is one of the candidates: neither a
    mention nor the external opinion can bring in a character from outside
    the candidate list. *)
Theorem select_responders_candidates (reply : option ai_opinion) (msg : str)
    (ids : list str) (db : gmap str character) (x : str) :
  x ∈ select_responders reply msg ids db → x ∈ ids.
Proof.
  unfold select_responders, select_responding_characters, analyze_message_intent.
  cbn [mentioned_characters is_greeting is_group_message ai_analysis message_type].
  destruct (truthy (detect_character_mentions msg ids db)).
  { intros H. by apply elem_of_detect_mentions_loop in H as [H _]. }
  destruct (is_greeting_message _); [done|].
  destruct (is_group_directed_message _); [done|].
  match goal with |- context [truthy ?l] => destruct (truthy l) eqn:Hai end.
  - intros H%elem_of_slice_to. destruct (truthy (target_characters _)).
    + by apply elem_of_ai_targets_of in H as [H _].
    + by apply not_elem_of_nil in H.
  - repeat case_bool_decide; try apply elem_of_firstn.
    destruct (truthy ids); [apply elem_of_firstn|].
    intros Hnil. by apply not_elem_of_nil in Hnil.
Qed.

Lemma select_responders_candidates_witness :
  select_responders (Some two_targets) «"ok then"» [«"naruto"»; «"sasuke"»] ninja_db
  = [«"sasuke"»; «"naruto"»] ∧
  «"sasuke"» ∈ [«"naruto"»; «"sasuke"»].
Proof.
  assert (select_responders (Some two_targets) «"ok then"» [«"naruto"»; «"sasuke"»] ninja_db
          = [«"sasuke"»; «"naruto"»]) as Hsel by (vm_compute; reflexivity).
  split; [exact Hsel|].
  apply (select_responders_candidates (Some two_targets) «"ok then"»
           [«"naruto"»; «"sasuke"»] ninja_db).
  rewrite Hsel. left.
Defined.

Lemma find_split {A} (f : A → bool) (l : list A) (x : A) :
  find f l = Some x →
  ∃ pre post, l = pre ++ x :: post ∧ f x = true ∧ Forall (λ y, f y = false) pre.
Proof.
  induction l as [|a l IH]; cbn [find]; [discriminate|].
  destruct (f a) eqn:Ha.
  - intros [= ->]. exists [], l. by repeat split.
  - intros (pre & post & -> & Hx & Hpre)%IH.
    exists (a :: pre), post. split; [reflexivity|]. split; [exact Hx|].
    by constructor.
Qed.

(** The answer of the rules once no mention, greeting or group rule
    fires. *)
Lemma select_responders_plain (reply : option ai_opinion) (msg : str)
    (ids : list str) (db : gmap str character) :
  detect_character_mentions msg ids db = [] →
  is_greeting_message (strip (lower msg)) = false →
  is_group_directed_message (strip (lower msg)) = false →
  select_responders reply msg ids db =
  let ai := get_ai_intent_analysis reply msg ids db in
  let ai_targets :=
    if truthy (target_characters ai)
    then ai_targets_of (target_characters ai) ids db else [] in
  let message_type := determine_message_type (strip (lower msg)) in
  if truthy ai_targets then slice_to ai_targets (get_or (response_count ai) 2%Z)
  else if bool_decide (message_type = «"debate_trigger"») then firstn 2 ids
  else if bool_decide (message_type = «"question"») then firstn 2 ids
  else if bool_decide (message_type = «"request"») then firstn 1 ids
  else if truthy ids then firstn 1 ids else [].
Proof.
  intros Hm Hg Hgr. unfold select_responders, select_responding_characters,
    analyze_message_intent.
  cbn [mentioned_characters is_greeting is_group_message ai_analysis message_type].
  by rewrite Hm, Hg, Hgr.
Qed.

(** X13.  When the intent service fails and the message is neither a
    mention, a greeting nor a group message, exactly one character
    responds: the first candidate that is known to the store. *)
Theorem select_responders_service_failure (msg : str) (ids : list str)
    (db : gmap str character) (c : str) :
  detect_character_mentions msg ids db = [] →
  is_greeting_message (strip (lower msg)) = false →
  is_group_directed_message (strip (lower msg)) = false →
  find (λ id, bool_decide (is_Some (db !! id))) ids = Some c →
  select_responders None msg ids db = [c].
Proof.
  intros Hm Hg Hgr Hfind. rewrite (select_responders_plain _ _ _ _ Hm Hg Hgr).
  cbv zeta. unfold get_ai_intent_analysis.
  cbn [target_characters response_count get_or default].
  apply find_split in Hfind as (pre & post & -> & Hc & Hpre).
  apply bool_decide_eq_true in Hc as [ch Hch].
  clear Hm Hg Hgr.
  assert (flat_map (λ id, match db !! id with Some x => [name x] | None => [] end) pre = [])
    as Hnil.
  { induction Hpre as [|a pre Ha _ IH]; [reflexivity|]. cbn.
    apply bool_decide_eq_false in Ha. destruct (db !! a); [exfalso; eauto|exact IH]. }
  rewrite flat_map_app, Hnil. cbn [app flat_map]. rewrite Hch.
  cbn [app firstn truthy ai_targets_of flat_map].
  assert (find_target (name ch) (pre ++ c :: post) db = Some c) as ->.
  { unfold find_target. clear Hnil.
    induction Hpre as [|a pre Ha _ IH]; cbn [app find].
    - rewrite Hch. by rewrite bool_decide_eq_true_2.
    - apply bool_decide_eq_false in Ha. destruct (db !! a); [exfalso; eauto|exact IH]. }
  reflexivity.
Qed.

Lemma select_responders_service_failure_witness :
  select_responders None «"ok then"» [«"eve"»; «"sasuke"»; «"naruto"»] ninja_db
  = [«"sasuke"»].
Proof.
  apply select_responders_service_failure; vm_compute; reflexivity.
Defined.

(** X14.  Unless a mention, greeting or group rule fires, an external
    opinion whose response count is absent or between 0 and 3 never gets
    more than three responders selected; on a service failure at most
    two. *)
Theorem select_responders_at_most_three (reply : option ai_opinion) (msg : str)
    (ids : list str) (db : gmap str character) :
  detect_character_mentions msg ids db = [] →
  is_greeting_message (strip (lower msg)) = false →
  is_group_directed_message (strip (lower msg)) = false →
  (∀ o n, reply = Some o → response_count o = Some n → (0 ≤ n ≤ 3)%Z) →
  length (select_responders reply msg ids db) ≤ 3 ∧
  (reply = None → length (select_responders reply msg ids db) ≤ 2).
Proof.
  intros Hm Hg Hgr Hcount. rewrite (select_responders_plain _ _ _ _ Hm Hg Hgr).
  cbv zeta.
  assert (∀ n (l : list str), length (firstn n l) ≤ n) as Hfirst
    by (intros; rewrite length_firstn; lia).
  pose proof (Hfirst 1 ids) as Hone. pose proof (Hfirst 2 ids) as Htwo.
  split.
  - destruct (truthy (if truthy _ then _ else _)).
    + unfold get_ai_intent_analysis, slice_to. destruct reply as [o|]; cbn.
      * destruct (response_count o) as [n|] eqn:Hn; cbn.
        -- destruct (Hcount o n eq_refl Hn) as [Hlo Hhi].
           rewrite (proj2 (Z.leb_le 0 n) Hlo). rewrite length_firstn. lia.
        -- rewrite length_firstn. lia.
      * rewrite length_firstn. lia.
    + repeat case_bool_decide; try lia. destruct (truthy ids); cbn [length]; lia.
  - intros ->. destruct (truthy (if truthy _ then _ else _)).
    + unfold slice_to. cbn. rewrite length_firstn. lia.
    + repeat case_bool_decide; try lia. destruct (truthy ids); cbn [length]; lia.
Qed.

Lemma select_responders_at_most_three_witness :
  length (select_responders (Some two_targets) «"ok then"»
            [«"naruto"»; «"sasuke"»] ninja_db) ≤ 3.
Proof.
  refine (proj1 (select_responders_at_most_three (Some two_targets) «"ok then"»
                   [«"naruto"»; «"sasuke"»] ninja_db _ _ _ _));
    try (vm_compute; reflexivity).
  intros o n [= <-] [= <-]. lia.
Defined.

(** X15.  The confidence lies between 0.5 and 1; it reaches 1 exactly when
    at least two of the three signals (a mention, a group message, a
    greeting) are present, and is 0.5 exactly when none is. *)
Theorem calculate_confidence_range (mentioned : list str) (is_group greeting : bool) :
  let conf := calculate_confidence mentioned is_group greeting in
  let m := truthy mentioned in
  (0.5 <= conf <= 1)%Q ∧
  ((conf == 1)%Q ↔ (m && is_group) || (m && greeting) || (is_group && greeting) = true) ∧
  ((conf == 0.5)%Q ↔ m || is_group || greeting = false).
Proof.
  cbv zeta. unfold calculate_confidence.
  destruct (truthy mentioned), is_group, greeting; vm_compute;
    (split; [split; discriminate|]); split; split; intros H;
    first [reflexivity | discriminate H].
Qed.

(** X16.  In an intent analysis the message type is one of greeting,
    question, request, debate_trigger and statement, and it is greeting
    exactly when the greeting flag is set; a greeting has confidence at
    least 0.7. *)
Theorem analyze_message_intent_type (reply : option ai_opinion) (msg : str)
    (ids : list str) (db : gmap str character) :
  let ia := analyze_message_intent reply msg ids db in
  message_type ia ∈ message_types ∧
  (message_type ia = «"greeting"» ↔ is_greeting ia = true) ∧
  (is_greeting ia = true → (0.7 <= confidence ia)%Q) ∧
  mentioned_characters ia = detect_character_mentions msg ids db.
Proof.
  cbv zeta. unfold analyze_message_intent.
  cbn [message_type is_greeting confidence mentioned_characters].
  unfold determine_message_type, is_greeting_message.
  set (g := existsb _ greeting_patterns).
  split; [|split; [|split; [|reflexivity]]].
  - unfold message_types. destruct g; [left|].
    repeat (match goal with |- context [any_in ?l ?m] => destruct (any_in l m) end;
            [set_solver|]).
    set_solver.
  - destruct g; [done|]. split; [|discriminate].
    repeat (match goal with |- context [any_in ?l ?m] => destruct (any_in l m) end;
            [discriminate|]).
    discriminate.
  - intros ->. unfold calculate_confidence.
    destruct (truthy _), (is_group_directed_message _); vm_compute; discriminate.
Qed.

Lemma relevance_loop_spec (keywords : list str) (message : str) (acc : nat) :
  relevance_loop keywords message acc
  = acc + length (List.filter (λ k, contains message k) keywords).
Proof.
  revert acc. induction keywords as [|k ks IH]; intros acc; cbn [relevance_loop List.filter].
  - cbn. lia.
  - destruct (contains message k); rewrite IH; cbn [length]; lia.
Qed.

Lemma contains_empty (s : str) : contains s [] = true.
Proof. destruct s; reflexivity. Qed.

(** X17.  A character unknown to the store never responds, even when
    mentioned.  A known character responds exactly when it is mentioned
    or one of its keywords occurs in the lower-cased message; it has at
    most 8 keywords, and if trimming the punctuation leaves one of them
    empty it responds to every message. *)
Theorem should_respond_based_on_context_iff (char_id : str) (ctx : message_context)
    (db : gmap str character) :
  (db !! char_id = None → should_respond_based_on_context char_id ctx db = false) ∧
  (∀ ch, db !! char_id = Some ch →
     (should_respond_based_on_context char_id ctx db = true ↔
        char_id ∈ get_or (ctx_mentioned_characters ctx) [] ∨
        ∃ k, k ∈ extract_character_keywords ch ∧
             contains (lower (get_or (ctx_original_message ctx) [])) k = true) ∧
     length (extract_character_keywords ch) ≤ 8 ∧
     ([] ∈ extract_character_keywords ch →
        should_respond_based_on_context char_id ctx db = true)).
Proof.
  unfold should_respond_based_on_context. split; [by intros ->|].
  intros ch ->.
  assert ((0 <? relevance_loop (extract_character_keywords ch)
                  (lower (get_or (ctx_original_message ctx) [])) 0) = true ↔
          ∃ k, k ∈ extract_character_keywords ch ∧
               contains (lower (get_or (ctx_original_message ctx) [])) k = true) as Hloop.
  { rewrite relevance_loop_spec, Nat.ltb_lt. cbn [Nat.add]. split.
    - destruct (List.filter _ _) as [|k ks] eqn:Hf; [cbn; lia|]. intros _.
      assert (In k (List.filter
                (λ k, contains (lower (get_or (ctx_original_message ctx) [])) k)
                (extract_character_keywords ch))) as Hin by (rewrite Hf; left; reflexivity).
      apply filter_In in Hin as [Hin Hk]. exists k. by rewrite list_elem_of_In.
    - intros (k & Hin & Hk).
      assert (In k (List.filter
                (λ k, contains (lower (get_or (ctx_original_message ctx) [])) k)
                (extract_character_keywords ch))) as Hf
        by (apply filter_In; by rewrite <- list_elem_of_In).
      destruct (List.filter _ _); [destruct Hf|cbn; lia]. }
  split; [|split].
  - case_bool_decide as Hm; [by split; [left|]|].
    rewrite Hloop. split; [by right|]. by intros [?|?].
  - unfold extract_character_keywords. rewrite length_map.
    etrans; [apply filter_length_le|]. rewrite length_app.
    assert (∀ n (l : list str), length (firstn n l) ≤ n) as Hfirst
      by (intros; rewrite length_firstn; lia).
    pose proof (Hfirst 5) as H5. pose proof (Hfirst 3) as H3.
    destruct (powers_abilities ch) as [p|], (personality ch) as [q|];
      repeat match goal with |- context [truthy ?t] => destruct (truthy t) end;
      cbn [length]; repeat match goal with
      | |- context [length (firstn 5 ?l)] => pose proof (H5 l); generalize dependent (length (firstn 5 l)); intros
      | |- context [length (firstn 3 ?l)] => pose proof (H3 l); generalize dependent (length (firstn 3 l)); intros
      end; lia.
  - intros Hempty. case_bool_decide; [reflexivity|]. apply Hloop.
    exists []. split; [exact Hempty|apply contains_empty].
Qed.

Example loud_always_responds (msg : str) :
  should_respond_based_on_context «"loud"»
    {| ctx_mentioned_characters := None; ctx_original_message := Some msg |}
    {[ «"loud"» := loud ]} = true.
Proof.
  unfold should_respond_based_on_context. rewrite lookup_singleton_eq.
  rewrite bool_decide_eq_false_2 by (cbn; apply not_elem_of_nil).
  replace (extract_character_keywords loud) with [[]; «"thunder"»]
    by (vm_compute; reflexivity).
  cbn [relevance_loop]. rewrite contains_empty.
  by destruct (contains _ «"thunder"»).
Qed.

End SelectorMore.

(** ** The group chat manager *)
Module GroupChatProps.
Import Py PyMore GroupChat Intent Relevance Samples.

Lemma elem_of_mentioned_chars_loop (message_lower : str) (ids : list str)
    (db : gmap str character) (x : str) :
  x ∈ mentioned_chars_loop message_lower ids db ↔
  x ∈ ids ∧ ∃ ch, db !! x = Some ch ∧ contains message_lower (lower (name ch)) = true.
Proof.
  induction ids as [|i ids IH]; cbn [mentioned_chars_loop].
  - split; [intros H; by apply not_elem_of_nil in H|intros [H _]; by apply not_elem_of_nil in H].
  - destruct (db !! i) as [ch|] eqn:Hi.
    + destruct (contains message_lower (lower (name ch))) eqn:Hm.
      * rewrite !elem_of_cons, IH. split.
        -- intros [->|[Hin Hx]]; [split; [by left|eauto]|split; [by right|exact Hx]].
        -- intros [[->|Hin] Hx]; [by left|right; by split].
      * rewrite elem_of_cons, IH. split.
        -- intros [Hin Hx]; split; [by right|exact Hx].
        -- intros [[->|Hin] (chx & Hx & Hr)]; [congruence|split; eauto].
    + rewrite elem_of_cons, IH. split.
      * intros [Hin Hx]; split; [by right|exact Hx].
      * intros [[->|Hin] (chx & Hx & Hr)]; [congruence|split; eauto].
Qed.

Lemma fmap_Some_nonempty (l : list str) : l ≠ [] → (Some <$> l) ≠ [].
Proof. by destruct l. Qed.

Lemma firstn_pos_nonempty {A} (n : nat) (l : list A) : 0 < n → l ≠ [] → firstn n l ≠ [].
Proof. destruct n; [lia|]. by destruct l. Qed.

(** The branches of the live selection below the mention rule. *)
Lemma select_enhanced_unmentioned (db : gmap str character) (msg : str)
    (ids : list str) (recent : list group_message) :
  mentioned_chars_loop (lower msg) ids db = [] →
  select_responding_characters_enhanced db msg ids recent =
  let plain :=
    if any_in group_keywords (lower msg) then Some <$> ids
    else if length (split msg) <=? 3 then Some <$> firstn 2 ids
    else if contains msg «"?"» then Some <$> firstn (Nat.min 3 (length ids)) ids
    else Some <$> firstn (Nat.min 2 (length ids)) ids in
  match last recent with
  | Some lm =>
      if bool_decide (gm_role lm = Some «"character"») &&
         any_in response_triggers (lower msg)
      then
        let others :=
          List.filter (λ c, negb (bool_decide (Some c = gm_character_id lm))) ids in
        if 2 <=? length others then Some <$> firstn 2 others
        else (Some <$> others) ++ [gm_character_id lm]
      else plain
  | None => plain
  end.
Proof.
  intros Hm. unfold select_responding_characters_enhanced, last_item. rewrite Hm.
  cbn [truthy]. destruct (last recent) as [lm|]; [|reflexivity].
  case_bool_decide; [|reflexivity]. cbn [andb].
  by destruct (any_in response_triggers (lower msg)).
Qed.

(** X18.  The live selection never leaves a non-empty candidate list
    without a responder, whatever the message and the history. *)
Theorem select_enhanced_nonempty (db : gmap str character) (msg : str)
    (ids : list str) (recent : list group_message) :
  ids ≠ [] → select_responding_characters_enhanced db msg ids recent ≠ [].
Proof.
  intros Hids. unfold select_responding_characters_enhanced.
  destruct (mentioned_chars_loop (lower msg) ids db) as [|m ms] eqn:Hm; [|done].
  cbn [truthy].
  assert (0 < length ids) as Hlen by (destruct ids; [done|cbn; lia]).
  destruct (last_item recent) as [lm|].
  - case_bool_decide as Hrole.
    + destruct (any_in response_triggers (lower msg)).
      * destruct (Nat.leb_spec 2 (length
          (List.filter (λ c, negb (bool_decide (Some c = gm_character_id lm))) ids)))
          as [Hge|Hlt].
        -- apply fmap_Some_nonempty, firstn_pos_nonempty; [lia|].
           intros Hnil. rewrite Hnil in Hge. cbn in Hge. lia.
        -- intros Hnil. apply app_eq_nil in Hnil as [_ Hnil]. discriminate Hnil.
      * destruct (any_in group_keywords _); [by apply fmap_Some_nonempty|].
        repeat match goal with |- context [if ?b then _ else _] => destruct b end;
          apply fmap_Some_nonempty, firstn_pos_nonempty; (lia || done).
    + destruct (any_in group_keywords _); [by apply fmap_Some_nonempty|].
      repeat match goal with |- context [if ?b then _ else _] => destruct b end;
        apply fmap_Some_nonempty, firstn_pos_nonempty; (lia || done).
  - destruct (any_in group_keywords _); [by apply fmap_Some_nonempty|].
    repeat match goal with |- context [if ?b then _ else _] => destruct b end;
      apply fmap_Some_nonempty, firstn_pos_nonempty; (lia || done).
Qed.

Lemma select_enhanced_nonempty_witness :
  select_responding_characters_enhanced trio_db «"I really like ramen in winter"»
    trio user_spoke ≠ [].
Proof. apply select_enhanced_nonempty. discriminate. Defined.

(** The candidates other than the last speaker. *)
Lemma elem_of_others (ids : list str) (last_id : option str) (c : str) :
  c ∈ List.filter (λ c, negb (bool_decide (Some c = last_id))) ids ↔
  c ∈ ids ∧ Some c ≠ last_id.
Proof.
  rewrite list_elem_of_In, filter_In, <- list_elem_of_In, negb_true_iff.
  by rewrite bool_decide_eq_false.
Qed.

(** X19.  In the live selection a candidate whose name occurs in the
    message has priority: the responders are exactly the candidates of
    the store whose lower-cased name occurs in the lower-cased message,
    whoever spoke last and whatever else the message says. *)
Theorem select_enhanced_named_first (db : gmap str character) (msg : str)
    (ids : list str) (recent : list group_message) (c : str) (ch : character) :
  c ∈ ids → db !! c = Some ch →
  contains (lower msg) (lower (name ch)) = true →
  select_responding_characters_enhanced db msg ids recent
  = Some <$> mentioned_chars_loop (lower msg) ids db ∧
  ∀ x, x ∈ select_responding_characters_enhanced db msg ids recent ↔
       ∃ y chy, x = Some y ∧ y ∈ ids ∧ db !! y = Some chy ∧
                contains (lower msg) (lower (name chy)) = true.
Proof.
  intros Hc Hdb Hname.
  assert (c ∈ mentioned_chars_loop (lower msg) ids db) as Hin
    by (apply elem_of_mentioned_chars_loop; eauto).
  assert (select_responding_characters_enhanced db msg ids recent
          = Some <$> mentioned_chars_loop (lower msg) ids db) as ->.
  { unfold select_responding_characters_enhanced.
    destruct (mentioned_chars_loop (lower msg) ids db); [|reflexivity].
    by apply not_elem_of_nil in Hin. }
  split; [reflexivity|]. intros x. rewrite list_elem_of_fmap. split.
  - intros (y & -> & Hy). apply elem_of_mentioned_chars_loop in Hy as (Hy & chy & ? & ?).
    eauto 10.
  - intros (y & chy & -> & Hy & Hdby & Hcy). exists y. split; [reflexivity|].
    apply elem_of_mentioned_chars_loop. eauto.
Qed.

Lemma select_enhanced_named_first_witness :
  select_responding_characters_enhanced trio_db «"Everyone, ask Naruto why"» trio sasuke_spoke
  = Some <$> mentioned_chars_loop (lower «"Everyone, ask Naruto why"») trio trio_db.
Proof.
  refine (proj1 (select_enhanced_named_first trio_db «"Everyone, ask Naruto why"»
                   trio sasuke_spoke «"naruto"» naruto _ _ _)).
  - left.
  - vm_compute. reflexivity.
  - vm_compute. reflexivity.
Defined.

(** X20.  When nobody is mentioned, the last message is a character's
    and the user's message contains a reply word, the responders are the
    first two candidates other than the last speaker, who is left out; if
    fewer than two others exist, they all respond and the last speaker's
    id is appended, candidate or not. *)
Theorem select_enhanced_reply (db : gmap str character) (msg : str)
    (ids : list str) (recent : list group_message) (lm : group_message) :
  mentioned_chars_loop (lower msg) ids db = [] →
  last recent = Some lm →
  gm_role lm = Some «"character"» →
  any_in response_triggers (lower msg) = true →
  let others := List.filter (λ c, negb (bool_decide (Some c = gm_character_id lm))) ids in
  let r := select_responding_characters_enhanced db msg ids recent in
  (2 ≤ length others →
     r = Some <$> firstn 2 others ∧ length r = 2 ∧ gm_character_id lm ∉ r) ∧
  (length others < 2 → r = (Some <$> others) ++ [gm_character_id lm]).
Proof.
  intros Hm Hlast Hrole Htrig. cbv zeta.
  unfold select_responding_characters_enhanced, last_item.
  rewrite Hm, Hlast, Htrig. cbn [truthy].
  rewrite bool_decide_eq_true_2 by exact Hrole.
  split.
  - intros Hge. rewrite (proj2 (Nat.leb_le _ _) Hge).
    split; [reflexivity|]. split.
    + rewrite length_fmap, length_firstn. lia.
    + intros (y & Hy & Hin)%list_elem_of_fmap.
      apply elem_of_sublist with (l2 := List.filter
        (λ c, negb (bool_decide (Some c = gm_character_id lm))) ids) in Hin;
        [|apply sublist_take].
      apply elem_of_others in Hin as [_ Hne]. by apply Hne.
  - intros Hlt. by rewrite (proj2 (Nat.leb_gt _ _) Hlt).
Qed.

Lemma select_enhanced_reply_witness :
  select_responding_characters_enhanced trio_db «"Really?"» trio sasuke_spoke
  = [Some «"naruto"»; Some «"eve"»].
Proof.
  assert (2 ≤ length (List.filter
            (λ c, negb (bool_decide (Some c = Some «"sasuke"»))) trio)) as Hge
    by (vm_compute; lia).
  destruct (select_enhanced_reply trio_db «"Really?"» trio sasuke_spoke
              {| gm_role := Some «"character"»; gm_character_id := Some «"sasuke"»;
                 gm_character_name := Some «"Sasuke"»; gm_content := «"Hn."» |})
    as [Htwo _]; [vm_compute; reflexivity..|].
  destruct (Htwo Hge) as (-> & _). vm_compute. reflexivity.
Defined.

(** X21.  Every responder of the live selection is a candidate, except
    that the id carried by a last message of a character may be added. *)
Theorem select_enhanced_members (db : gmap str character) (msg : str)
    (ids : list str) (recent : list group_message) (x : option str) :
  x ∈ select_responding_characters_enhanced db msg ids recent →
  (∃ c, x = Some c ∧ c ∈ ids) ∨
  (∃ lm, last recent = Some lm ∧ gm_role lm = Some «"character"» ∧
         x = gm_character_id lm).
Proof.
  assert (∀ l : list str, (∀ c, c ∈ l → c ∈ ids) →
            x ∈ (Some <$> l) → ∃ c, x = Some c ∧ c ∈ ids) as Hsub.
  { intros l Hl (c & -> & Hc)%list_elem_of_fmap. eauto. }
  assert (∀ n c, c ∈ firstn n ids → c ∈ ids) as Hfirst
    by (intros n c Hc; by eapply elem_of_sublist; [|apply sublist_take]).
  unfold select_responding_characters_enhanced, last_item.
  destruct (truthy (mentioned_chars_loop (lower msg) ids db)).
  { intros Hx. left. revert Hx. apply Hsub. intros c Hc.
    by apply elem_of_mentioned_chars_loop in Hc as [Hc _]. }
  assert (x ∈ (if any_in group_keywords (lower msg) then Some <$> ids
               else if length (split msg) <=? 3 then Some <$> firstn 2 ids
               else if contains msg «"?"»
               then Some <$> firstn (Nat.min 3 (length ids)) ids
               else Some <$> firstn (Nat.min 2 (length ids)) ids) →
          ∃ c, x = Some c ∧ c ∈ ids) as Hplain.
  { repeat match goal with |- context [if ?b then _ else _] => destruct b end;
      apply Hsub; eauto. }
  destruct (last recent) as [lm|]; [|by left; apply Hplain].
  case_bool_decide as Hrole; [|by left; apply Hplain].
  destruct (any_in response_triggers (lower msg)); [|by left; apply Hplain].
  destruct (2 <=? _).
  - intros Hx. left. revert Hx. apply Hsub. intros c Hc.
    apply elem_of_sublist with (l2 := List.filter
      (λ c, negb (bool_decide (Some c = gm_character_id lm))) ids) in Hc;
      [|apply sublist_take].
    by apply elem_of_others in Hc as [Hc _].
  - intros [Hx|Hx]%elem_of_app.
    + left. revert Hx. apply Hsub. intros c Hc. by apply elem_of_others in Hc as [Hc _].
    + right. apply list_elem_of_singleton in Hx. eauto.
Qed.

Lemma select_enhanced_members_witness :
  Some «"sasuke"» ∈ select_responding_characters_enhanced trio_db «"Really?"»
                      [«"naruto"»] sasuke_spoke ∧
  ((∃ c, Some «"sasuke"» = Some c ∧ c ∈ [«"naruto"»]) ∨
   (∃ lm, last sasuke_spoke = Some lm ∧ gm_role lm = Some «"character"» ∧
          Some «"sasuke"» = gm_character_id lm)).
Proof.
  assert (Some «"sasuke"» ∈ select_responding_characters_enhanced trio_db «"Really?"»
                              [«"naruto"»] sasuke_spoke) as Hin
    by (vm_compute; right; left).
  split; [exact Hin|]. exact (select_enhanced_members _ _ _ _ _ Hin).
Defined.

(** X22.  The relevance score is at least 0.6; it is exactly 1 for a
    character whose name occurs in the message, and exactly 0.6 for one
    that is not mentioned, did not speak one of the last three messages
    and has no keyword in the message. *)
Theorem relevance_floor_and_mention (msg : str) (ch : character)
    (recent : list App.chat_message) :
  let score := App.calculate_enhanced_relevance msg ch recent in
  (0.6 <= score)%Q ∧
  (contains (lower msg) (lower (name ch)) = true → (score == 1)%Q) ∧
  (contains (lower msg) (lower (name ch)) = false →
   spoke_recently ch recent = false → matched_keywords 5 msg ch = 0 →
   (score == 0.6)%Q).
Proof.
  cbv zeta. rewrite !AppProps.calculate_enhanced_relevance_closed.
  unfold relevance_formula.
  pose proof (AppProps.min_tenths_nonneg (matched_keywords 5 msg ch)) as Hk.
  assert (Qmin (inject_Z (Z.of_nat (matched_keywords 5 msg ch)) * 0.1) 0.3 <= 0.3)%Q as Hk3
    by apply Q.le_min_r.
  set (k := Qmin _ 0.3) in *.
  split; [|split].
  - apply Q.min_glb; [|discriminate].
    destruct (contains _ _), (spoke_recently _ _);
      unfold Qle in *; cbn in *; lia.
  - intros ->. apply Q.min_r.
    destruct (spoke_recently _ _); unfold Qle in *; cbn in *; lia.
  - intros -> -> Hzero. subst k. rewrite Hzero. vm_compute. reflexivity.
Qed.

Lemma zero_counts_lookup (characters : list str) (c : str) :
  zero_counts characters !! c = if decide (c ∈ characters) then Some 0 else None.
Proof.
  unfold zero_counts.
  enough (∀ m : gmap str nat,
    fold_left (λ counts id, <[id := 0]> counts) characters m !! c
    = if decide (c ∈ characters) then Some 0 else m !! c) as H.
  { rewrite H. case_decide; [reflexivity|apply lookup_empty]. }
  induction characters as [|a l IH]; intros m; cbn [fold_left].
  - case_decide as Hin; [by apply not_elem_of_nil in Hin|reflexivity].
  - rewrite IH. destruct (decide (c ∈ l)) as [Hl|Hl].
    + rewrite decide_True by (by right). reflexivity.
    + destruct (decide (a = c)) as [->|Hne].
      * rewrite decide_True by left. apply lookup_insert_eq.
      * rewrite decide_False by (intros [->|?]%elem_of_cons; done).
        by apply lookup_insert_ne.
Qed.

Lemma count_messages_lookup (messages : list group_message) (counts : gmap str nat)
    (c : str) :
  count_messages messages counts !! c
  = (λ n, n + length (spoken_by c messages)) <$> counts !! c.
Proof.
  unfold count_messages, spoken_by. revert counts.
  induction messages as [|msg msgs IH]; intros counts; cbn [fold_left List.filter].
  - destruct (counts !! c); cbn; [f_equal; lia|reflexivity].
  - rewrite IH. case_bool_decide as Hrole; cbn [andb]; [|reflexivity].
    set (id := get_or (gm_character_id msg) []).
    destruct (decide (id = c)) as [Heq|Hne].
    + rewrite bool_decide_eq_true_2 by exact Heq. subst c.
      destruct (counts !! id) as [n|] eqn:Hn.
      * rewrite lookup_insert_eq. cbn. f_equal. lia.
      * by rewrite Hn.
    + rewrite bool_decide_eq_false_2 by exact Hne.
      destruct (counts !! id) as [n|]; [|reflexivity]. by rewrite lookup_insert_ne.
Qed.

(** X23.  The statistics of a known group count, for each member, the
    messages of role character that carry its id, and hold no entry for
    anyone else; no count exceeds the total number of messages.  An
    unknown group has no statistics. *)
Theorem get_group_stats_counts (group_id : str) (chats : gmap str group_chat) :
  (chats !! group_id = None → get_group_stats group_id chats = None) ∧
  (∀ gc, chats !! group_id = Some gc →
     ∃ st, get_group_stats group_id chats = Some st ∧
           total_messages st = length (gc_messages gc) ∧
           group_size st = length (gc_characters gc) ∧
           stats_created_at st = gc_created_at gc ∧
           ∀ c, character_message_counts st !! c =
                (if decide (c ∈ gc_characters gc)
                 then Some (length (spoken_by c (gc_messages gc))) else None) ∧
                length (spoken_by c (gc_messages gc)) ≤ total_messages st).
Proof.
  unfold get_group_stats. split; [by intros ->|].
  intros gc ->. eexists. split; [reflexivity|]. cbn. repeat split.
  - rewrite count_messages_lookup, zero_counts_lookup. by case_decide.
  - apply filter_length_le.
Qed.

(** X24.  A group is created exactly when it has two to four members;
    otherwise nothing changes.  A created group is registered under the
    lower-cased name with underscores for spaces, replaces whatever was
    registered there, starts without messages, and its statistics show
    zero messages for each member.  Other groups are untouched. *)
Theorem create_group_chat_registers (now group_name : str) (ids : list str)
    (chats : gmap str group_chat) :
  let r := create_group_chat now group_name ids chats in
  let group_id := normalize_id group_name in
  (fst r = true ↔ 2 ≤ length ids ≤ 4) ∧
  (fst r = false → snd r = chats) ∧
  (fst r = true →
     snd r !! group_id = Some (fresh_group now group_name ids) ∧
     (∀ g, g ≠ group_id → snd r !! g = chats !! g) ∧
     ∃ st, get_group_stats group_id (snd r) = Some st ∧
           total_messages st = 0 ∧ group_size st = length ids ∧
           ∀ c, c ∈ ids → character_message_counts st !! c = Some 0).
Proof.
  cbv zeta. unfold create_group_chat.
  destruct (Nat.ltb_spec (length ids) 2) as [Hlo|Hlo]; cbn [orb fst snd].
  { split; [split; [discriminate|lia]|]. split; [reflexivity|discriminate]. }
  destruct (Nat.ltb_spec 4 (length ids)) as [Hhi|Hhi]; cbn [fst snd].
  { split; [split; [discriminate|lia]|]. split; [reflexivity|discriminate]. }
  split; [split; [lia|reflexivity]|]. split; [discriminate|]. intros _.
  split; [apply lookup_insert_eq|]. split; [intros g Hg; by apply lookup_insert_ne|].
  unfold get_group_stats. rewrite lookup_insert_eq. eexists. split; [reflexivity|].
  cbn [total_messages group_size character_message_counts gc_messages gc_characters length].
  repeat split. intros c Hc.
  rewrite count_messages_lookup, zero_counts_lookup, decide_True by exact Hc.
  reflexivity.
Qed.

Lemma delete_group_chat_delete (group_id : str) (chats : gmap str group_chat) :
  snd (delete_group_chat group_id chats) = delete group_id chats.
Proof.
  unfold delete_group_chat. destruct (chats !! group_id) eqn:E; cbn [snd]; [reflexivity|].
  symmetry. by apply delete_id.
Qed.

(** X25.  Deleting a group answers true exactly when the group existed;
    afterwards the group has no statistics and gets no responses, a
    second deletion answers false, the other groups are untouched, and
    deleting a group right after creating it leaves the registry as if it
    had only been deleted. *)
Theorem delete_group_chat_removes (group_id : str) (chats : gmap str group_chat) :
  let r := delete_group_chat group_id chats in
  (fst r = true ↔ is_Some (chats !! group_id)) ∧
  snd r = delete group_id chats ∧
  get_group_stats group_id (snd r) = None ∧
  (∀ has_client groq db messages msg,
     generate_group_response has_client groq (snd r) db messages msg group_id = []) ∧
  fst (delete_group_chat group_id (snd r)) = false ∧
  (∀ g, g ≠ group_id → snd r !! g = chats !! g) ∧
  (∀ now group_name ids,
     normalize_id group_name = group_id →
     snd (delete_group_chat group_id (snd (create_group_chat now group_name ids chats)))
     = snd r).
Proof.
  cbv zeta. rewrite delete_group_chat_delete.
  split; [|split; [reflexivity|split; [|split; [|split; [|split]]]]].
  - unfold delete_group_chat. destruct (chats !! group_id); cbn; split; eauto.
    + discriminate.
    + by intros [? ?].
  - unfold get_group_stats. by rewrite lookup_delete_eq.
  - intros has_client groq db messages msg. unfold generate_group_response.
    rewrite lookup_delete_eq. by destruct has_client.
  - unfold delete_group_chat. by rewrite lookup_delete_eq.
  - intros g Hg. by apply lookup_delete_ne.
  - intros now group_name ids <-. rewrite delete_group_chat_delete.
    unfold create_group_chat. destruct (_ || _); cbn [snd]; [reflexivity|].
    apply delete_insert_eq.
Qed.

(** The score of a response lies in [0,1]. *)
Lemma respond_one_sound (groq : enhanced_prompt → Orchestrator.completion)
    (db : gmap str character) (msg : str) (gc : group_chat)
    (recent : list group_message) (char_id : option str) (r : group_response) :
  r ∈ respond_one groq db msg gc recent char_id →
  gr_character_id r = char_id ∧ gr_response r ≠ [] ∧
  (0 <= gr_relevance_score r <= 1)%Q.
Proof.
  unfold respond_one.
  assert (∀ n, r ∈ [thinking_response char_id n] →
            gr_character_id r = char_id ∧ gr_response r ≠ [] ∧
            (0 <= gr_relevance_score r <= 1)%Q) as Hfallback.
  { intros n ->%list_elem_of_singleton. cbn. split; [reflexivity|].
    split; [discriminate|split; discriminate]. }
  destruct (char_id ≫= _) as [ch|]; [|apply Hfallback].
  destruct (groq _) as [| |content]; [apply Hfallback|intros H; by apply not_elem_of_nil in H|].
  destruct (truthy content); [|intros H; by apply not_elem_of_nil in H].
  match goal with |- context [truthy ?t] => destruct (truthy t) eqn:Ht end;
    [|intros H; by apply not_elem_of_nil in H].
  intros ->%list_elem_of_singleton. cbn [gr_character_id gr_response gr_relevance_score].
  split; [reflexivity|]. split.
  - intros Hnil. rewrite Hnil in Ht. discriminate Ht.
  - rewrite AppProps.calculate_enhanced_relevance_closed.
    apply AppProps.relevance_formula_bounds.
Qed.

Lemma respond_one_length (groq : enhanced_prompt → Orchestrator.completion)
    (db : gmap str character) (msg : str) (gc : group_chat)
    (recent : list group_message) (char_id : option str) :
  length (respond_one groq db msg gc recent char_id) ≤ 1.
Proof.
  unfold respond_one. repeat case_match; cbn; lia.
Qed.

Lemma flat_map_length_le {A B} (f : A → list B) (l : list A) :
  (∀ a, length (f a) ≤ 1) → length (flat_map f l) ≤ length l.
Proof.
  intros Hf. induction l as [|a l IH]; [reflexivity|]. cbn [flat_map length].
  rewrite length_app. pose proof (Hf a). lia.
Qed.

(** What the group answers with, once the guards are passed. *)
Lemma generate_group_response_unfold (has_client : bool)
    (groq : enhanced_prompt → Orchestrator.completion)
    (chats : gmap str group_chat) (db : gmap str character)
    (messages : list group_message) (msg group_id : str) (r : group_response) :
  r ∈ generate_group_response has_client groq chats db messages msg group_id →
  ∃ gc valid recent,
    has_client = true ∧ chats !! group_id = Some gc ∧
    valid = List.filter (λ id, bool_decide (is_Some (db !! id))) (gc_characters gc) ∧
    valid ≠ [] ∧
    recent = (if truthy messages then last_n 10 messages else []) ∧
    generate_group_response has_client groq chats db messages msg group_id
    = flat_map (respond_one groq db msg gc recent)
        (select_responding_characters_enhanced db msg valid recent).
Proof.
  unfold generate_group_response.
  destruct has_client; cbn [negb]; [|intros H; by apply not_elem_of_nil in H].
  destruct (chats !! group_id) as [gc|]; [|intros H; by apply not_elem_of_nil in H].
  destruct (List.filter _ (gc_characters gc)) as [|v vs] eqn:Hv; cbn [truthy negb];
    [intros H; by apply not_elem_of_nil in H|].
  intros _. exists gc, (v :: vs), (if truthy messages then last_n 10 messages else []).
  by rewrite Hv.
Qed.

(** X26.  The group never answers without a client, for an unknown group
    or for a group none of whose members is in the store.  Otherwise
    every response has a non-empty text and a relevance score between 0
    and 1, comes from one of the selected responders, and there is at
    most one response per selected responder. *)
Theorem generate_group_response_sound (has_client : bool)
    (groq : enhanced_prompt → Orchestrator.completion)
    (chats : gmap str group_chat) (db : gmap str character)
    (messages : list group_message) (msg group_id : str) :
  let rs := generate_group_response has_client groq chats db messages msg group_id in
  (has_client = false → rs = []) ∧
  (chats !! group_id = None → rs = []) ∧
  (∀ gc, chats !! group_id = Some gc →
     (∀ id, id ∈ gc_characters gc → db !! id = None) → rs = []) ∧
  (∀ r, r ∈ rs →
     gr_response r ≠ [] ∧ (0 <= gr_relevance_score r <= 1)%Q ∧
     ∃ gc, chats !! group_id = Some gc ∧
       let valid := List.filter (λ id, bool_decide (is_Some (db !! id)))
                                (gc_characters gc) in
       let recent := if truthy messages then last_n 10 messages else [] in
       let responders := select_responding_characters_enhanced db msg valid recent in
       gr_character_id r ∈ responders ∧ length rs ≤ length responders).
Proof.
  cbv zeta. split; [|split; [|split]].
  - intros ->. reflexivity.
  - intros Hc. unfold generate_group_response. rewrite Hc. by destruct has_client.
  - intros gc Hc Hnone. unfold generate_group_response. rewrite Hc.
    destruct has_client; [|reflexivity]. cbn [negb].
    assert (List.filter (λ id, bool_decide (is_Some (db !! id))) (gc_characters gc) = [])
      as ->; [|reflexivity].
    induction (gc_characters gc) as [|a l IH]; [reflexivity|]. cbn [List.filter].
    rewrite (Hnone a) by left. rewrite bool_decide_eq_false_2 by (by intros [? ?]).
    apply IH. intros id Hid. apply Hnone. by right.
  - intros r Hr.
    destruct (generate_group_response_unfold _ _ _ _ _ _ _ _ Hr)
      as (gc & valid & recent & _ & Hc & -> & _ & -> & Heq).
    rewrite Heq in Hr |- *.
    apply list_elem_of_In, in_flat_map in Hr as (id & Hid & Hr).
    apply list_elem_of_In in Hid. apply list_elem_of_In in Hr.
    apply respond_one_sound in Hr as (Hrid & Htext & Hscore).
    split; [exact Htext|]. split; [exact Hscore|].
    exists gc. split; [exact Hc|]. split; [by rewrite Hrid|].
    apply flat_map_length_le. intros a. apply respond_one_length.
Qed.

(** X27.  When the service raises on every request, each selected
    responder still answers: the responses are, in order, the
    placeholders "*<name> is thinking...*" of the selected responders,
    each with score 0.3, with the name "Character" for an id the store
    does not know. *)
Theorem generate_group_response_service_down
    (groq : enhanced_prompt → Orchestrator.completion)
    (chats : gmap str group_chat) (db : gmap str character)
    (messages : list group_message) (msg group_id : str) (gc : group_chat) :
  chats !! group_id = Some gc →
  (∃ id, id ∈ gc_characters gc ∧ is_Some (db !! id)) →
  (∀ p, groq p = Orchestrator.Raises) →
  let valid := List.filter (λ id, bool_decide (is_Some (db !! id))) (gc_characters gc) in
  let recent := if truthy messages then last_n 10 messages else [] in
  let responders := select_responding_characters_enhanced db msg valid recent in
  generate_group_response true groq chats db messages msg group_id
  = (λ id, thinking_response id (known_name db id)) <$> responders.
Proof.
  intros Hc (id & Hid & Hdb) Hdown. cbv zeta.
  assert (List.filter (λ id, bool_decide (is_Some (db !! id))) (gc_characters gc) ≠ [])
    as Hvalid.
  { intros Hnil.
    assert (In id (List.filter (λ id, bool_decide (is_Some (db !! id))) (gc_characters gc)))
      as Hin by (apply filter_In; split;
                 [by apply list_elem_of_In|by apply bool_decide_eq_true]).
    rewrite Hnil in Hin. destruct Hin. }
  unfold generate_group_response. rewrite Hc. cbn [negb].
  destruct (List.filter _ (gc_characters gc)) as [|v vs] eqn:Hv; [done|].
  cbn [truthy negb].
  induction (select_responding_characters_enhanced db msg (v :: vs) _) as [|x xs IH];
    [reflexivity|].
  cbn [flat_map fmap list_fmap]. rewrite IH. unfold respond_one at 1, known_name.
  destruct (x ≫= _); [rewrite Hdown|]; reflexivity.
Qed.

Lemma generate_group_response_service_down_witness :
  generate_group_response true failing trio_chats trio_db sasuke_spoke «"Really?"» «"team_7"»
  = [thinking_response (Some «"naruto"») «"Naruto"»;
     thinking_response (Some «"eve"») «"Eve"»].
Proof.
  rewrite (generate_group_response_service_down failing trio_chats trio_db sasuke_spoke
             «"Really?"» «"team_7"» _ (lookup_singleton_eq _ _)).
  - vm_compute. reflexivity.
  - exists «"naruto"». split; [left|]. vm_compute. eauto.
  - reflexivity.
Defined.

Lemma last_last_n {A} (n : nat) (l : list A) : 0 < n → last (last_n n l) = last l.
Proof.
  intros Hn. unfold last_n. rewrite !last_lookup, length_skipn, lookup_drop.
  destruct l as [|a l]; [reflexivity|]. f_equal. cbn [length]. lia.
Qed.

(** X28.  When the last message is not a character's (the application
    appends the user's message before asking), every response comes from
    a member of the group that is in the store and carries that member's
    name: no response is attributed to an unknown character. *)
Theorem generate_group_response_after_user (has_client : bool)
    (groq : enhanced_prompt → Orchestrator.completion)
    (chats : gmap str group_chat) (db : gmap str character)
    (messages : list group_message) (msg group_id : str) (r : group_response) :
  (∀ lm, last messages = Some lm → gm_role lm ≠ Some «"character"») →
  r ∈ generate_group_response has_client groq chats db messages msg group_id →
  ∃ gc c ch, chats !! group_id = Some gc ∧ c ∈ gc_characters gc ∧
             db !! c = Some ch ∧
             gr_character_id r = Some c ∧ gr_character_name r = name ch.
Proof.
  intros Hlast Hr.
  destruct (generate_group_response_unfold _ _ _ _ _ _ _ _ Hr)
    as (gc & valid & recent & _ & Hc & Hvalid & _ & Hrecent & Heq).
  rewrite Heq in Hr. apply list_elem_of_In, in_flat_map in Hr as (x & Hx & Hr).
  apply list_elem_of_In in Hx. apply list_elem_of_In in Hr.
  assert (∀ lm, last recent = Some lm → gm_role lm ≠ Some «"character"») as Hlast'.
  { subst recent. destruct messages as [|m ms]; [discriminate|]. cbn [truthy].
    rewrite last_last_n by lia. exact Hlast. }
  assert (∃ c, x = Some c ∧ c ∈ valid) as (c & -> & Hcv).
  { assert (∀ l : list str, (∀ c, c ∈ l → c ∈ valid) →
              x ∈ (Some <$> l) → ∃ c, x = Some c ∧ c ∈ valid) as Hsub.
    { intros l Hl (c & -> & Hcl)%list_elem_of_fmap. eauto. }
    assert (∀ n c, c ∈ firstn n valid → c ∈ valid) as Hfirst
      by (intros n c Hcl; by eapply elem_of_sublist; [|apply sublist_take]).
    destruct (mentioned_chars_loop (lower msg) valid db) as [|m ms] eqn:Hm.
    - rewrite (select_enhanced_unmentioned _ _ _ _ Hm) in Hx. cbv zeta in Hx.
      destruct (last recent) as [lm|] eqn:Hlm.
      + rewrite bool_decide_eq_false_2 in Hx by (by apply Hlast'). cbn [andb] in Hx.
        revert Hx.
        repeat match goal with |- context [if ?b then _ else _] => destruct b end;
          apply Hsub; eauto.
      + revert Hx.
        repeat match goal with |- context [if ?b then _ else _] => destruct b end;
          apply Hsub; eauto.
    - unfold select_responding_characters_enhanced in Hx. rewrite Hm in Hx.
      cbn [truthy] in Hx. revert Hx. apply Hsub. intros c Hcl. rewrite <- Hm in Hcl.
      by apply elem_of_mentioned_chars_loop in Hcl as [Hcl _]. }
  subst valid. apply list_elem_of_In, filter_In in Hcv as [Hcin Hcdb].
  apply list_elem_of_In in Hcin. apply bool_decide_eq_true in Hcdb as [ch Hch].
  exists gc, c, ch. split; [exact Hc|]. split; [exact Hcin|]. split; [exact Hch|].
  unfold respond_one in Hr. cbn [mbind option_bind] in Hr. rewrite Hch in Hr.
  revert Hr. repeat case_match; intros Hr;
    try (by apply not_elem_of_nil in Hr);
    by apply list_elem_of_singleton in Hr as ->.
Qed.

Lemma generate_group_response_after_user_witness :
  ∃ gc c ch, trio_chats !! «"team_7"» = Some gc ∧ c ∈ gc_characters gc ∧
             trio_db !! c = Some ch ∧
             Some «"naruto"» = Some c ∧ «"Naruto"» = name ch.
Proof.
  apply (generate_group_response_after_user true failing trio_chats trio_db user_spoke
           «"I really like ramen in winter"» «"team_7"»
           (thinking_response (Some «"naruto"») «"Naruto"»)).
  - intros lm [= <-]. discriminate.
  - vm_compute. left.
Defined.

End GroupChatProps.

(** ** The "vs" trigger *)
Module VersusProps.
Import Py Re Orchestrator Lines Samples ReProps TriggerProps.

Lemma elem_of_flat_map_2 {A B} (f : A → list B) (l : list A) (a : A) (b : B) :
  a ∈ l → b ∈ f a → b ∈ flat_map f l.
Proof.
  intros Ha Hb. apply list_elem_of_In, in_flat_map. exists a.
  by rewrite <- !list_elem_of_In.
Qed.

(** [.+] can stop after any non-empty stretch free of line feeds. *)
Lemma plus_dot_reaches (a : str) :
  a ≠ [] → Forall (λ c, c ≠ newline) a →
  ∀ (fuel : nat) (before : option ascii) (s : str) (cs : list (nat * str)),
    length a ≤ fuel →
    ∃ before', mkPos before' s cs ∈ plus_loop (run Dot) fuel (mkPos before (a ++ s) cs).
Proof.
  induction a as [|c a IH]; [done|]. intros _ Hall fuel before s cs Hfuel.
  apply Forall_cons in Hall as [Hc Hall].
  destruct fuel as [|fuel]; [cbn in Hfuel; lia|].
  cbn [plus_loop]. rewrite run_Dot. unfold eat. cbn [rest caps app].
  rewrite bool_decide_eq_false_2 by exact Hc. cbn [negb flat_map].
  rewrite app_nil_r. destruct a as [|c' a'].
  - exists (Some c). apply elem_of_app. right. cbn. left.
  - destruct (IH ltac:(done) Hall fuel (Some c) s cs) as [before' Hin];
      [cbn in Hfuel |- *; lia|].
    exists before'. apply elem_of_app. by left.
Qed.

Lemma run_nonempty_elem (r : regex) (p : pos) : run r p ≠ [] → ∃ q, q ∈ run r p.
Proof. destruct (run r p) as [|q l]; [done|]. intros _. exists q. left. Qed.

Lemma re_search_at_start (r : regex) (s : str) (m : match_obj) :
  match_at r None s = Some m → re_search r s = Some m.
Proof. intros Hm. unfold re_search. destruct s; cbn [search_from]; by rewrite Hm. Qed.

(** The "vs" trigger matches at the start of "A vs B". *)
Lemma versus_matches (a b : str) (c : ascii) :
  a ≠ [] → Forall (λ x, x ≠ newline) a → c ≠ newline →
  is_Some (re_search (Seqs [Group 1 (Plus Dot); Lit «" vs "»; Group 2 (Plus Dot)])
             (a ++ «" vs "» ++ c :: b)).
Proof.
  intros Ha Hall Hc.
  enough (∃ q, q ∈ run (Seqs [Group 1 (Plus Dot); Lit «" vs "»; Group 2 (Plus Dot)])
                    (mkPos None (a ++ «" vs "» ++ c :: b) [])) as [q Hq].
  { assert (is_Some (match_at (Seqs [Group 1 (Plus Dot); Lit «" vs "»; Group 2 (Plus Dot)])
                       None (a ++ «" vs "» ++ c :: b))) as [m Hm].
    { unfold match_at. destruct (run _ _); [by apply not_elem_of_nil in Hq|cbn; eauto]. }
    rewrite (re_search_at_start _ _ _ Hm). eauto. }
  cbn [Seqs]. rewrite run_Seq.
  destruct (plus_dot_reaches a Ha Hall (S (length (a ++ «" vs "» ++ c :: b))) None
              («" vs "» ++ c :: b) []) as [b1 H1]; [rewrite length_app; lia|].
  set (p0 := mkPos None (a ++ «" vs "» ++ c :: b) []) in *.
  assert (set_cap 1 p0 (mkPos b1 («" vs "» ++ c :: b) []) ∈ run (Group 1 (Plus Dot)) p0)
    as Hg1.
  { rewrite run_Group, run_Plus. apply list_elem_of_fmap. eexists. split; [reflexivity|].
    exact H1. }
  set (p1 := set_cap 1 p0 _) in Hg1.
  enough (∃ q, q ∈ run (Seq (Lit «" vs "») (Group 2 (Plus Dot))) p1) as [q Hq]
    by (exists q; by eapply elem_of_flat_map_2).
  rewrite run_Seq.
  destruct (run_Lit «" vs "» (prev p1) (c :: b) (caps p1)) as [b2 Hlit].
  change (mkPos (prev p1) («" vs "» ++ c :: b) (caps p1)) with p1 in Hlit.
  rewrite Hlit. cbn [flat_map]. rewrite app_nil_r, run_Group, run_Plus. cbn [rest].
  destruct (plus_dot_greedy (S (length (c :: b))) b c b2 (caps p1) Hc) as
    (b3 & others & ->); [cbn; lia|].
  eexists. cbn [map]. left.
Qed.

(** X29.  A message whose trimmed lower-cased text is "A vs B", with a
    non-empty A on one line and a B that does not start with a line feed,
    always yields a debate spec: 8 rounds, the first two candidates, and
    as topic the trimmed first group of the first matching trigger. *)
Theorem versus_triggers_debate (user_message : str) (ids : list str)
    (a b : str) (c : ascii) :
  strip (lower user_message) = a ++ «" vs "» ++ c :: b →
  a ≠ [] → Forall (λ x, x ≠ newline) a → c ≠ newline →
  ∃ m, first_match debate_triggers (strip (lower user_message)) = Some m ∧
       detect_autonomous_trigger user_message ids
       = Some (debate_spec (strip (group 1 m)) ids).
Proof.
  intros Hform Ha Hall Hc. rewrite detect_autonomous_trigger_cases.
  assert (is_Some (first_match debate_triggers (strip (lower user_message)))) as [m Hm].
  { apply (first_match_is_Some _ _
             (Seqs [Group 1 (Plus Dot); Lit «" vs "»; Group 2 (Plus Dot)])).
    - unfold debate_triggers. do 4 right. left.
    - rewrite Hform. by apply versus_matches. }
  exists m. by rewrite Hm.
Qed.

Lemma versus_triggers_debate_witness :
  detect_autonomous_trigger «" Cats vs Dogs "» [«"naruto"»; «"sasuke"»; «"eve"»]
  = Some (debate_spec «"cats"» [«"naruto"»; «"sasuke"»; «"eve"»]).
Proof.
  destruct (versus_triggers_debate «" Cats vs Dogs "» [«"naruto"»; «"sasuke"»; «"eve"»]
              «"cats"» «"ogs"» "d"%char) as (m & Hm & ->).
  - vm_compute. reflexivity.
  - discriminate.
  - repeat constructor; discriminate.
  - discriminate.
  - assert (first_match debate_triggers (strip (lower «" Cats vs Dogs "»))
            = Some [(2, «"dogs"»); (1, «"cats"»)]) as Hfm by (vm_compute; reflexivity).
    rewrite Hfm in Hm. injection Hm as <-. vm_compute. reflexivity.
Defined.

End VersusProps.

(** ** The character type *)
Module FetcherProps.
Import Py Fetcher.

Lemma any_in_elem (keywords : list str) (s k : str) :
  k ∈ keywords → contains s k = true → any_in keywords s = true.
Proof.
  intros Hk Hc. unfold any_in. apply existsb_exists. exists k.
  by rewrite <- list_elem_of_In.
Qed.

(** X30.  Every name that contains the letter l, in either case, is typed
    anime, because "l" is one of the anime names and the check is a
    substring test; so of the Marvel and DC entries, those spelled with
    an l (hulk, black widow, flash, ...) are typed anime as well.  A
    name is typed general exactly when none of the listed names occurs in
    it. *)
Theorem detect_character_type_letter_l (character_name : str) :
  (contains (lower character_name) «"l"» = true →
     detect_character_type character_name = «"anime"») ∧
  (∀ k, (k ∈ marvel_characters ∨ k ∈ dc_characters) → contains k «"l"» = true →
     detect_character_type k = «"anime"») ∧
  (detect_character_type character_name = «"general"» ↔
     any_in (anime_characters ++ marvel_characters ++ dc_characters)
            (lower character_name) = false).
Proof.
  split; [|split].
  - intros Hl. unfold detect_character_type.
    rewrite (any_in_elem anime_characters _ «"l"»); [reflexivity| |exact Hl].
    unfold anime_characters. cbn [map]. do 14 right. left.
  - intros k Hk Hl.
    assert (lower k = k) as Hlow.
    { destruct Hk as [Hk|Hk]; unfold marvel_characters, dc_characters in Hk;
        cbn [map] in Hk; repeat (apply elem_of_cons in Hk as [->|Hk]; [reflexivity|]);
        by apply not_elem_of_nil in Hk. }
    unfold detect_character_type. rewrite Hlow.
    rewrite (any_in_elem anime_characters _ «"l"»); [reflexivity| |exact Hl].
    unfold anime_characters. cbn [map]. do 14 right. left.
  - unfold detect_character_type, any_in. rewrite !existsb_app.
    destruct (existsb _ anime_characters); [split; discriminate|].
    destruct (existsb _ marvel_characters); [split; discriminate|].
    destruct (existsb _ dc_characters); [split; discriminate|]. by split.
Qed.

Example hulk_is_anime : detect_character_type «"The Hulk"» = «"anime"».
Proof. vm_compute. reflexivity. Qed.

Example thor_is_marvel : detect_character_type «"Thor"» = «"marvel"».
Proof. vm_compute. reflexivity. Qed.

End FetcherProps.
